(** * Mask construction kernels of [radio.preprocessing.mask]

    A shallow embedding of [src/radio/preprocessing/mask.py]:
    [insert_cropped], [make_rect_mask_numba], [make_ellipse_mask_numba],
    [create_mask_reg_jit] and [create_mask_reg], together with the part of
    NumPy they rely on (int64 arithmetic, basic slicing, views, slice
    assignment, boolean-mask indexing, binary64 arithmetic). *)

From Stdlib Require Import ZArith Lia List Bool Floats QArith Permutation.
Import ListNotations.
Local Open Scope Z_scope.

(** ** Machine integers: NumPy's [int64] *)

Module Int64.
Definition min_int : Z := - 2 ^ 63.
Definition max_int : Z := 2 ^ 63 - 1.

(** Two's complement wrap-around of a mathematical integer. *)
Definition wrap (z : Z) : Z := (z + 2 ^ 63) mod 2 ^ 64 - 2 ^ 63.

Definition add (a b : Z) : Z := wrap (a + b).
Definition sub (a b : Z) : Z := wrap (a - b).
Definition neg (a : Z) : Z := wrap (- a).

Definition in_range (z : Z) : Prop := min_int <= z <= max_int.
End Int64.

(** ** Triples along the three axes (z, y, x) *)

Inductive axis : Type := ax0 | ax1 | ax2.

Definition vec3 (A : Type) : Type := (A * A * A)%type.

Definition proj {A : Type} (p : vec3 A) (a : axis) : A :=
  let '(x, y, z) := p in
  match a with ax0 => x | ax1 => y | ax2 => z end.

Definition map3 {A B : Type} (f : A -> B) (p : vec3 A) : vec3 B :=
  let '(x, y, z) := p in (f x, f y, f z).

Definition zip3 {A B C : Type} (f : A -> B -> C) (p : vec3 A) (q : vec3 B)
  : vec3 C :=
  let '(x, y, z) := p in
  let '(x', y', z') := q in (f x x', f y y', f z z').

(** [np.any] and [np.all] on a length-3 boolean array. *)
Definition any3 (p : vec3 bool) : bool :=
  let '(x, y, z) := p in x || y || z.

Definition all3 (p : vec3 bool) : bool :=
  let '(x, y, z) := p in x && y && z.

(** Element-wise NumPy operations on int64 arrays of length 3. *)
Definition np_add : vec3 Z -> vec3 Z -> vec3 Z := zip3 Int64.add.
Definition np_sub : vec3 Z -> vec3 Z -> vec3 Z := zip3 Int64.sub.
Definition np_neg : vec3 Z -> vec3 Z := map3 Int64.neg.
Definition np_minimum : vec3 Z -> vec3 Z -> vec3 Z := zip3 Z.min.
Definition np_maximum : vec3 Z -> vec3 Z -> vec3 Z := zip3 Z.max.
Definition np_zeros_like (p : vec3 Z) : vec3 Z := map3 (fun _ => 0) p.
Definition np_le_scalar (p : vec3 Z) (c : Z) : vec3 bool :=
  map3 (fun x => x <=? c) p.
Definition np_ge : vec3 Z -> vec3 Z -> vec3 bool := zip3 Z.geb.

Definition int64_vec (p : vec3 Z) : Prop :=
  forall a, Int64.in_range (proj p a).

(** ** Exceptions *)

Inductive exn : Type := ValueError | IndexError | ZeroDivisionError.

Inductive result (A : Type) : Type :=
| Ok (a : A)
| Raise (e : exn).

Arguments Ok {A} a.
Arguments Raise {A} e.

Definition bind {A B : Type} (r : result A) (k : A -> result B) : result B :=
  match r with
  | Ok a => k a
  | Raise e => Raise e
  end.

Notation "x <- r ;; k" := (bind r (fun x => k))
  (at level 61, r at next level, right associativity).

(** [for x in xs: s = body(x, s)], stopping at the first exception. *)
Fixpoint for_each {A S : Type} (xs : list A) (body : A -> S -> result S)
  (s : S) : result S :=
  match xs with
  | [] => Ok s
  | x :: xs' => s' <- body x s ;; for_each xs' body s'
  end.

(** [range(b, e)] *)
Definition range (b e : Z) : list Z :=
  map (fun k => b + Z.of_nat k) (seq 0 (Z.to_nat (e - b))).

(** [a[i]] on the first axis of an array held as a list of rows. *)
Definition row {A : Type} (l : list A) (i : nat) : result A :=
  match nth_error l i with
  | Some r => Ok r
  | None => Raise IndexError
  end.

(** ** Three-dimensional arrays, views and slices *)

Section Arrays.

Context {V : Type}.

(** An array that owns its buffer: a shape and the voxel at each index. *)
Record ndarray : Type := mk_ndarray {
  shape : vec3 Z;
  data : vec3 Z -> V
}.

(** A basic-slicing view of an array: voxel [p] of the view is voxel
    [v_off + p] of the array it was taken from; writing through the view
    writes into that array. *)
Record view : Type := mk_view {
  v_off : vec3 Z;
  v_shape : vec3 Z
}.

Definition whole (m : ndarray) : view :=
  {| v_off := (0, 0, 0); v_shape := shape m |}.

(** [lo <= p < lo + sh] on every axis. *)
Definition in_box (lo sh p : vec3 Z) : bool :=
  all3 (zip3 andb (zip3 Z.leb lo p) (zip3 Z.ltb p (zip3 Z.add lo sh))).

Definition in_view (w : view) (p : vec3 Z) : bool :=
  in_box (v_off w) (v_shape w) p.

Definition in_bounds (m : ndarray) (p : vec3 Z) : bool :=
  in_box (0, 0, 0) (shape m) p.

(** Well-formed shapes and views. *)
Definition shape_ok (sh : vec3 Z) : Prop :=
  forall a, 0 <= proj sh a <= Int64.max_int.

Definition view_ok (m : ndarray) (w : view) : Prop :=
  forall a,
    0 <= proj (v_off w) a /\ 0 <= proj (v_shape w) a /\
    proj (v_off w) a + proj (v_shape w) a <= proj (shape m) a.

(** Python's normalisation of one bound of [a[s:e]] on an axis of
    length [n]: a negative bound counts from the end, then both are
    clamped to [0, n]. *)
Definition slice_bound (n i : Z) : Z :=
  if i <? 0 then Z.max 0 (i + n) else Z.min i n.

Definition slice_start (n s : Z) : Z := slice_bound n s.

Definition slice_len (n s e : Z) : Z :=
  Z.max 0 (slice_bound n e - slice_bound n s).

(** [w[s0:e0, s1:e1, s2:e2]] *)
Definition slice_view (w : view) (st en : vec3 Z) : view :=
  {| v_off := zip3 Z.add (v_off w) (zip3 slice_start (v_shape w) st);
     v_shape := zip3 (fun n se => slice_len n (fst se) (snd se))
                  (v_shape w) (zip3 pair st en) |}.

(** Broadcasting of a source extent against a destination extent. *)
Definition broadcastable (src dst : vec3 Z) : bool :=
  all3 (zip3 (fun s d => (s =? d) || (s =? 1)) src dst).

Definition bcast_index (src q : vec3 Z) : vec3 Z :=
  zip3 (fun s i => if s =? 1 then 0 else i) src q.

(** [dst[...] = src[...]] where [dst] is a view of [base] and [sv] a view
    of the array [src]. *)
Definition assign_view (base : ndarray) (dst : view) (src : ndarray)
  (sv : view) : result ndarray :=
  if broadcastable (v_shape sv) (v_shape dst) then
    Ok {| shape := shape base;
          data := fun p =>
            if in_view dst p then
              data src (zip3 Z.add (v_off sv)
                          (bcast_index (v_shape sv)
                             (zip3 Z.sub p (v_off dst))))
            else data base p |}
  else Raise ValueError.

(** [dst[...] = v] for a scalar [v]. *)
Definition fill_view (base : ndarray) (dst : view) (v : V) : ndarray :=
  {| shape := shape base;
     data := fun p => if in_view dst p then v else data base p |}.

(** Normalisation of an integer index on an axis of length [n]. *)
Definition norm_index (n i : Z) : Z := if i <? 0 then i + n else i.

(** [m[i, j, k] = v]. A negative index counts from the end; an index
    that is still out of range is reported as [IndexError]. *)
Definition setitem (m : ndarray) (p : vec3 Z) (v : V) : result ndarray :=
  let q := zip3 norm_index (shape m) p in
  if in_bounds m q then
    Ok {| shape := shape m;
          data := fun p' =>
            if in_box q (1, 1, 1) p' then v else data m p' |}
  else Raise IndexError.

(** *** [insert_cropped] *)

(** The test "is there anything to insert". *)
Definition nothing_to_insert (where_shape what_shape origin : vec3 Z)
  : bool :=
  any3 (np_le_scalar (np_add what_shape origin) 0)
  || any3 (np_ge origin where_shape).

(** The crop boundaries, as the source computes them. *)
Definition st_what (origin : vec3 Z) : vec3 Z :=
  np_neg (np_minimum (np_zeros_like origin) origin).

Definition end_what (where_shape what_shape origin : vec3 Z) : vec3 Z :=
  np_minimum (np_sub where_shape origin) what_shape.

Definition st_where (origin : vec3 Z) : vec3 Z :=
  np_maximum origin (np_zeros_like origin).

Definition end_where (where_shape what_shape origin : vec3 Z) : vec3 Z :=
  np_minimum (np_add origin what_shape) where_shape.

(** The two regions of the slice assignment: the part of [where_] that is
    written and the part of [what] that is read. *)
Definition write_region (where_ : view) (what : ndarray) (origin : vec3 Z)
  : view :=
  slice_view where_ (st_where origin)
    (end_where (v_shape where_) (shape what) origin).

Definition read_region (where_ : view) (what : ndarray) (origin : vec3 Z)
  : view :=
  slice_view (whole what) (st_what origin)
    (end_what (v_shape where_) (shape what) origin).

(** [insert_cropped(where, what, origin)]; [where] is the view [where_]
    of the array [base], and the result is [base] after the call. *)
Definition insert_cropped (base : ndarray) (where_ : view)
  (what : ndarray) (origin : vec3 Z) : result ndarray :=
  let what_shape := shape what in
  let where_shape := v_shape where_ in
  if nothing_to_insert where_shape what_shape origin then Ok base
  else
    assign_view base (write_region where_ what origin)
      what (read_region where_ what origin).

(** The extents of the destination and of the source add up within int64
    on every axis, as they do for any two arrays that hold data. *)
Definition extents_fit (where_shape what_shape : vec3 Z) : Prop :=
  forall a, proj where_shape a + proj what_shape a <= Int64.max_int.

End Arrays.

Arguments ndarray V : clear implicits.

(** ** Binary64 arithmetic

    Rocq's primitive floats are IEEE 754 binary64 with round to nearest,
    ties to even: NumPy's [float64] and Python's [float]. *)

Module F64.
(** Conversion of an int64 to float64 (correctly rounded). *)
Definition of_int64 (z : Z) : float :=
  if z =? Int64.min_int then (- 9223372036854775808)%float
  else if z <? 0 then (- of_uint63 (Uint63.of_Z (- z)))%float
  else of_uint63 (Uint63.of_Z z).

(** [x ** 2] *)
Definition sqr (x : float) : float := (x * x)%float.

(** [np.maximum] and [np.minimum]: a NaN operand is returned. *)
Definition maximum (x y : float) : float :=
  if is_nan x then x else if is_nan y then y
  else if (x <? y)%float then y else x.

Definition minimum (x y : float) : float :=
  if is_nan x then x else if is_nan y then y
  else if (y <? x)%float then y else x.

(** [np.clip(x, lo, hi)] *)
Definition clip (x lo hi : float) : float := minimum (maximum x lo) hi.

(** The integer nearest to [m / 2^k], ties to the even one
    (for [0 <= m] and [0 < k]). *)
Definition round_half_even_div (m k : Z) : Z :=
  let q := m / 2 ^ k in
  let r := m mod 2 ^ k in
  match 2 * r ?= 2 ^ k with
  | Lt => q
  | Gt => q + 1
  | Eq => if Z.even q then q else q + 1
  end.

(** [np.rint(x).astype(np.int)]: round to the nearest integer, ties to
    even, then convert to int64. NaN, the infinities and values outside
    int64 give the smallest int64, as the conversion instruction of
    x86-64 does. *)
Definition rint_int (x : float) : Z :=
  match Prim2SF x with
  | S754_zero _ => 0
  | S754_finite s m e =>
      let r := if 0 <=? e then Zpos m * 2 ^ e
               else round_half_even_div (Zpos m) (- e) in
      let v := if s then - r else r in
      if (Int64.min_int <=? v) && (v <=? Int64.max_int) then v
      else Int64.min_int
  | S754_infinity _ | S754_nan => Int64.min_int
  end.
End F64.

(** ** The box filler and the ellipsoid filler *)

Section Fillers.

Context {V : Type}.

(** The value that [1] takes in the dtype of the mask. *)
Variable one : V.

(** [np.ones(shape)]; a negative dimension is a [ValueError]. *)
Definition np_ones (sh : vec3 Z) : result (ndarray V) :=
  if any3 (map3 (fun n => n <? 0) sh) then Raise ValueError
  else Ok {| shape := sh; data := fun _ => one |}.

(** The body of the loop of [make_rect_mask_numba] for nodule [i]. *)
Definition rect_item (start end_ nodules_start nodules_size : list (vec3 Z))
  (i : nat) (batch_mask : ndarray V) : result (ndarray V) :=
  nodule_size <- row nodules_size i ;;
  nodule <- np_ones nodule_size ;;
  s <- row start i ;;
  e <- row end_ i ;;
  let patient_mask := slice_view (whole batch_mask) s e in
  origin <- row nodules_start i ;;
  insert_cropped batch_mask patient_mask nodule origin.

Definition make_rect_mask_numba (batch_mask : ndarray V)
  (start end_ nodules_start nodules_size : list (vec3 Z))
  : result (ndarray V) :=
  for_each (seq 0 (length nodules_start))
    (rect_item start end_ nodules_start nodules_size) batch_mask.

(** [a / b] on two int64: both are converted to float64; a zero divisor
    raises. *)
Definition true_div (a b : Z) : result float :=
  if b =? 0 then Raise ZeroDivisionError
  else Ok (F64.of_int64 a / F64.of_int64 b)%float.

(** The membership test of the innermost loop. *)
Definition inside_ellipse (p center radius : vec3 Z) : result bool :=
  let '(x, y, z) := p in
  fx <- true_div (Int64.sub x (proj center ax0)) (proj radius ax0) ;;
  fy <- true_div (Int64.sub y (proj center ax1)) (proj radius ax1) ;;
  fz <- true_div (Int64.sub z (proj center ax2)) (proj radius ax2) ;;
  Ok ((F64.sqr fx + F64.sqr fy + F64.sqr fz <? 1)%float).

(** The scan range of one nodule: [begin_*] and [end_*]. *)
Definition scan_begin (center radius : vec3 Z) : vec3 Z :=
  np_maximum (0, 0, 0) (np_sub center radius).

Definition scan_end (s e center radius : vec3 Z) : vec3 Z :=
  np_minimum (np_sub e s) (np_add (np_add center radius) (1, 1, 1)).

(** The body of the innermost loop at the voxel [p] of the window. *)
Definition ellipse_voxel (s center radius : vec3 Z) (p : vec3 Z)
  (batch_mask : ndarray V) : result (ndarray V) :=
  b <- inside_ellipse p center radius ;;
  if b then setitem batch_mask (np_add p s) one else Ok batch_mask.

(** The body of the loop of [make_ellipse_mask_numba] for nodule [i]. *)
Definition ellipse_item (start end_ centers radiuses : list (vec3 Z))
  (i : nat) (batch_mask : ndarray V) : result (ndarray V) :=
  center <- row centers i ;;
  radius <- row radiuses i ;;
  e <- row end_ i ;;
  s <- row start i ;;
  let b := scan_begin center radius in
  let f := scan_end s e center radius in
  for_each (range (proj b ax0) (proj f ax0)) (fun x =>
    for_each (range (proj b ax1) (proj f ax1)) (fun y =>
      for_each (range (proj b ax2) (proj f ax2)) (fun z =>
        ellipse_voxel s center radius (x, y, z)))) batch_mask.

Definition make_ellipse_mask_numba (batch_mask : ndarray V)
  (start end_ centers radiuses : list (vec3 Z)) : result (ndarray V) :=
  for_each (seq 0 (length centers))
    (ellipse_item start end_ centers radiuses) batch_mask.

End Fillers.

(** ** The regression batch path *)

(** [np.zeros(shape)] *)
Definition np_zeros (sh : vec3 Z) : result (ndarray float) :=
  if any3 (map3 (fun n => n <? 0) sh) then Raise ValueError
  else Ok {| shape := sh; data := fun _ => 0%float |}.

(** Row-wise combination of two arrays of shape (n, 3); an array with a
    single row is broadcast against the other one. *)
Definition np_broadcast2 {A B C : Type} (f : A -> B -> C) (xs : list A)
  (ys : list B) : result (list C) :=
  match xs, ys with
  | [x], _ => Ok (map (f x) ys)
  | _, [y] => Ok (map (fun x => f x y) xs)
  | _, _ =>
      if (length xs =? length ys)%nat
      then Ok (map (fun xy => f (fst xy) (snd xy)) (combine xs ys))
      else Raise ValueError
  end.

(** The rows of [xs] at which [positions] is true. *)
Fixpoint select {A : Type} (positions : list bool) (xs : list A) : list A :=
  match positions, xs with
  | b :: positions', x :: xs' =>
      if b then x :: select positions' xs' else select positions' xs'
  | _, _ => []
  end.

(** [xs[positions, ...]] for a boolean array [positions]. An empty
    [positions] built by [np.array([])] has dtype float64 and cannot
    index. *)
Definition bool_index {A : Type} (positions : list bool) (xs : list A)
  : result (list A) :=
  match positions with
  | [] => Raise IndexError
  | _ =>
      if (length positions =? length xs)%nat then Ok (select positions xs)
      else Raise IndexError
  end.

(** The rows of [xs] with those at which [positions] is true replaced, in
    order, by the rows of [vals]. *)
Fixpoint scatter {A : Type} (positions : list bool) (xs vals : list A)
  : list A :=
  match positions, xs with
  | b :: positions', x :: xs' =>
      if b then
        match vals with
        | v :: vals' => v :: scatter positions' xs' vals'
        | [] => x :: scatter positions' xs' []
        end
      else x :: scatter positions' xs' vals
  | _, _ => xs
  end.

(** [xs[positions, ...] = vals]; [vals] has one row for each selected
    row. *)
Definition bool_assign {A : Type} (positions : list bool) (xs vals : list A)
  : result (list A) :=
  match positions with
  | [] => Raise IndexError
  | _ =>
      if (length positions =? length xs)%nat then
        if (length vals =? length (select positions xs))%nat
        then Ok (scatter positions xs vals)
        else Raise ValueError
      else Raise IndexError
  end.

(** [l[i] = v] on a list of rows. *)
Fixpoint set_row {A : Type} (l : list A) (i : nat) (v : A) : list A :=
  match l, i with
  | [], _ => []
  | _ :: l', O => v :: l'
  | x :: l', S i' => x :: set_row l' i' v
  end.

(** The body of the loop of [create_mask_reg_jit] for item [i]. *)
Definition reg_item (start end_ : list (vec3 Z)) (i : nat)
  (masks : list (ndarray float)) : result (list (ndarray float)) :=
  s <- row start i ;;
  e <- row end_ i ;;
  m <- row masks i ;;
  Ok (set_row masks i (fill_view m (slice_view (whole m) s e) 1%float)).

Definition create_mask_reg_jit (masks : list (ndarray float))
  (start end_ : list (vec3 Z)) : result (list (ndarray float)) :=
  let num_items := length start in
  for_each (seq 0 num_items) (reg_item start end_) masks.

(** One row of [np.rint(np.clip(c -/+ sizes / 2, 0, 1) * _crop_shape)
    .astype(np.int)]. *)
Definition to_pixels (crop_shape : vec3 Z) (x : vec3 float) : vec3 Z :=
  map3 F64.rint_int
    (zip3 PrimFloat.mul (map3 (fun v => F64.clip v 0 1) x)
       (map3 F64.of_int64 crop_shape)).

Definition half (size : vec3 float) : vec3 float :=
  map3 (fun v => (v / 2)%float) size.

Definition start_pixel (crop_shape : vec3 Z) (center size : vec3 float)
  : vec3 Z :=
  to_pixels crop_shape (zip3 PrimFloat.sub center (half size)).

Definition end_pixel (crop_shape : vec3 Z) (center size : vec3 float)
  : vec3 Z :=
  to_pixels crop_shape (zip3 PrimFloat.add center (half size)).

Definition create_mask_reg (centers sizes : list (vec3 float))
  (probs : list float) (crop_shape : vec3 Z) (threshold : float)
  : result (list (ndarray float)) :=
  let n_items := length centers in
  zeros <- np_zeros crop_shape ;;
  let masks_array := repeat zeros n_items in
  start_pixels <- np_broadcast2 (start_pixel crop_shape) centers sizes ;;
  end_pixels <- np_broadcast2 (end_pixel crop_shape) centers sizes ;;
  let positions := map (fun p => (threshold <? p)%float) probs in
  sel_masks <- bool_index positions masks_array ;;
  sel_start <- bool_index positions start_pixels ;;
  sel_end <- bool_index positions end_pixels ;;
  filled <- create_mask_reg_jit sel_masks sel_start sel_end ;;
  bool_assign positions masks_array filled.

(** ** Notions used to state the properties *)

(** [start, end) is a window of an array of shape [sh]. *)
Definition window_ok (sh s e : vec3 Z) : Prop :=
  forall a, 0 <= proj s a <= proj e a /\ proj e a <= proj sh a.

(** [s <= p < e] on every axis. *)
Definition in_window (s e p : vec3 Z) : bool :=
  in_box s (zip3 Z.sub e s) p.

(** Every item has a window of the array. *)
Definition windows_ok (sh : vec3 Z) (start end_ : list (vec3 Z)) : Prop :=
  length start = length end_ /\
  forall i s e,
    nth_error start i = Some s -> nth_error end_ i = Some e ->
    window_ok sh s e.

(** The voxel [p] of the array lies outside the window of every item. *)
Definition outside_windows (start end_ : list (vec3 Z)) (p : vec3 Z) : Prop :=
  forall i s e,
    nth_error start i = Some s -> nth_error end_ i = Some e ->
    in_window s e p = false.

(** The nodule box of an item can be built and inserted: its extents are
    extents, its origin is an int64 triple, and window and box extents add
    up within int64. *)
Definition box_ok (s e origin size : vec3 Z) : Prop :=
  shape_ok size /\ int64_vec origin /\ extents_fit (zip3 Z.sub e s) size.

Definition radius_ok (radius : vec3 Z) : Prop :=
  forall a, proj radius a <> 0.

(** The parallel arrays of the box filler describe one box for each
    window. *)
Definition boxes_ok (start end_ nodules_start nodules_size : list (vec3 Z))
  : Prop :=
  length nodules_start = length start /\
  length nodules_size = length start /\
  forall i s e origin size,
    nth_error start i = Some s -> nth_error end_ i = Some e ->
    nth_error nodules_start i = Some origin ->
    nth_error nodules_size i = Some size ->
    box_ok s e origin size.

(** The parallel arrays of the ellipsoid filler describe one ellipsoid for
    each window, with non-zero radii. *)
Definition ellipsoids_ok (start centers radiuses : list (vec3 Z)) : Prop :=
  length centers = length start /\
  length radiuses = length start /\
  forall i radius, nth_error radiuses i = Some radius -> radius_ok radius.

(** The float64 value that the membership test of the ellipsoid filler
    compares with 1. *)
Definition quadratic_form (p center radius : vec3 Z) : float :=
  let term a :=
    F64.sqr (F64.of_int64 (Int64.sub (proj p a) (proj center a))
             / F64.of_int64 (proj radius a)) in
  (term ax0 + term ax1 + term ax2)%float.

(** The voxel [q] of the array is set by the ellipsoid filler for the
    nodule with window [s, e): [q - s] lies in the scan range and passes
    the float64 membership test. *)
Definition ellipse_sets (s e center radius q : vec3 Z) : bool :=
  in_window (scan_begin center radius) (scan_end s e center radius)
    (zip3 Z.sub q s)
  && (quadratic_form (zip3 Z.sub q s) center radius <? 1)%float.

Definition vec3_eqb (p q : vec3 Z) : bool := all3 (zip3 Z.eqb p q).

(** The normalized quadratic form of the specification, in exact rational
    arithmetic: ((x-cx)/rx)^2 + ((y-cy)/ry)^2 + ((z-cz)/rz)^2. *)
Definition exact_form (p center radius : vec3 Z) : Q :=
  let term a :=
    ((inject_Z (proj p a - proj center a) / inject_Z (proj radius a)) ^ 2)%Q
  in
  (term ax0 + term ax1 + term ax2)%Q.

(** The membership rule as the specification words it, for one nodule
    whose window is the whole of a zero volume of shape [sh]: the voxels
    set to 1 are exactly those whose normalized quadratic form is strictly
    less than 1. *)
Definition ellipsoid_membership_claim (sh center radius : vec3 Z) : Prop :=
  exists m' : ndarray Z,
    make_ellipse_mask_numba 1 {| shape := sh; data := fun _ => 0 |}
      [(0, 0, 0)] [sh] [center] [radius] = Ok m' /\
    forall p,
      in_bounds m' p = true ->
      (data m' p = 1 <-> (exact_form p center radius < 1)%Q).

(** The voxels that the three nested loops of the ellipsoid filler visit
    between [b] and [f], in the order of the loops. *)
Definition visited (b f : vec3 Z) : list (vec3 Z) :=
  flat_map (fun x =>
    flat_map (fun y =>
      map (fun z => (x, y, z)) (range (proj b ax2) (proj f ax2)))
      (range (proj b ax1) (proj f ax1)))
    (range (proj b ax0) (proj f ax0)).

(** The all-zero volume of one item of the regression batch. *)
Definition zeros_array (sh : vec3 Z) : ndarray float :=
  {| shape := sh; data := fun _ => 0%float |}.

(** The array [m] after [m[s0:e0, s1:e1, s2:e2] = 1.]. *)
Definition fill_slice (m : ndarray float) (s e : vec3 Z) : ndarray float :=
  fill_view m (slice_view (whole m) s e) 1%float.

(** The inputs of the regression batch path are parallel arrays with at
    least one item, and the crop shape is a shape. *)
Definition reg_inputs_ok (centers sizes : list (vec3 float))
  (probs : list float) (crop_shape : vec3 Z) : Prop :=
  length sizes = length centers /\
  length probs = length centers /\
  centers <> [] /\
  forall a, 0 <= proj crop_shape a.

(** The probabilities 0.9 and 0.1 and the threshold 0.5 of the regression
    threshold scenario, as the float64 nearest to each. *)
Definition prob_0_9 : float := 0x1.ccccccccccccdp-1%float.
Definition prob_0_1 : float := 0x1.999999999999ap-4%float.
Definition threshold_0_5 : float := 0x1p-1%float.

Definition positive3 (size : vec3 float) : Prop :=
  forall a, (0 <? proj size a)%float = true.

(** The regression threshold scenario as the specification words it: with
    probabilities [0.9, 0.1] and threshold 0.5, whatever the centers and
    the sizes, as long as the size of item 0 is positive, the mask of
    item 0 is somewhere 1 and the mask of item 1 is all zero. *)
Definition regression_threshold_claim (center0 size0 center1 size1
  : vec3 float) (crop_shape : vec3 Z) : Prop :=
  positive3 size0 ->
  exists m0 m1,
    create_mask_reg [center0; center1] [size0; size1] [prob_0_9; prob_0_1]
      crop_shape threshold_0_5 = Ok [m0; m1] /\
    (exists p, in_bounds m0 p = true /\ data m0 p = 1%float) /\
    (forall p, data m1 p = 0%float).

(** A centered item of size 2^-10 of the crop. *)
Definition tiny_center : vec3 float := (0.5, 0.5, 0.5)%float.
Definition tiny_size : vec3 float :=
  (0x1p-10, 0x1p-10, 0x1p-10)%float.

(** ** Arrays of the docstring example of [insert_cropped] *)

Definition example_where : ndarray Z :=
  {| shape := (3, 3, 3); data := fun _ => 0 |}.

Definition example_what : ndarray Z :=
  {| shape := (2, 2, 2); data := fun _ => 1 |}.

Definition example_batch : ndarray Z :=
  {| shape := (5, 5, 5); data := fun _ => 0 |}.

(** ** Values of binary64 numbers

    The proofs on the pixel coordinates compare binary64 numbers through
    their exact values. Every finite binary64 number is an integer
    multiple of 2^-1074, so its value times 2^[scale] is an integer. *)

(** The round and sticky bits after shifting [m] right by [k] bits. *)
Definition round_bit (m k : Z) : bool := 2 ^ k <=? 2 * (m mod 2 ^ k).
Definition sticky_bit (m k : Z) : bool :=
  negb ((2 * (m mod 2 ^ k) =? 0) || (2 * (m mod 2 ^ k) =? 2 ^ k)).

(** Values are counted in units of 2^-[scale]. *)
Definition scale : Z := 2200.

(** The scaled value given to infinity: above every finite number. *)
Definition inf_value : Z := 2 ^ (1024 + scale).

(** The scaled absolute value of a number. *)
Definition magnitude (x : spec_float) : Z :=
  match x with
  | S754_zero _ => 0
  | S754_finite _ m e => Z.pos m * 2 ^ (e + scale)
  | S754_infinity _ => inf_value
  | S754_nan => 0
  end.

(** The number [x] is not NaN and has the sign bit [s]. *)
Definition has_sign (s : bool) (x : spec_float) : Prop :=
  match x with
  | S754_zero s' | S754_infinity s' | S754_finite s' _ _ => s' = s
  | S754_nan => False
  end.

(** The value to which a positive number [m * 2^e] is rounded. *)
Definition rounded_value (pm : positive) (e : Z) : Z :=
  F64.round_half_even_div (Z.pos pm)
    (fexp prec emax (Z.pos (digits2_pos pm) + e) - e)
  * 2 ^ (fexp prec emax (Z.pos (digits2_pos pm) + e) + scale).

(** The scaled value of a binary64 number, signed. *)
Definition value (x : spec_float) : Z :=
  match x with
  | S754_zero _ => 0
  | S754_finite s m e =>
      if s then - (Z.pos m * 2 ^ (e + scale)) else Z.pos m * 2 ^ (e + scale)
  | S754_infinity s => if s then - inf_value else inf_value
  | S754_nan => 0
  end.

(** The magnitude to which [binary_round] rounds [pm * 2^e]. *)
Definition round_mag (pm : positive) (e : Z) : Z :=
  magnitude (binary_round prec emax false pm e).

(** The scaled value of a primitive float. *)
Definition fvalue (x : float) : Z := value (Prim2SF x).

Definition not_nan (x : float) : Prop := Prim2SF x <> S754_nan.

(** A finite float is a zero or a finite number. *)
Definition finite_sf (x : spec_float) : Prop :=
  match x with
  | S754_zero _ | S754_finite _ _ _ => True
  | _ => False
  end.

(** A non-negative non-NaN float is a zero, a positive finite number or
    plus infinity. *)
Definition nonneg_sf (x : spec_float) : Prop :=
  match x with
  | S754_zero _ => True
  | S754_finite s _ _ | S754_infinity s => s = false
  | S754_nan => False
  end.

(** A zero or a positive finite number. *)
Definition nonneg_finite (x : spec_float) : Prop :=
  match x with
  | S754_zero _ => True
  | S754_finite s _ _ => s = false
  | _ => False
  end.

(** The scaled value of 2^60, a bound on the crop extents for which the
    pixel coordinates are known to fit int64. *)
Definition pixel_bound : Z := 2 ^ 60 * 2 ^ scale.

(** The integer nearest to [m * 2^e], ties to even. *)
Definition nearest (m : positive) (e : Z) : Z :=
  if 0 <=? e then Z.pos m * 2 ^ e
  else F64.round_half_even_div (Z.pos m) (- e).

(** ** Notions used for the further properties *)

(** Every component of a triple of floats is finite. *)
Definition finite3 (v : vec3 float) : Prop :=
  forall a, is_finite (proj v a) = true.

(** Every component is at least zero. *)
Definition nonneg3 (v : vec3 float) : Prop :=
  forall a, (0 <=? proj v a)%float = true.

(** The voxel [q] of the array is set by the box filler for the nodule
    with window [s, e), origin [origin] and extents [size]: [q] lies in
    the window and [q - s] in the box. *)
Definition rect_sets (s e origin size q : vec3 Z) : bool :=
  in_window s e q && in_box origin size (zip3 Z.sub q s).

(** Some item of the box filler sets the voxel [q]. *)
Definition rect_covers (start end_ nodules_start nodules_size
  : list (vec3 Z)) (q : vec3 Z) : bool :=
  existsb (fun i =>
    match nth_error start i, nth_error end_ i,
          nth_error nodules_start i, nth_error nodules_size i with
    | Some s, Some e, Some origin, Some size => rect_sets s e origin size q
    | _, _, _, _ => false
    end) (seq 0 (length nodules_start)).

(** Some item of the ellipsoid filler sets the voxel [q]. *)
Definition ellipse_covers (start end_ centers radiuses : list (vec3 Z))
  (q : vec3 Z) : bool :=
  existsb (fun i =>
    match nth_error start i, nth_error end_ i,
          nth_error centers i, nth_error radiuses i with
    | Some s, Some e, Some center, Some radius =>
        ellipse_sets s e center radius q
    | _, _, _, _ => false
    end) (seq 0 (length centers)).

(** One nodule of a filler: the window of its patient, that is start and
    end, then origin and extents of its box, or center and radii of its
    ellipsoid. *)
Definition nodule : Type := (vec3 Z * vec3 Z * vec3 Z * vec3 Z)%type.

Definition win_start (n : nodule) : vec3 Z := fst (fst (fst n)).
Definition win_end (n : nodule) : vec3 Z := snd (fst (fst n)).
Definition nod_place (n : nodule) : vec3 Z := snd (fst n).
Definition nod_extent (n : nodule) : vec3 Z := snd n.

(** The box filler and the ellipsoid filler on a list of nodules, passed
    as the four parallel arrays of the source. *)
Definition fill_boxes {V : Type} (one : V) (batch_mask : ndarray V)
  (nodules : list nodule) : result (ndarray V) :=
  make_rect_mask_numba one batch_mask (map win_start nodules)
    (map win_end nodules) (map nod_place nodules) (map nod_extent nodules).

Definition fill_ellipsoids {V : Type} (one : V) (batch_mask : ndarray V)
  (nodules : list nodule) : result (ndarray V) :=
  make_ellipse_mask_numba one batch_mask (map win_start nodules)
    (map win_end nodules) (map nod_place nodules) (map nod_extent nodules).

(** A nodule box that can be inserted in a batch of shape [sh], and an
    ellipsoid that can be scanned. *)
Definition box_nodule_ok (sh : vec3 Z) (n : nodule) : Prop :=
  window_ok sh (win_start n) (win_end n) /\
  box_ok (win_start n) (win_end n) (nod_place n) (nod_extent n).

Definition ellipsoid_nodule_ok (sh : vec3 Z) (n : nodule) : Prop :=
  window_ok sh (win_start n) (win_end n) /\ radius_ok (nod_extent n).

(** A float that is neither a zero nor NaN. *)
Definition nonzero_sf (x : spec_float) : Prop :=
  match x with
  | S754_finite _ _ _ | S754_infinity _ => True
  | _ => False
  end.

(** * Properties *)

(** ** Triples *)

Lemma proj_map3 {A B : Type} (f : A -> B) (p : vec3 A) (a : axis) :
  proj (map3 f p) a = f (proj p a).
Proof. destruct p as [[x y] z], a; reflexivity. Qed.

Lemma proj_zip3 {A B C : Type} (f : A -> B -> C) (p : vec3 A) (q : vec3 B)
  (a : axis) :
  proj (zip3 f p q) a = f (proj p a) (proj q a).
Proof. destruct p as [[x y] z], q as [[x' y'] z'], a; reflexivity. Qed.

Lemma vec3_ext {A : Type} (p q : vec3 A) :
  (forall a, proj p a = proj q a) -> p = q.
Proof.
  destruct p as [[x y] z], q as [[x' y'] z']; intros H.
  pose proof (H ax0) as H0; pose proof (H ax1) as H1; pose proof (H ax2) as H2.
  cbn in H0, H1, H2; congruence.
Qed.

Lemma any3_false_iff (p : vec3 bool) :
  any3 p = false <-> forall a, proj p a = false.
Proof.
  destruct p as [[x y] z]; cbn; split.
  - intros H a. destruct x, y, z, a; cbn in *; congruence.
  - intros H. rewrite (H ax0), (H ax1), (H ax2). reflexivity.
Qed.

Lemma any3_true_iff (p : vec3 bool) :
  any3 p = true <-> exists a, proj p a = true.
Proof.
  destruct p as [[x y] z]; cbn; split.
  - destruct x; [exists ax0; reflexivity|].
    destruct y; [exists ax1; reflexivity|].
    destruct z; [exists ax2; reflexivity|discriminate].
  - intros [a H]. destruct a; cbn in H; subst;
      rewrite ?orb_true_r; reflexivity.
Qed.

Lemma all3_true_iff (p : vec3 bool) :
  all3 p = true <-> forall a, proj p a = true.
Proof.
  destruct p as [[x y] z]; cbn; split.
  - intros H a. destruct x, y, z, a; cbn in *; congruence.
  - intros H. rewrite (H ax0), (H ax1), (H ax2). reflexivity.
Qed.

Lemma all3_false_iff (p : vec3 bool) :
  all3 p = false <-> exists a, proj p a = false.
Proof.
  destruct p as [[x y] z]; cbn; split.
  - destruct x; [|exists ax0; reflexivity].
    destruct y; [|exists ax1; reflexivity].
    destruct z; [discriminate|exists ax2; reflexivity].
  - intros [a H]. destruct a; cbn in H; subst;
      rewrite ?andb_false_r; reflexivity.
Qed.

(** ** Machine integers *)

Lemma wrap_in_range (z : Z) : Int64.in_range (Int64.wrap z).
Proof.
  unfold Int64.in_range, Int64.wrap, Int64.min_int, Int64.max_int.
  pose proof (Z.mod_pos_bound (z + 2 ^ 63) (2 ^ 64) ltac:(lia)). lia.
Qed.

Lemma wrap_small (z : Z) : Int64.in_range z -> Int64.wrap z = z.
Proof.
  unfold Int64.in_range, Int64.wrap, Int64.min_int, Int64.max_int.
  intros H. rewrite Z.mod_small; lia.
Qed.

Lemma wrap_above (z : Z) :
  Int64.max_int < z <= 2 * Int64.max_int + 1 ->
  Int64.wrap z = z - 2 ^ 64.
Proof.
  unfold Int64.wrap, Int64.max_int. intros H.
  replace (z + 2 ^ 63) with ((z - 2 ^ 63) + 1 * 2 ^ 64) by lia.
  rewrite Z.mod_add by lia. rewrite Z.mod_small; lia.
Qed.

Lemma wrap_below (z : Z) :
  2 * Int64.min_int <= z < Int64.min_int ->
  Int64.wrap z = z + 2 ^ 64.
Proof.
  unfold Int64.wrap, Int64.min_int. intros H.
  replace (z + 2 ^ 63) with ((z + 2 ^ 63 + 2 ^ 64) + (-1) * 2 ^ 64) by lia.
  rewrite Z.mod_add by lia. rewrite Z.mod_small; lia.
Qed.

(** The sum of an extent and an int64 offset, as the machine computes it,
    is non-positive exactly when the true sum is non-positive or does not
    fit. *)
Lemma add_extent_nonpos (S o : Z) :
  0 <= S <= Int64.max_int -> Int64.in_range o ->
  (Int64.add S o <=? 0) = true <-> (S + o <= 0 \/ Int64.max_int < S + o).
Proof.
  unfold Int64.in_range, Int64.add. intros HS Ho.
  rewrite Z.leb_le.
  destruct (Z_le_gt_dec (S + o) Int64.max_int) as [Hle|Hgt].
  - rewrite wrap_small by (unfold Int64.in_range; lia). lia.
  - rewrite wrap_above by lia.
    unfold Int64.max_int, Int64.min_int in *. lia.
Qed.

(** ** Slices *)

Lemma slice_bound_id (n i : Z) : 0 <= i <= n -> slice_bound n i = i.
Proof. unfold slice_bound. intros H. destruct (Z.ltb_spec i 0); lia. Qed.

Lemma slice_bound_range (n i : Z) : 0 <= n -> 0 <= slice_bound n i <= n.
Proof. unfold slice_bound. intros H. destruct (Z.ltb_spec i 0); lia. Qed.

Lemma slice_len_id (n s e : Z) :
  0 <= s <= e -> e <= n -> slice_len n s e = e - s.
Proof.
  intros H1 H2. unfold slice_len. rewrite !slice_bound_id by lia. lia.
Qed.

Lemma slice_len_same (n s : Z) : slice_len n s s = 0.
Proof. unfold slice_len. lia. Qed.

Section ArrayFacts.

Context {V : Type}.

Lemma in_box_iff (lo sh p : vec3 Z) :
  in_box lo sh p = true <->
  forall a, proj lo a <= proj p a < proj lo a + proj sh a.
Proof.
  unfold in_box. rewrite all3_true_iff. split; intros H a.
  - specialize (H a). rewrite !proj_zip3 in H.
    apply andb_true_iff in H. destruct H as [H1 H2].
    apply Z.leb_le in H1. apply Z.ltb_lt in H2. lia.
  - specialize (H a). rewrite !proj_zip3.
    apply andb_true_iff. split; [apply Z.leb_le|apply Z.ltb_lt]; lia.
Qed.

Lemma in_box_false_iff (lo sh p : vec3 Z) :
  in_box lo sh p = false <->
  exists a, ~ (proj lo a <= proj p a < proj lo a + proj sh a).
Proof.
  unfold in_box. rewrite all3_false_iff. split; intros [a H]; exists a.
  - rewrite !proj_zip3 in H. apply andb_false_iff in H.
    destruct H as [H|H]; [apply Z.leb_gt in H|apply Z.ltb_ge in H]; lia.
  - rewrite !proj_zip3. apply andb_false_iff.
    destruct (Z_le_gt_dec (proj lo a) (proj p a)).
    + right. apply Z.ltb_ge. lia.
    + left. apply Z.leb_gt. lia.
Qed.

(** A slice of a view lies inside the view. *)
Lemma slice_view_inside (w : view) (st en : vec3 Z) (a : axis) :
  0 <= proj (v_shape w) a ->
  proj (v_off w) a <= proj (v_off (slice_view w st en)) a /\
  0 <= proj (v_shape (slice_view w st en)) a /\
  proj (v_off (slice_view w st en)) a
    + proj (v_shape (slice_view w st en)) a
  <= proj (v_off w) a + proj (v_shape w) a.
Proof.
  intros Hn. cbn. rewrite !proj_zip3. cbn.
  unfold slice_start, slice_len.
  pose proof (slice_bound_range (proj (v_shape w) a) (proj st a) Hn).
  pose proof (slice_bound_range (proj (v_shape w) a) (proj en a) Hn).
  lia.
Qed.

Lemma in_slice_view_in_view (w : view) (st en p : vec3 Z) :
  (forall a, 0 <= proj (v_shape w) a) ->
  in_view (slice_view w st en) p = true -> in_view w p = true.
Proof.
  unfold in_view. rewrite !in_box_iff. intros Hn H a.
  specialize (H a). pose proof (slice_view_inside w st en a (Hn a)). lia.
Qed.

Lemma in_view_in_bounds (m : @ndarray V) (w : view) (p : vec3 Z) :
  view_ok m w -> in_view w p = true -> in_bounds m p = true.
Proof.
  unfold in_view, in_bounds. rewrite !in_box_iff. intros Hw H a.
  specialize (H a). specialize (Hw a).
  replace (proj (0, 0, 0) a) with 0 by (destruct a; reflexivity). lia.
Qed.

End ArrayFacts.

(** ** [insert_cropped] *)

(** One axis of the crop: once the emptiness test has failed, no int64
    operation of the crop boundaries wraps. *)
Lemma crop_axis (D S o : Z) :
  0 <= D -> 0 <= S -> D + S <= Int64.max_int -> Int64.in_range o ->
  (Int64.add S o <=? 0) = false -> (o >=? D) = false ->
  Int64.neg (Z.min 0 o) = Z.max 0 (- o) /\
  Int64.sub D o = D - o /\
  Int64.add o S = o + S /\
  0 < S + o /\ o < D.
Proof.
  intros HD HS Hfit Ho Hg1 Hg2.
  assert (H1 : ~ (S + o <= 0 \/ Int64.max_int < S + o)).
  { intros H. apply add_extent_nonpos in H; [congruence|lia|exact Ho]. }
  rewrite Z.geb_leb in Hg2. apply Z.leb_gt in Hg2.
  unfold Int64.in_range, Int64.min_int, Int64.max_int in *.
  unfold Int64.neg, Int64.sub, Int64.add.
  rewrite !wrap_small
    by (unfold Int64.in_range, Int64.min_int, Int64.max_int; lia).
  lia.
Qed.

Lemma nothing_to_insert_false_iff (D S o : vec3 Z) :
  nothing_to_insert D S o = false <->
  forall a, (Int64.add (proj S a) (proj o a) <=? 0) = false /\
            (proj o a >=? proj D a) = false.
Proof.
  unfold nothing_to_insert. rewrite orb_false_iff, !any3_false_iff.
  unfold np_le_scalar, np_add, np_ge. split.
  - intros [H1 H2] a. specialize (H1 a). specialize (H2 a).
    rewrite proj_map3, proj_zip3 in H1. rewrite proj_zip3 in H2. auto.
  - intros H. split; intros a; destruct (H a) as [H1 H2].
    + rewrite proj_map3, proj_zip3. exact H1.
    + rewrite proj_zip3. exact H2.
Qed.

Lemma nothing_to_insert_true_iff (D S o : vec3 Z) :
  nothing_to_insert D S o = true <->
  exists a, (Int64.add (proj S a) (proj o a) <=? 0) = true \/
            (proj o a >=? proj D a) = true.
Proof.
  unfold nothing_to_insert. rewrite orb_true_iff, !any3_true_iff.
  unfold np_le_scalar, np_add, np_ge. split.
  - intros [[a H]|[a H]]; exists a.
    + rewrite proj_map3, proj_zip3 in H. auto.
    + rewrite proj_zip3 in H. auto.
  - intros [a [H|H]]; [left|right]; exists a.
    + rewrite proj_map3, proj_zip3. exact H.
    + rewrite proj_zip3. exact H.
Qed.

Lemma proj_st_what (o : vec3 Z) (a : axis) :
  proj (st_what o) a = Int64.neg (Z.min 0 (proj o a)).
Proof.
  unfold st_what, np_neg, np_minimum, np_zeros_like.
  rewrite proj_map3, proj_zip3, proj_map3. reflexivity.
Qed.

Lemma proj_end_what (D S o : vec3 Z) (a : axis) :
  proj (end_what D S o) a
  = Z.min (Int64.sub (proj D a) (proj o a)) (proj S a).
Proof.
  unfold end_what, np_minimum, np_sub. rewrite !proj_zip3. reflexivity.
Qed.

Lemma proj_st_where (o : vec3 Z) (a : axis) :
  proj (st_where o) a = Z.max (proj o a) 0.
Proof.
  unfold st_where, np_maximum, np_zeros_like.
  rewrite proj_zip3, proj_map3. reflexivity.
Qed.

Lemma proj_end_where (D S o : vec3 Z) (a : axis) :
  proj (end_where D S o) a
  = Z.min (Int64.add (proj o a) (proj S a)) (proj D a).
Proof.
  unfold end_where, np_minimum, np_add. rewrite !proj_zip3. reflexivity.
Qed.

Section InsertCropped.

Context {V : Type}.

Variables (base : ndarray V) (where_ : view) (what : ndarray V).
Variable origin : vec3 Z.

Hypothesis where_ok : view_ok base where_.
Hypothesis what_ok : shape_ok (shape what).
Hypothesis origin_ok : int64_vec origin.
Hypothesis fit : extents_fit (v_shape where_) (shape what).

Let D := v_shape where_.
Let S := shape what.

(** The crop boundaries on one axis, in mathematical integers. *)
Lemma crop_bounds (a : axis) :
  nothing_to_insert D S origin = false ->
  proj (st_what origin) a = Z.max 0 (- proj origin a) /\
  proj (end_what D S origin) a
    = Z.min (proj D a - proj origin a) (proj S a) /\
  proj (st_where origin) a = Z.max (proj origin a) 0 /\
  proj (end_where D S origin) a
    = Z.min (proj origin a + proj S a) (proj D a) /\
  0 < proj S a + proj origin a /\ proj origin a < proj D a.
Proof.
  intros Hg. rewrite nothing_to_insert_false_iff in Hg.
  destruct (Hg a) as [Hg1 Hg2].
  destruct (where_ok a) as (_ & HD & _).
  pose proof (what_ok a) as HS. pose proof (fit a) as Hf.
  destruct (crop_axis (proj D a) (proj S a) (proj origin a))
    as (E1 & E2 & E3 & E4 & E5);
    try assumption; try (apply origin_ok); try (subst S; lia).
  rewrite proj_st_what, proj_end_what, proj_st_where, proj_end_where.
  rewrite E1, E2, E3. repeat split; lia.
Qed.

(** Both regions lie inside their arrays and have the same extent. *)
Lemma crop_regions (a : axis) :
  nothing_to_insert D S origin = false ->
  (0 <= proj (st_what origin) a <= proj (end_what D S origin) a /\
   proj (end_what D S origin) a <= proj S a) /\
  (0 <= proj (st_where origin) a <= proj (end_where D S origin) a /\
   proj (end_where D S origin) a <= proj D a) /\
  proj (end_what D S origin) a - proj (st_what origin) a
  = proj (end_where D S origin) a - proj (st_where origin) a.
Proof.
  intros Hg. destruct (crop_bounds a Hg) as (E1 & E2 & E3 & E4 & H1 & H2).
  destruct (where_ok a) as (_ & HD & _). pose proof (what_ok a) as HS.
  rewrite E1, E2, E3, E4. subst D S. lia.
Qed.

Lemma read_region_eq (a : axis) :
  nothing_to_insert D S origin = false ->
  proj (v_off (read_region where_ what origin)) a = proj (st_what origin) a /\
  proj (v_shape (read_region where_ what origin)) a
  = proj (end_what D S origin) a - proj (st_what origin) a.
Proof.
  intros Hg. destruct (crop_regions a Hg) as ((H1 & H2) & _ & _).
  unfold read_region, slice_view, whole. cbn [v_off v_shape].
  rewrite !proj_zip3. cbn [fst snd].
  replace (proj (0, 0, 0) a) with 0 by (destruct a; reflexivity).
  unfold slice_start. fold S D.
  rewrite slice_bound_id, slice_len_id by lia. lia.
Qed.

Lemma write_region_eq (a : axis) :
  nothing_to_insert D S origin = false ->
  proj (v_off (write_region where_ what origin)) a
  = proj (v_off where_) a + proj (st_where origin) a /\
  proj (v_shape (write_region where_ what origin)) a
  = proj (end_where D S origin) a - proj (st_where origin) a.
Proof.
  intros Hg. destruct (crop_regions a Hg) as (_ & (H1 & H2) & _).
  unfold write_region, slice_view. cbn [v_off v_shape].
  rewrite !proj_zip3. cbn [fst snd].
  unfold slice_start. fold S D.
  rewrite slice_bound_id, slice_len_id by lia. lia.
Qed.

Lemma regions_broadcastable :
  nothing_to_insert D S origin = false ->
  broadcastable (v_shape (read_region where_ what origin))
    (v_shape (write_region where_ what origin)) = true.
Proof.
  intros Hg. unfold broadcastable. apply all3_true_iff. intros a.
  rewrite proj_zip3. apply orb_true_iff. left. apply Z.eqb_eq.
  destruct (read_region_eq a Hg) as [_ ->].
  destruct (write_region_eq a Hg) as [_ ->].
  apply (crop_regions a Hg).
Qed.

End InsertCropped.

(** Side conditions on concrete triples, axis by axis. *)
Ltac by_axes :=
  let a := fresh "a" in
  intros a; destruct a;
  unfold Int64.in_range, Int64.max_int, Int64.min_int; cbn; lia.

Lemma whole_ok {V : Type} (m : ndarray V) :
  (forall a, 0 <= proj (shape m) a) -> view_ok m (whole m).
Proof.
  intros H a. unfold whole; cbn [v_off v_shape].
  replace (proj (0, 0, 0) a) with 0 by (destruct a; reflexivity).
  specialize (H a). lia.
Qed.

(** C1: for every destination (a view [where_] of [base]), every source
    [what] and every int64 [origin], [insert_cropped] returns without an
    exception, leaves the shape and every voxel outside the destination as
    they were, and, whenever it copies, reads a region that lies inside the
    source, writes a region that lies inside the destination, and the two
    regions have the same extent on every axis. *)
Theorem insert_cropped_in_bounds {V : Type} (base : ndarray V)
  (where_ : view) (what : ndarray V) (origin : vec3 Z) :
  view_ok base where_ ->
  shape_ok (shape what) ->
  int64_vec origin ->
  extents_fit (v_shape where_) (shape what) ->
  (exists base',
     insert_cropped base where_ what origin = Ok base' /\
     shape base' = shape base /\
     forall p, in_view where_ p = false -> data base' p = data base p) /\
  (nothing_to_insert (v_shape where_) (shape what) origin = false ->
   forall a,
     (0 <= proj (st_what origin) a
        <= proj (end_what (v_shape where_) (shape what) origin) a /\
      proj (end_what (v_shape where_) (shape what) origin) a
        <= proj (shape what) a) /\
     (0 <= proj (st_where origin) a
        <= proj (end_where (v_shape where_) (shape what) origin) a /\
      proj (end_where (v_shape where_) (shape what) origin) a
        <= proj (v_shape where_) a) /\
     proj (v_off (read_region where_ what origin)) a
       = proj (st_what origin) a /\
     proj (v_off (write_region where_ what origin)) a
       = proj (v_off where_) a + proj (st_where origin) a /\
     proj (v_shape (read_region where_ what origin)) a
       = proj (v_shape (write_region where_ what origin)) a).
Proof.
  intros Hw Hs Ho Hf. split.
  - unfold insert_cropped.
    destruct (nothing_to_insert (v_shape where_) (shape what) origin) eqn:Hg.
    + exists base. auto.
    + unfold assign_view.
      rewrite (regions_broadcastable base where_ what origin Hw Hs Ho Hf Hg).
      eexists. split; [reflexivity|]. split; [reflexivity|].
      intros p Hp. cbn [data].
      destruct (in_view (write_region where_ what origin) p) eqn:Hin;
        [|reflexivity].
      apply in_slice_view_in_view in Hin; [congruence|].
      intros a. apply (Hw a).
  - intros Hg a.
    pose proof (crop_regions base where_ what origin Hw Hs Ho Hf a Hg)
      as (H1 & H2 & H3).
    pose proof (read_region_eq base where_ what origin Hw Hs Ho Hf a Hg)
      as (H4 & H5).
    pose proof (write_region_eq base where_ what origin Hw Hs Ho Hf a Hg)
      as (H6 & H7).
    repeat split; try tauto; try lia.
Qed.

Lemma insert_cropped_in_bounds_witness :
  (exists base',
     insert_cropped example_where (whole example_where) example_what
       (-1, 2, 1) = Ok base' /\
     shape base' = shape example_where /\
     forall p, in_view (whole example_where) p = false ->
               data base' p = data example_where p) /\
  (forall a,
     proj (v_shape (read_region (whole example_where) example_what
                      (-1, 2, 1))) a
     = proj (v_shape (write_region (whole example_where) example_what
                        (-1, 2, 1))) a).
Proof.
  destruct (insert_cropped_in_bounds example_where (whole example_where)
              example_what (-1, 2, 1)) as [H1 H2].
  - by_axes.
  - by_axes.
  - by_axes.
  - by_axes.
  - split; [exact H1|]. intros a. apply H2. reflexivity.
Defined.

(** C2: when the emptiness test fails, the crop boundaries are, on every
    axis, [max(0, -origin)] and [min(where.shape - origin, what.shape)] for
    the source and [max(origin, 0)] and [min(origin + what.shape,
    where.shape)] for the destination, the call returns, and every voxel
    [q] of the destination between the write boundaries holds afterwards
    the voxel of the source that corresponds to it, which is the voxel
    [q - origin]. *)
Theorem insert_cropped_copies {V : Type} (base : ndarray V)
  (where_ : view) (what : ndarray V) (origin : vec3 Z) :
  view_ok base where_ ->
  shape_ok (shape what) ->
  int64_vec origin ->
  extents_fit (v_shape where_) (shape what) ->
  nothing_to_insert (v_shape where_) (shape what) origin = false ->
  (forall a,
     proj (st_what origin) a = Z.max 0 (- proj origin a) /\
     proj (end_what (v_shape where_) (shape what) origin) a
       = Z.min (proj (v_shape where_) a - proj origin a)
           (proj (shape what) a) /\
     proj (st_where origin) a = Z.max (proj origin a) 0 /\
     proj (end_where (v_shape where_) (shape what) origin) a
       = Z.min (proj origin a + proj (shape what) a)
           (proj (v_shape where_) a)) /\
  exists base',
    insert_cropped base where_ what origin = Ok base' /\
    forall q,
      (forall a,
         proj (st_where origin) a <= proj q a
         < proj (end_where (v_shape where_) (shape what) origin) a) ->
      data base' (zip3 Z.add (v_off where_) q)
      = data what
          (zip3 Z.add (st_what origin) (zip3 Z.sub q (st_where origin))) /\
      zip3 Z.add (st_what origin) (zip3 Z.sub q (st_where origin))
      = zip3 Z.sub q origin /\
      in_bounds what (zip3 Z.sub q origin) = true /\
      in_view where_ (zip3 Z.add (v_off where_) q) = true.
Proof.
  intros Hw Hs Ho Hf Hg. split.
  - intros a.
    pose proof (crop_bounds base where_ what origin Hw Hs Ho Hf a Hg).
    tauto.
  - unfold insert_cropped. rewrite Hg. unfold assign_view.
    rewrite (regions_broadcastable base where_ what origin Hw Hs Ho Hf Hg).
    eexists. split; [reflexivity|]. intros q Hq. cbn [data].
    assert (Hin : in_view (write_region where_ what origin)
                    (zip3 Z.add (v_off where_) q) = true).
    { unfold in_view. apply in_box_iff. intros a.
      destruct (write_region_eq base where_ what origin Hw Hs Ho Hf a Hg)
        as [-> ->].
      rewrite proj_zip3. specialize (Hq a). lia. }
    rewrite Hin.
    assert (Hsame : zip3 Z.add (st_what origin)
                      (zip3 Z.sub q (st_where origin))
                    = zip3 Z.sub q origin).
    { apply vec3_ext. intros a. rewrite !proj_zip3.
      destruct (crop_bounds base where_ what origin Hw Hs Ho Hf a Hg)
        as (-> & _ & -> & _). lia. }
    split; [|split; [exact Hsame|split]].
    + f_equal. apply vec3_ext. intros a. rewrite !proj_zip3.
      unfold bcast_index. rewrite !proj_zip3.
      destruct (read_region_eq base where_ what origin Hw Hs Ho Hf a Hg)
        as [-> E].
      destruct (write_region_eq base where_ what origin Hw Hs Ho Hf a Hg)
        as [-> _].
      destruct (crop_regions base where_ what origin Hw Hs Ho Hf a Hg)
        as (_ & _ & E').
      specialize (Hq a).
      destruct (Z.eqb_spec
                  (proj (v_shape (read_region where_ what origin)) a) 1);
        lia.
    + unfold in_bounds. apply in_box_iff. intros a.
      replace (proj (0, 0, 0) a) with 0 by (destruct a; reflexivity).
      rewrite proj_zip3.
      destruct (crop_bounds base where_ what origin Hw Hs Ho Hf a Hg)
        as (_ & E2 & E3 & E4 & _).
      specialize (Hq a). rewrite E3, E4 in Hq. lia.
    + apply (in_slice_view_in_view where_ (st_where origin)
               (end_where (v_shape where_) (shape what) origin)).
      * intros a. apply (Hw a).
      * exact Hin.
Qed.

Lemma insert_cropped_copies_witness :
  exists base',
    insert_cropped example_where (whole example_where) example_what
      (2, 2, 2) = Ok base' /\
    data base' (2, 2, 2) = 1.
Proof.
  destruct (insert_cropped_copies example_where (whole example_where)
              example_what (2, 2, 2)) as [_ [base' [E H]]].
  - by_axes.
  - by_axes.
  - by_axes.
  - by_axes.
  - reflexivity.
  - exists base'. split; [exact E|].
    destruct (H (2, 2, 2)) as [E' _].
    + by_axes.
    + exact E'.
Defined.

(** ** Loops *)

Lemma for_each_app {A S : Type} (xs ys : list A) (body : A -> S -> result S)
  (s : S) :
  for_each (xs ++ ys) body s
  = s' <- for_each xs body s ;; for_each ys body s'.
Proof.
  revert s. induction xs as [|x xs IH]; intros s; cbn; [reflexivity|].
  destruct (body x s) as [s1|err]; cbn; [apply IH|reflexivity].
Qed.

Lemma for_each_map {A B S : Type} (h : A -> B) (xs : list A)
  (body : B -> S -> result S) (s : S) :
  for_each (map h xs) body s = for_each xs (fun x => body (h x)) s.
Proof.
  revert s. induction xs as [|x xs IH]; intros s; cbn; [reflexivity|].
  destruct (body (h x) s); cbn; [apply IH|reflexivity].
Qed.

Lemma for_each_flat_map {A B S : Type} (g : A -> list B) (xs : list A)
  (body : B -> S -> result S) (s : S) :
  for_each (flat_map g xs) body s
  = for_each xs (fun x => for_each (g x) body) s.
Proof.
  revert s. induction xs as [|x xs IH]; intros s; cbn; [reflexivity|].
  rewrite for_each_app.
  destruct (for_each (g x) body s); cbn; [apply IH|reflexivity].
Qed.

(** A loop whose body keeps an invariant and never raises returns a state
    that satisfies the invariant. *)
Lemma for_each_inv {A S : Type} (I : S -> Prop) (xs : list A)
  (body : A -> S -> result S) (s : S) :
  I s ->
  (forall x t, In x xs -> I t -> exists t', body x t = Ok t' /\ I t') ->
  exists s', for_each xs body s = Ok s' /\ I s'.
Proof.
  revert s. induction xs as [|x xs IH]; intros s Hs Hbody; cbn.
  - exists s. auto.
  - destruct (Hbody x s (or_introl eq_refl) Hs) as (t & -> & Ht). cbn.
    apply IH; [exact Ht|]. intros y u Hy. apply Hbody. right. exact Hy.
Qed.

Lemma for_each_skip {A S : Type} (xs : list A) (body : A -> S -> result S)
  (s : S) :
  (forall x, In x xs -> body x s = Ok s) -> for_each xs body s = Ok s.
Proof.
  induction xs as [|x xs IH]; intros H; cbn; [reflexivity|].
  rewrite (H x (or_introl eq_refl)). cbn. apply IH.
  intros y Hy. apply H. right. exact Hy.
Qed.

Lemma for_each_ext {A S : Type} (xs : list A) (f g : A -> S -> result S)
  (s : S) :
  (forall x t, f x t = g x t) -> for_each xs f s = for_each xs g s.
Proof.
  intros H. revert s. induction xs as [|x xs IH]; intros s; cbn;
    [reflexivity|].
  rewrite H. destruct (g x s); cbn; [apply IH|reflexivity].
Qed.

Lemma in_range_iff (b e x : Z) : In x (range b e) <-> b <= x < e.
Proof.
  unfold range. rewrite in_map_iff. split.
  - intros (k & <- & Hk). apply in_seq in Hk. lia.
  - intros H. exists (Z.to_nat (x - b)). split; [lia|].
    apply in_seq. lia.
Qed.

Lemma range_empty (b e : Z) : e <= b -> range b e = [].
Proof.
  intros H. unfold range. replace (Z.to_nat (e - b)) with O by lia.
  reflexivity.
Qed.

Lemma in_visited_iff (b f p : vec3 Z) :
  In p (visited b f) <-> forall a, proj b a <= proj p a < proj f a.
Proof.
  unfold visited. rewrite in_flat_map. split.
  - intros (x & Hx & H). apply in_flat_map in H. destruct H as (y & Hy & H).
    apply in_map_iff in H. destruct H as (z & <- & Hz).
    apply in_range_iff in Hx, Hy, Hz. intros a; destruct a; cbn; lia.
  - intros H. destruct p as [[x y] z].
    pose proof (H ax0) as H0. pose proof (H ax1) as H1.
    pose proof (H ax2) as H2. cbn in H0, H1, H2.
    exists x. split; [apply in_range_iff; lia|].
    apply in_flat_map. exists y. split; [apply in_range_iff; lia|].
    apply in_map_iff. exists z. split; [reflexivity|].
    apply in_range_iff; lia.
Qed.

Lemma row_some {A : Type} (l : list A) (i : nat) (x : A) :
  nth_error l i = Some x -> row l i = Ok x.
Proof. unfold row. intros ->. reflexivity. Qed.

Lemma row_lt {A : Type} (l : list A) (i : nat) :
  (i < length l)%nat -> exists x, nth_error l i = Some x /\ row l i = Ok x.
Proof.
  intros H. destruct (nth_error l i) as [x|] eqn:E.
  - exists x. split; [reflexivity|]. apply row_some. exact E.
  - apply nth_error_None in E. lia.
Qed.

(** ** Frames of the primitive writes *)

Lemma window_view {V : Type} (m : ndarray V) (s e : vec3 Z) :
  window_ok (shape m) s e ->
  slice_view (whole m) s e = {| v_off := s; v_shape := zip3 Z.sub e s |}.
Proof.
  intros Hw. unfold slice_view, whole. cbn [v_off v_shape].
  f_equal; apply vec3_ext; intros a; rewrite !proj_zip3; cbn [fst snd];
    replace (proj (0, 0, 0) a) with 0 by (destruct a; reflexivity);
    destruct (Hw a) as [H1 H2].
  - unfold slice_start. rewrite slice_bound_id; lia.
  - rewrite slice_len_id; lia.
Qed.

Lemma window_view_ok {V : Type} (m : ndarray V) (s e : vec3 Z) :
  window_ok (shape m) s e ->
  view_ok m {| v_off := s; v_shape := zip3 Z.sub e s |}.
Proof.
  intros Hw a. cbn [v_off v_shape]. rewrite proj_zip3.
  destruct (Hw a). lia.
Qed.

Lemma insert_cropped_frame {V : Type} (base : ndarray V) (where_ : view)
  (what : ndarray V) (origin : vec3 Z) :
  view_ok base where_ ->
  shape_ok (shape what) ->
  int64_vec origin ->
  extents_fit (v_shape where_) (shape what) ->
  exists base',
    insert_cropped base where_ what origin = Ok base' /\
    shape base' = shape base /\
    forall p, in_view where_ p = false -> data base' p = data base p.
Proof.
  intros Hw Hs Ho Hf. unfold insert_cropped.
  destruct (nothing_to_insert (v_shape where_) (shape what) origin) eqn:Hg.
  - exists base. auto.
  - unfold assign_view.
    rewrite (regions_broadcastable base where_ what origin Hw Hs Ho Hf Hg).
    eexists. split; [reflexivity|]. split; [reflexivity|].
    intros p Hp. cbn [data].
    destruct (in_view (write_region where_ what origin) p) eqn:Hin;
      [|reflexivity].
    apply in_slice_view_in_view in Hin; [congruence|].
    intros a. apply (Hw a).
Qed.

Lemma insert_cropped_noop {V : Type} (base : ndarray V) (where_ : view)
  (what : ndarray V) (origin : vec3 Z) :
  shape_ok (shape what) ->
  int64_vec origin ->
  (exists a, proj (shape what) a + proj origin a <= 0 \/
             proj (v_shape where_) a <= proj origin a) ->
  insert_cropped base where_ what origin = Ok base.
Proof.
  intros Hs Ho [a Ha]. unfold insert_cropped.
  replace (nothing_to_insert (v_shape where_) (shape what) origin)
    with true; [reflexivity|].
  symmetry. apply nothing_to_insert_true_iff. exists a.
  destruct Ha as [Ha|Ha].
  - left. apply add_extent_nonpos; [apply Hs|apply Ho|]. left. exact Ha.
  - right. rewrite Z.geb_leb. apply Z.leb_le. exact Ha.
Qed.

Lemma in_unit_box_iff (q p : vec3 Z) : in_box q (1, 1, 1) p = true <-> p = q.
Proof.
  rewrite in_box_iff. split.
  - intros H. apply vec3_ext. intros a. specialize (H a).
    replace (proj (1, 1, 1) a) with 1 in H by (destruct a; reflexivity).
    lia.
  - intros -> a.
    replace (proj (1, 1, 1) a) with 1 by (destruct a; reflexivity). lia.
Qed.

(** A write at an index that lies in the array changes that voxel only. *)
Lemma setitem_in_bounds {V : Type} (m : ndarray V) (q : vec3 Z) (v : V) :
  in_bounds m q = true ->
  exists m',
    setitem m q v = Ok m' /\
    shape m' = shape m /\
    data m' q = v /\
    forall p, p <> q -> data m' p = data m p.
Proof.
  intros Hq. unfold setitem.
  assert (E : zip3 norm_index (shape m) q = q).
  { apply vec3_ext. intros a. rewrite proj_zip3. unfold norm_index.
    unfold in_bounds in Hq. rewrite in_box_iff in Hq. specialize (Hq a).
    replace (proj (0, 0, 0) a) with 0 in Hq by (destruct a; reflexivity).
    destruct (Z.ltb_spec (proj q a) 0); lia. }
  rewrite E, Hq. eexists. split; [reflexivity|]. split; [reflexivity|].
  cbn [data]. split.
  - replace (in_box q (1, 1, 1) q) with true; [reflexivity|].
    symmetry. apply in_unit_box_iff. reflexivity.
  - intros p Hp. destruct (in_box q (1, 1, 1) p) eqn:Hin; [|reflexivity].
    apply in_unit_box_iff in Hin. contradiction.
Qed.

Lemma in_window_iff (s e p : vec3 Z) :
  in_window s e p = true <-> forall a, proj s a <= proj p a < proj e a.
Proof.
  unfold in_window. rewrite in_box_iff. split; intros H a; specialize (H a).
  - rewrite proj_zip3 in H. lia.
  - rewrite proj_zip3. lia.
Qed.

Lemma in_window_in_bounds {V : Type} (m : ndarray V) (s e p : vec3 Z) :
  window_ok (shape m) s e -> in_window s e p = true -> in_bounds m p = true.
Proof.
  intros Hw Hp. apply (in_view_in_bounds m _ p (window_view_ok m s e Hw)).
  exact Hp.
Qed.

(** ** The ellipsoid filler, one nodule *)

Lemma inside_ellipse_ok (p center radius : vec3 Z) :
  radius_ok radius ->
  inside_ellipse p center radius
  = Ok (quadratic_form p center radius <? 1)%float.
Proof.
  intros Hr. destruct p as [[x y] z]. unfold inside_ellipse, true_div.
  destruct (Z.eqb_spec (proj radius ax0) 0) as [E|_];
    [exfalso; exact (Hr ax0 E)|].
  destruct (Z.eqb_spec (proj radius ax1) 0) as [E|_];
    [exfalso; exact (Hr ax1 E)|].
  destruct (Z.eqb_spec (proj radius ax2) 0) as [E|_];
    [exfalso; exact (Hr ax2 E)|].
  reflexivity.
Qed.

Lemma proj_scan_begin (center radius : vec3 Z) (a : axis) :
  proj (scan_begin center radius) a
  = Z.max 0 (Int64.sub (proj center a) (proj radius a)).
Proof.
  unfold scan_begin, np_maximum, np_sub. rewrite !proj_zip3.
  replace (proj (0, 0, 0) a) with 0 by (destruct a; reflexivity).
  reflexivity.
Qed.

Lemma proj_scan_end (sh s e center radius : vec3 Z) (a : axis) :
  shape_ok sh -> window_ok sh s e ->
  proj (scan_end s e center radius) a
  = Z.min (proj e a - proj s a)
      (Int64.add (Int64.add (proj center a) (proj radius a)) 1).
Proof.
  intros Hsh Hw. unfold scan_end, np_minimum, np_sub, np_add.
  rewrite !proj_zip3.
  replace (proj (1, 1, 1) a) with 1 by (destruct a; reflexivity).
  unfold Int64.sub at 1. rewrite wrap_small; [reflexivity|].
  destruct (Hw a). pose proof (Hsh a).
  unfold Int64.in_range, Int64.min_int, Int64.max_int in *. lia.
Qed.

(** The loop nest of one nodule runs the body on the visited voxels. *)
Lemma ellipse_item_visited {V : Type} (one : V)
  (start end_ centers radiuses : list (vec3 Z)) (i : nat)
  (m : ndarray V) (s e center radius : vec3 Z) :
  nth_error start i = Some s -> nth_error end_ i = Some e ->
  nth_error centers i = Some center -> nth_error radiuses i = Some radius ->
  ellipse_item one start end_ centers radiuses i m
  = for_each (visited (scan_begin center radius)
                (scan_end s e center radius))
      (ellipse_voxel one s center radius) m.
Proof.
  intros Hs He Hc Hr. unfold ellipse_item.
  rewrite (row_some _ _ _ Hc), (row_some _ _ _ Hr), (row_some _ _ _ He),
    (row_some _ _ _ Hs). cbn [bind].
  unfold visited. rewrite for_each_flat_map.
  apply for_each_ext. intros x t. rewrite for_each_flat_map.
  apply for_each_ext. intros y u. rewrite for_each_map. reflexivity.
Qed.

Lemma visited_in_window (sh s e center radius p : vec3 Z) :
  shape_ok sh -> window_ok sh s e ->
  In p (visited (scan_begin center radius) (scan_end s e center radius)) ->
  (forall a, 0 <= proj p a < proj e a - proj s a) /\
  np_add p s = zip3 Z.add p s /\
  in_window s e (zip3 Z.add p s) = true.
Proof.
  intros Hsh Hw Hp. rewrite in_visited_iff in Hp.
  assert (H : forall a, 0 <= proj p a < proj e a - proj s a).
  { intros a. specialize (Hp a).
    rewrite proj_scan_begin, (proj_scan_end sh) in Hp by assumption. lia. }
  split; [exact H|]. split.
  - apply vec3_ext. intros a. unfold np_add. rewrite !proj_zip3.
    unfold Int64.add. apply wrap_small.
    specialize (H a). destruct (Hw a). pose proof (Hsh a).
    unfold Int64.in_range, Int64.min_int, Int64.max_int in *. lia.
  - apply in_window_iff. intros a. rewrite proj_zip3. specialize (H a). lia.
Qed.

(** The body of the innermost loop on a visited voxel: it returns, and it
    changes at most the voxel [p + s], which lies in the window. *)
Lemma ellipse_voxel_step {V : Type} (one : V) (m : ndarray V)
  (s e center radius p : vec3 Z) :
  shape_ok (shape m) -> window_ok (shape m) s e -> radius_ok radius ->
  In p (visited (scan_begin center radius) (scan_end s e center radius)) ->
  exists m',
    ellipse_voxel one s center radius p m = Ok m' /\
    shape m' = shape m /\
    (forall q, q <> zip3 Z.add p s -> data m' q = data m q) /\
    data m' (zip3 Z.add p s)
    = if (quadratic_form p center radius <? 1)%float then one
      else data m (zip3 Z.add p s).
Proof.
  intros Hsh Hw Hr Hp.
  destruct (visited_in_window _ s e center radius p Hsh Hw Hp)
    as (_ & Eadd & Hin).
  unfold ellipse_voxel. rewrite (inside_ellipse_ok p center radius Hr).
  cbn [bind]. rewrite Eadd.
  destruct (quadratic_form p center radius <? 1)%float.
  - destruct (setitem_in_bounds m (zip3 Z.add p s) one
                (in_window_in_bounds m s e _ Hw Hin))
      as (m' & E & Hshape & Hset & Hother).
    exists m'. auto.
  - exists m. auto.
Qed.

(** One nodule of the ellipsoid filler: it returns and writes inside the
    window only. *)
Lemma ellipse_item_frame {V : Type} (one : V)
  (start end_ centers radiuses : list (vec3 Z)) (i : nat)
  (m : ndarray V) (s e center radius : vec3 Z) :
  nth_error start i = Some s -> nth_error end_ i = Some e ->
  nth_error centers i = Some center -> nth_error radiuses i = Some radius ->
  shape_ok (shape m) -> window_ok (shape m) s e -> radius_ok radius ->
  exists m',
    ellipse_item one start end_ centers radiuses i m = Ok m' /\
    shape m' = shape m /\
    forall q, in_window s e q = false -> data m' q = data m q.
Proof.
  intros Hs He Hc Hr Hsh Hw Hrad.
  rewrite (ellipse_item_visited one _ _ _ _ i m s e center radius)
    by assumption.
  apply (for_each_inv
           (fun m' => shape m' = shape m /\
                      forall q, in_window s e q = false ->
                                data m' q = data m q)).
  - auto.
  - intros p t Hp [Et Ht].
    destruct (ellipse_voxel_step one t s e center radius p)
      as (t' & E & Eshape & Hother & _);
      try assumption; try (rewrite Et; assumption).
    exists t'. split; [exact E|]. split; [congruence|].
    intros q Hq. rewrite Hother; [apply Ht; exact Hq|].
    intros ->.
    destruct (visited_in_window _ s e center radius p Hsh Hw Hp)
      as (_ & _ & Hin).
    congruence.
Qed.

(** ** The box filler, one nodule *)

Lemma np_ones_ok {V : Type} (one : V) (size : vec3 Z) :
  shape_ok size ->
  np_ones one size = Ok {| shape := size; data := fun _ => one |}.
Proof.
  intros H. unfold np_ones.
  replace (any3 (map3 (fun n => n <? 0) size)) with false; [reflexivity|].
  symmetry. apply any3_false_iff. intros a. rewrite proj_map3.
  apply Z.ltb_ge. apply (H a).
Qed.

Lemma rect_item_insert {V : Type} (one : V)
  (start end_ nodules_start nodules_size : list (vec3 Z)) (i : nat)
  (m : ndarray V) (s e origin size : vec3 Z) :
  nth_error start i = Some s -> nth_error end_ i = Some e ->
  nth_error nodules_start i = Some origin ->
  nth_error nodules_size i = Some size ->
  window_ok (shape m) s e -> shape_ok size ->
  rect_item one start end_ nodules_start nodules_size i m
  = insert_cropped m {| v_off := s; v_shape := zip3 Z.sub e s |}
      {| shape := size; data := fun _ => one |} origin.
Proof.
  intros Hs He Ho Hz Hw Hsize. unfold rect_item.
  rewrite (row_some _ _ _ Hz). cbn [bind].
  rewrite (np_ones_ok one size Hsize). cbn [bind].
  rewrite (row_some _ _ _ Hs), (row_some _ _ _ He). cbn [bind].
  rewrite (row_some _ _ _ Ho). cbn [bind].
  rewrite (window_view m s e Hw). reflexivity.
Qed.

Lemma rect_item_frame {V : Type} (one : V)
  (start end_ nodules_start nodules_size : list (vec3 Z)) (i : nat)
  (m : ndarray V) (s e origin size : vec3 Z) :
  nth_error start i = Some s -> nth_error end_ i = Some e ->
  nth_error nodules_start i = Some origin ->
  nth_error nodules_size i = Some size ->
  window_ok (shape m) s e -> box_ok s e origin size ->
  exists m',
    rect_item one start end_ nodules_start nodules_size i m = Ok m' /\
    shape m' = shape m /\
    forall q, in_window s e q = false -> data m' q = data m q.
Proof.
  intros Hs He Ho Hz Hw (Hsize & Horigin & Hfit).
  rewrite (rect_item_insert one _ _ _ _ i m s e origin size)
    by assumption.
  apply insert_cropped_frame; try assumption.
  apply window_view_ok. exact Hw.
Qed.

(** ** The fillers *)

(** C8: for the box filler and for the ellipsoid filler, the call returns
    and every voxel of the destination that lies outside the window
    [start[i], end[i]) of every item is left as it was. *)
Theorem fillers_keep_outside {V : Type} (one : V) (batch_mask : ndarray V)
  (start end_ : list (vec3 Z)) :
  shape_ok (shape batch_mask) ->
  windows_ok (shape batch_mask) start end_ ->
  (forall nodules_start nodules_size,
     boxes_ok start end_ nodules_start nodules_size ->
     exists m',
       make_rect_mask_numba one batch_mask start end_ nodules_start
         nodules_size = Ok m' /\
       shape m' = shape batch_mask /\
       forall p, outside_windows start end_ p ->
                 data m' p = data batch_mask p) /\
  (forall centers radiuses,
     ellipsoids_ok start centers radiuses ->
     exists m',
       make_ellipse_mask_numba one batch_mask start end_ centers radiuses
       = Ok m' /\
       shape m' = shape batch_mask /\
       forall p, outside_windows start end_ p ->
                 data m' p = data batch_mask p).
Proof.
  intros Hsh [Hlen Hwin]. split.
  - intros nodules_start nodules_size (Hl1 & Hl2 & Hbox).
    unfold make_rect_mask_numba.
    apply (for_each_inv
             (fun m' => shape m' = shape batch_mask /\
                        forall p, outside_windows start end_ p ->
                                  data m' p = data batch_mask p)).
    + auto.
    + intros i t Hi [Et Ht]. apply in_seq in Hi.
      destruct (row_lt start i) as (s & Es & _); [lia|].
      destruct (row_lt end_ i) as (e & Ee & _); [lia|].
      destruct (row_lt nodules_start i) as (o & Eo & _); [lia|].
      destruct (row_lt nodules_size i) as (z & Ez & _); [lia|].
      destruct (rect_item_frame one start end_ nodules_start nodules_size
                  i t s e o z) as (t' & E & Eshape & Hframe);
        try assumption.
      * rewrite Et. apply (Hwin i); assumption.
      * apply (Hbox i); assumption.
      * exists t'. split; [exact E|]. split; [congruence|].
        intros p Hp. rewrite Hframe; [apply Ht; exact Hp|].
        apply (Hp i); assumption.
  - intros centers radiuses (Hl1 & Hl2 & Hrad).
    unfold make_ellipse_mask_numba.
    apply (for_each_inv
             (fun m' => shape m' = shape batch_mask /\
                        forall p, outside_windows start end_ p ->
                                  data m' p = data batch_mask p)).
    + auto.
    + intros i t Hi [Et Ht]. apply in_seq in Hi.
      destruct (row_lt start i) as (s & Es & _); [lia|].
      destruct (row_lt end_ i) as (e & Ee & _); [lia|].
      destruct (row_lt centers i) as (c & Ec & _); [lia|].
      destruct (row_lt radiuses i) as (r & Er & _); [lia|].
      destruct (ellipse_item_frame one start end_ centers radiuses
                  i t s e c r) as (t' & E & Eshape & Hframe);
        try assumption.
      * rewrite Et. exact Hsh.
      * rewrite Et. apply (Hwin i); assumption.
      * apply (Hrad i); assumption.
      * exists t'. split; [exact E|]. split; [congruence|].
        intros p Hp. rewrite Hframe; [apply Ht; exact Hp|].
        apply (Hp i); assumption.
Qed.

Lemma nth_error_singleton {A : Type} (x y : A) (i : nat) :
  nth_error [x] i = Some y -> x = y.
Proof. destruct i as [|[|i]]; cbn; congruence. Qed.

Lemma fillers_keep_outside_witness :
  exists m',
    make_rect_mask_numba 1 example_batch [(1, 1, 1)] [(4, 4, 4)]
      [(2, -1, 1)] [(2, 2, 5)] = Ok m' /\
    shape m' = shape example_batch /\
    forall p, outside_windows [(1, 1, 1)] [(4, 4, 4)] p ->
              data m' p = data example_batch p.
Proof.
  destruct (fillers_keep_outside 1 example_batch [(1, 1, 1)] [(4, 4, 4)])
    as [H _].
  - by_axes.
  - split; [reflexivity|]. intros i s e Hs He.
    apply nth_error_singleton in Hs, He. subst. by_axes.
  - apply H. split; [reflexivity|]. split; [reflexivity|].
    intros i s e o z Hs He Ho Hz.
    apply nth_error_singleton in Hs, He, Ho, Hz. subst.
    split; [by_axes|split; by_axes].
Defined.

(** C3: if [what.shape + origin <= 0] on some axis, or
    [origin >= where.shape] on some axis, [insert_cropped] returns without
    an exception and leaves the destination as it was; so does the box
    filler for a nodule whose box lies outside its window in this sense,
    and so does the ellipsoid filler for a nodule whose scan range is
    empty on some axis. *)
Theorem outside_is_noop {V : Type} (one : V) :
  (forall (base : ndarray V) (where_ : view) (what : ndarray V)
          (origin : vec3 Z),
     shape_ok (shape what) -> int64_vec origin ->
     (exists a, proj (shape what) a + proj origin a <= 0 \/
                proj origin a >= proj (v_shape where_) a) ->
     insert_cropped base where_ what origin = Ok base) /\
  (forall (batch_mask : ndarray V)
          (start end_ nodules_start nodules_size : list (vec3 Z))
          (i : nat) (s e origin size : vec3 Z),
     nth_error start i = Some s -> nth_error end_ i = Some e ->
     nth_error nodules_start i = Some origin ->
     nth_error nodules_size i = Some size ->
     window_ok (shape batch_mask) s e ->
     shape_ok size -> int64_vec origin ->
     (exists a, proj size a + proj origin a <= 0 \/
                proj origin a >= proj e a - proj s a) ->
     rect_item one start end_ nodules_start nodules_size i batch_mask
     = Ok batch_mask) /\
  (forall (batch_mask : ndarray V)
          (start end_ centers radiuses : list (vec3 Z))
          (i : nat) (s e center radius : vec3 Z),
     nth_error start i = Some s -> nth_error end_ i = Some e ->
     nth_error centers i = Some center ->
     nth_error radiuses i = Some radius ->
     (exists a, proj (scan_end s e center radius) a
                <= proj (scan_begin center radius) a) ->
     ellipse_item one start end_ centers radiuses i batch_mask
     = Ok batch_mask).
Proof.
  split; [|split].
  - intros base where_ what origin Hs Ho [a Ha].
    apply insert_cropped_noop; try assumption. exists a. lia.
  - intros m start end_ nodules_start nodules_size i s e origin size
      Hs He Ho Hz Hw Hsize Horigin [a Ha].
    rewrite (rect_item_insert one _ _ _ _ i m s e origin size)
      by assumption.
    apply insert_cropped_noop; try assumption.
    exists a. cbn [shape v_shape]. rewrite proj_zip3. lia.
  - intros m start end_ centers radiuses i s e center radius
      Hs He Hc Hr [a Ha].
    rewrite (ellipse_item_visited one _ _ _ _ i m s e center radius)
      by assumption.
    replace (visited (scan_begin center radius)
               (scan_end s e center radius)) with (@nil (vec3 Z));
      [reflexivity|].
    symmetry.
    destruct (visited (scan_begin center radius)
                (scan_end s e center radius)) as [|p l] eqn:E;
      [reflexivity|].
    assert (Hp : In p (visited (scan_begin center radius)
                         (scan_end s e center radius)))
      by (rewrite E; left; reflexivity).
    rewrite in_visited_iff in Hp. specialize (Hp a). lia.
Qed.

Lemma outside_is_noop_witness :
  insert_cropped example_where (whole example_where) example_what (5, 5, 5)
  = Ok example_where.
Proof.
  apply (outside_is_noop 1).
  - by_axes.
  - by_axes.
  - exists ax0. right. cbn. lia.
Defined.



(** ** The regression batch path *)

Lemma for_each_seq_inv {S : Type} (I : nat -> S -> Prop) (n : nat)
  (body : nat -> S -> result S) (s : S) :
  I O s ->
  (forall k t, (k < n)%nat -> I k t ->
               exists t', body k t = Ok t' /\ I (Datatypes.S k) t') ->
  exists s', for_each (seq 0 n) body s = Ok s' /\ I n s'.
Proof.
  intros H0 Hstep.
  assert (G : forall m a t, (a + m = n)%nat -> I a t ->
                exists s', for_each (seq a m) body t = Ok s' /\ I n s').
  { induction m as [|m IH]; intros a t Ha Ht; cbn.
    - exists t. split; [reflexivity|].
      replace n with a by lia. exact Ht.
    - destruct (Hstep a t ltac:(lia) Ht) as (t' & -> & Ht'). cbn.
      apply IH; [lia|exact Ht']. }
  apply (G n O s); [lia|exact H0].
Qed.

Lemma nth_error_set_row_same {A : Type} (l : list A) (i : nat) (v : A) :
  (i < length l)%nat -> nth_error (set_row l i v) i = Some v.
Proof.
  revert i. induction l as [|x l IH]; intros [|i] H; cbn in *;
    try lia; [reflexivity|].
  apply IH. lia.
Qed.

Lemma nth_error_set_row_other {A : Type} (l : list A) (i j : nat) (v : A) :
  i <> j -> nth_error (set_row l i v) j = nth_error l j.
Proof.
  revert i j. induction l as [|x l IH]; intros [|i] [|j] H; cbn;
    try reflexivity; try congruence.
  apply IH. congruence.
Qed.

Lemma length_set_row {A : Type} (l : list A) (i : nat) (v : A) :
  length (set_row l i v) = length l.
Proof.
  revert i. induction l as [|x l IH]; intros [|i]; cbn;
    try reflexivity.
  rewrite IH. reflexivity.
Qed.

(** [create_mask_reg_jit] fills, in each mask, the slice of its item. *)
Lemma create_mask_reg_jit_rows (masks : list (ndarray float))
  (start end_ : list (vec3 Z)) :
  length masks = length start -> length end_ = length start ->
  exists ms,
    create_mask_reg_jit masks start end_ = Ok ms /\
    length ms = length masks /\
    forall i m s e,
      nth_error masks i = Some m -> nth_error start i = Some s ->
      nth_error end_ i = Some e ->
      nth_error ms i = Some (fill_slice m s e).
Proof.
  intros Hl1 Hl2. unfold create_mask_reg_jit.
  destruct (for_each_seq_inv
              (fun k ms =>
                 length ms = length masks /\
                 forall i m s e,
                   nth_error masks i = Some m ->
                   nth_error start i = Some s ->
                   nth_error end_ i = Some e ->
                   nth_error ms i
                   = Some (if (i <? k)%nat then fill_slice m s e else m))
              (length start) (reg_item start end_) masks)
    as (ms & E & Hlen & Hrows).
  - split; [reflexivity|]. intros i m s e Hm _ _. exact Hm.
  - intros k t Hk [Hlen Hrows].
    destruct (row_lt start k) as (s & Es & Rs); [lia|].
    destruct (row_lt end_ k) as (e & Ee & Re); [lia|].
    destruct (row_lt masks k) as (m & Em & _); [lia|].
    pose proof (Hrows k m s e Em Es Ee) as Ht.
    rewrite Nat.ltb_irrefl in Ht.
    unfold reg_item. rewrite Rs, Re. cbn [bind].
    rewrite (row_some _ _ _ Ht). cbn [bind].
    eexists. split; [reflexivity|]. split.
    + rewrite length_set_row. exact Hlen.
    + intros i m' s' e' Hm' Hs' He'.
      destruct (Nat.eq_dec k i) as [<-|Hne].
      * rewrite nth_error_set_row_same by lia.
        replace (k <? Datatypes.S k)%nat with true
          by (symmetry; apply Nat.ltb_lt; lia).
        unfold fill_slice. congruence.
      * rewrite nth_error_set_row_other by exact Hne.
        rewrite (Hrows i m' s' e' Hm' Hs' He').
        destruct (Nat.ltb_spec i k), (Nat.ltb_spec i (Datatypes.S k));
          try reflexivity; lia.
  - exists ms. split; [exact E|]. split; [exact Hlen|].
    intros i m s e Hm Hs He. rewrite (Hrows i m s e Hm Hs He).
    replace (i <? length start)%nat with true; [reflexivity|].
    symmetry. apply Nat.ltb_lt. rewrite <- Hl1.
    apply nth_error_Some. congruence.
Qed.

Lemma np_broadcast2_rows {A B C : Type} (f : A -> B -> C) (xs : list A)
  (ys : list B) :
  length ys = length xs ->
  exists zs,
    np_broadcast2 f xs ys = Ok zs /\
    length zs = length xs /\
    forall i x y,
      nth_error xs i = Some x -> nth_error ys i = Some y ->
      nth_error zs i = Some (f x y).
Proof.
  intros Hlen.
  assert (G : exists zs,
             Ok (map (fun xy => f (fst xy) (snd xy)) (combine xs ys))
             = Ok zs /\
             length zs = length xs /\
             forall i x y,
               nth_error xs i = Some x -> nth_error ys i = Some y ->
               nth_error zs i = Some (f x y)).
  { eexists. split; [reflexivity|]. split.
    - rewrite length_map, length_combine. lia.
    - clear Hlen. revert ys.
      induction xs as [|x0 xs IH]; intros ys i x y Hx Hy.
      + destruct i; discriminate.
      + destruct ys as [|y0 ys]; [destruct i; discriminate|].
        destruct i as [|i]; cbn in *; [congruence|].
        apply (IH ys i x y Hx Hy). }
  unfold np_broadcast2.
  destruct xs as [|x [|x' xs]], ys as [|y [|y' ys]]; cbn in Hlen;
    try discriminate; try exact G.
  replace (length (x :: x' :: xs) =? length (y :: y' :: ys))%nat
    with true; [exact G|].
  symmetry. apply Nat.eqb_eq. cbn. lia.
Qed.

Lemma bool_index_ok {A : Type} (positions : list bool) (xs : list A) :
  positions <> [] -> length positions = length xs ->
  bool_index positions xs = Ok (select positions xs).
Proof.
  intros Hne Hlen. unfold bool_index.
  destruct positions as [|b positions]; [congruence|].
  rewrite Hlen, Nat.eqb_refl. reflexivity.
Qed.

Lemma bool_assign_ok {A : Type} (positions : list bool) (xs vals : list A) :
  positions <> [] -> length positions = length xs ->
  length vals = length (select positions xs) ->
  bool_assign positions xs vals = Ok (scatter positions xs vals).
Proof.
  intros Hne Hlen Hvals. unfold bool_assign.
  destruct positions as [|b positions]; [congruence|].
  rewrite Hlen, Nat.eqb_refl, Hvals, Nat.eqb_refl. reflexivity.
Qed.

Lemma length_select {A B : Type} (positions : list bool) (xs : list A)
  (ys : list B) :
  length xs = length positions -> length ys = length positions ->
  length (select positions xs) = length (select positions ys).
Proof.
  revert xs ys. induction positions as [|b positions IH];
    intros [|x xs] [|y ys] Hx Hy; cbn in *; try reflexivity;
    try discriminate.
  destruct b; cbn; [f_equal|]; apply IH; lia.
Qed.

Lemma length_scatter {A : Type} (positions : list bool) (xs vals : list A) :
  length (scatter positions xs vals) = length xs.
Proof.
  revert xs vals. induction positions as [|b positions IH];
    intros [|x xs] vals; cbn; try reflexivity.
  destruct b; [destruct vals|]; cbn; rewrite IH; reflexivity.
Qed.

(** Gathering the selected rows, transforming each of them, and scattering
    them back transforms the selected rows in place. *)
Lemma scatter_select {A B C : Type} (g : A -> B -> C -> A)
  (positions : list bool) (xs vals : list A) (ss : list B) (es : list C) :
  length xs = length positions -> length ss = length positions ->
  length es = length positions ->
  (forall j x s e,
     nth_error (select positions xs) j = Some x ->
     nth_error (select positions ss) j = Some s ->
     nth_error (select positions es) j = Some e ->
     nth_error vals j = Some (g x s e)) ->
  forall i b x s e,
    nth_error positions i = Some b -> nth_error xs i = Some x ->
    nth_error ss i = Some s -> nth_error es i = Some e ->
    nth_error (scatter positions xs vals) i
    = Some (if b then g x s e else x).
Proof.
  revert xs vals ss es.
  induction positions as [|b0 positions IH];
    intros [|x0 xs] vals [|s0 ss] [|e0 es] Hx Hs He Hvals i b x s e
      Hb Hxi Hsi Hei; cbn in Hx, Hs, He; try discriminate;
    try (destruct i; discriminate).
  destruct i as [|i]; cbn in Hb, Hxi, Hsi, Hei.
  - injection Hb as <-. injection Hxi as <-. injection Hsi as <-.
    injection Hei as <-. cbn.
    destruct b0; [|reflexivity].
    pose proof (Hvals O x0 s0 e0 eq_refl eq_refl eq_refl) as Hv.
    destruct vals as [|v vals]; [discriminate|].
    cbn in Hv. cbn. exact Hv.
  - cbn. destruct b0.
    + destruct vals as [|v vals].
      * pose proof (Hvals O x0 s0 e0 eq_refl eq_refl eq_refl) as Hv.
        discriminate.
      * cbn. apply (IH xs vals ss es); try lia; try assumption.
        intros j x' s' e' H1 H2 H3.
        apply (Hvals (Datatypes.S j) x' s' e'); assumption.
    + cbn. apply (IH xs vals ss es); try lia; try assumption.
Qed.

Lemma np_zeros_ok (sh : vec3 Z) :
  (forall a, 0 <= proj sh a) -> np_zeros sh = Ok (zeros_array sh).
Proof.
  intros H. unfold np_zeros.
  replace (any3 (map3 (fun n => n <? 0) sh)) with false; [reflexivity|].
  symmetry. apply any3_false_iff. intros a. rewrite proj_map3.
  apply Z.ltb_ge. apply (H a).
Qed.

Lemma nth_error_repeat_some {A : Type} (x y : A) (n i : nat) :
  nth_error (repeat x n) i = Some y -> x = y.
Proof.
  revert i. induction n as [|n IH]; intros [|i]; cbn; try discriminate.
  - congruence.
  - apply IH.
Qed.

(** The batch of masks, item by item: the mask of an item is the zero
    volume, with the slice of the item filled if its probability passes
    the threshold. *)
Lemma create_mask_reg_rows (centers sizes : list (vec3 float))
  (probs : list float) (crop_shape : vec3 Z) (threshold : float) :
  reg_inputs_ok centers sizes probs crop_shape ->
  exists masks,
    create_mask_reg centers sizes probs crop_shape threshold = Ok masks /\
    length masks = length centers /\
    forall i center size prob,
      nth_error centers i = Some center ->
      nth_error sizes i = Some size ->
      nth_error probs i = Some prob ->
      nth_error masks i
      = Some (if (threshold <? prob)%float
              then fill_slice (zeros_array crop_shape)
                     (start_pixel crop_shape center size)
                     (end_pixel crop_shape center size)
              else zeros_array crop_shape).
Proof.
  intros (Hl1 & Hl2 & Hne & Hshape). unfold create_mask_reg.
  rewrite (np_zeros_ok crop_shape Hshape). cbn [bind].
  destruct (np_broadcast2_rows (start_pixel crop_shape) centers sizes Hl1)
    as (starts & -> & Ls & Hs).
  destruct (np_broadcast2_rows (end_pixel crop_shape) centers sizes Hl1)
    as (ends & -> & Le & He).
  cbn [bind].
  set (positions := map (fun p => (threshold <? p)%float) probs).
  set (masks_array := repeat (zeros_array crop_shape) (length centers)).
  assert (Lp : length positions = length centers)
    by (unfold positions; rewrite length_map; exact Hl2).
  assert (Lm : length masks_array = length centers)
    by (unfold masks_array; apply repeat_length).
  assert (Pne : positions <> []).
  { intros E. rewrite E in Lp. destruct centers; [congruence|discriminate]. }
  rewrite !bool_index_ok by (try exact Pne; congruence). cbn [bind].
  destruct (create_mask_reg_jit_rows (select positions masks_array)
              (select positions starts) (select positions ends))
    as (filled & -> & Lf & Hf).
  { apply length_select; congruence. }
  { apply length_select; congruence. }
  cbn [bind].
  rewrite bool_assign_ok by (try exact Pne; congruence).
  eexists. split; [reflexivity|]. split.
  - rewrite length_scatter. exact Lm.
  - intros i center size prob Hc Hz Hp.
    assert (Hi : (i < length centers)%nat)
      by (apply nth_error_Some; congruence).
    destruct (row_lt masks_array i) as (m & Em & _); [lia|].
    pose proof (nth_error_repeat_some _ _ _ _ Em) as <-.
    rewrite (scatter_select fill_slice positions masks_array filled
               starts ends ltac:(congruence) ltac:(congruence)
               ltac:(congruence) Hf i (threshold <? prob)%float
               (zeros_array crop_shape)
               (start_pixel crop_shape center size)
               (end_pixel crop_shape center size)).
    + reflexivity.
    + unfold positions. apply (map_nth_error _ _ _ Hp).
    + exact Em.
    + apply (Hs i center size Hc Hz).
    + apply (He i center size Hc Hz).
Qed.

Lemma float_zero_not_one : 0%float <> 1%float.
Proof.
  intros H. apply (f_equal (fun x => (0 <? x)%float)) in H.
  vm_compute in H. discriminate.
Qed.

(** A slice that is empty on some axis selects no voxel. *)
Lemma in_empty_slice {V : Type} (m : ndarray V) (s e p : vec3 Z) :
  (exists a, slice_len (proj (shape m) a) (proj s a) (proj e a) <= 0) ->
  in_view (slice_view (whole m) s e) p = false.
Proof.
  intros [a Ha]. unfold in_view. apply in_box_false_iff. exists a.
  unfold slice_view, whole. cbn [v_off v_shape].
  rewrite !proj_zip3. cbn [fst snd]. lia.
Qed.

(** A slice that is non-empty on every axis selects a voxel of the
    array. *)
Lemma in_nonempty_slice {V : Type} (m : ndarray V) (s e : vec3 Z) :
  (forall a, 0 <= proj (shape m) a) ->
  (forall a, 0 < slice_len (proj (shape m) a) (proj s a) (proj e a)) ->
  exists p,
    in_bounds m p = true /\ in_view (slice_view (whole m) s e) p = true.
Proof.
  intros Hsh Hlen. exists (v_off (slice_view (whole m) s e)).
  assert (Hin : in_view (slice_view (whole m) s e)
                  (v_off (slice_view (whole m) s e)) = true).
  { unfold in_view. apply in_box_iff. intros a. specialize (Hlen a).
    assert (E : proj (v_shape (slice_view (whole m) s e)) a
                = slice_len (proj (shape m) a) (proj s a) (proj e a)).
    { unfold slice_view, whole. cbn [v_shape]. rewrite !proj_zip3.
      reflexivity. }
    rewrite E. lia. }
  split; [|exact Hin].
  apply (in_view_in_bounds m (whole m)); [apply whole_ok; exact Hsh|].
  apply (in_slice_view_in_view (whole m) s e); [exact Hsh|exact Hin].
Qed.

Lemma fill_slice_empty (m : ndarray float) (s e : vec3 Z) :
  (exists a, proj s a = proj e a) ->
  forall p, data (fill_slice m s e) p = data m p.
Proof.
  intros [a Ha] p. unfold fill_slice, fill_view. cbn [data].
  rewrite in_empty_slice; [reflexivity|].
  exists a. rewrite Ha, slice_len_same. lia.
Qed.



(** C10: in the regression batch path, if the rounded start of an item
    equals its rounded end on some axis, the mask of the item is all zero,
    whatever its probability and its size; and there are such items with a
    probability above the threshold and a size that is strictly positive
    on every axis. *)
Theorem empty_rounded_box_leaves_zero_mask :
  (forall (centers sizes : list (vec3 float)) (probs : list float)
          (crop_shape : vec3 Z) (threshold : float),
     reg_inputs_ok centers sizes probs crop_shape ->
     exists masks,
       create_mask_reg centers sizes probs crop_shape threshold
       = Ok masks /\
       forall i center size prob,
         nth_error centers i = Some center ->
         nth_error sizes i = Some size ->
         nth_error probs i = Some prob ->
         (exists a, proj (start_pixel crop_shape center size) a
                    = proj (end_pixel crop_shape center size) a) ->
         exists mask,
           nth_error masks i = Some mask /\
           forall p, data mask p = 0%float) /\
  (positive3 tiny_size /\
   (threshold_0_5 <? prob_0_9)%float = true /\
   start_pixel (10, 10, 10) tiny_center tiny_size = (5, 5, 5) /\
   end_pixel (10, 10, 10) tiny_center tiny_size = (5, 5, 5)).
Proof.
  split.
  - intros centers sizes probs crop_shape threshold Hok.
    destruct (create_mask_reg_rows centers sizes probs crop_shape threshold
                Hok) as (masks & E & Hlen & Hrows).
    exists masks. split; [exact E|].
    intros i center size prob Hc Hz Hp Hempty.
    eexists. split; [apply (Hrows i center size prob Hc Hz Hp)|].
    intros p. destruct (threshold <? prob)%float; [|reflexivity].
    rewrite (fill_slice_empty _ _ _ Hempty). reflexivity.
  - split; [intros a; destruct a; vm_compute; reflexivity|].
    split; vm_compute; auto.
Qed.

Lemma empty_rounded_box_leaves_zero_mask_witness :
  exists masks,
    create_mask_reg [tiny_center] [tiny_size] [prob_0_9] (10, 10, 10)
      threshold_0_5 = Ok masks /\
    exists mask,
      nth_error masks 0 = Some mask /\ forall p, data mask p = 0%float.
Proof.
  destruct empty_rounded_box_leaves_zero_mask as [H _].
  destruct (H [tiny_center] [tiny_size] [prob_0_9] (10, 10, 10)
              threshold_0_5) as (masks & E & Hrow).
  - split; [reflexivity|]. split; [reflexivity|].
    split; [discriminate|by_axes].
  - exists masks. split; [exact E|].
    apply (Hrow O tiny_center tiny_size prob_0_9); try reflexivity.
    exists ax0. vm_compute. reflexivity.
Defined.

Lemma two_items_ok (center0 size0 center1 size1 : vec3 float)
  (crop_shape : vec3 Z) :
  (forall a, 0 <= proj crop_shape a) ->
  reg_inputs_ok [center0; center1] [size0; size1] [prob_0_9; prob_0_1]
    crop_shape.
Proof.
  intros H. split; [reflexivity|]. split; [reflexivity|].
  split; [discriminate|exact H].
Qed.

(** The two masks of the regression threshold scenario. *)
Lemma regression_threshold_masks (center0 size0 center1 size1 : vec3 float)
  (crop_shape : vec3 Z) :
  (forall a, 0 <= proj crop_shape a) ->
  create_mask_reg [center0; center1] [size0; size1] [prob_0_9; prob_0_1]
    crop_shape threshold_0_5
  = Ok [fill_slice (zeros_array crop_shape)
          (start_pixel crop_shape center0 size0)
          (end_pixel crop_shape center0 size0);
        zeros_array crop_shape].
Proof.
  intros Hshape.
  destruct (create_mask_reg_rows [center0; center1] [size0; size1]
              [prob_0_9; prob_0_1] crop_shape threshold_0_5
              (two_items_ok center0 size0 center1 size1 crop_shape Hshape))
    as (masks & E & Hlen & Hrows).
  rewrite E. f_equal.
  pose proof (Hrows 0%nat center0 size0 prob_0_9 eq_refl eq_refl eq_refl)
    as H0.
  pose proof (Hrows 1%nat center1 size1 prob_0_1 eq_refl eq_refl eq_refl)
    as H1.
  change (threshold_0_5 <? prob_0_9)%float with true in H0.
  change (threshold_0_5 <? prob_0_1)%float with false in H1.
  destruct masks as [|m0 [|m1 [|m2 masks]]]; cbn in Hlen; try discriminate.
  cbn in H0, H1. congruence.
Qed.

Lemma regression_threshold_counterexample :
  ~ regression_threshold_claim tiny_center tiny_size tiny_center tiny_size
      (10, 10, 10).
Proof.
  intros H. destruct H as (m0 & m1 & E & (p & _ & Hp) & _).
  - intros a; destruct a; vm_compute; reflexivity.
  - rewrite regression_threshold_masks in E by by_axes.
    injection E as <- _.
    rewrite fill_slice_empty in Hp.
    + cbn in Hp. exact (float_zero_not_one Hp).
    + exists ax0. vm_compute. reflexivity.
Qed.

(** C9, amended: with probabilities [0.9, 0.1] and threshold 0.5, for
    every centers and sizes input, the call returns two masks; the mask of
    item 1 is all zero; the mask of item 0 is the zero volume with the
    slice from its rounded start to its rounded end set to 1, so it is
    somewhere 1 if and only if that slice is non-empty on every axis, as
    it is when [0 <= start < end <= crop_shape] on every axis. *)
Theorem regression_threshold_scenario (center0 size0 center1 size1
  : vec3 float) (crop_shape : vec3 Z) :
  (forall a, 0 <= proj crop_shape a) ->
  exists m0 m1,
    create_mask_reg [center0; center1] [size0; size1] [prob_0_9; prob_0_1]
      crop_shape threshold_0_5 = Ok [m0; m1] /\
    (forall p, data m1 p = 0%float) /\
    m0 = fill_slice (zeros_array crop_shape)
           (start_pixel crop_shape center0 size0)
           (end_pixel crop_shape center0 size0) /\
    ((exists p, in_bounds m0 p = true /\ data m0 p = 1%float) <->
     (forall a,
        0 < slice_len (proj crop_shape a)
              (proj (start_pixel crop_shape center0 size0) a)
              (proj (end_pixel crop_shape center0 size0) a))) /\
    ((forall a,
        0 <= proj (start_pixel crop_shape center0 size0) a
        < proj (end_pixel crop_shape center0 size0) a /\
        proj (end_pixel crop_shape center0 size0) a <= proj crop_shape a) ->
     exists p, in_bounds m0 p = true /\ data m0 p = 1%float).
Proof.
  intros Hshape.
  set (s := start_pixel crop_shape center0 size0).
  set (e := end_pixel crop_shape center0 size0).
  assert (Hnonempty :
            (forall a, 0 < slice_len (proj crop_shape a) (proj s a)
                             (proj e a)) ->
            exists p,
              in_bounds (fill_slice (zeros_array crop_shape) s e) p = true /\
              data (fill_slice (zeros_array crop_shape) s e) p = 1%float).
  { intros Hlen.
    destruct (in_nonempty_slice (zeros_array crop_shape) s e Hshape Hlen)
      as (p & Hb & Hin).
    exists p. split; [exact Hb|].
    unfold fill_slice, fill_view. cbn [data]. rewrite Hin. reflexivity. }
  eexists. eexists.
  split; [apply regression_threshold_masks; exact Hshape|].
  split; [reflexivity|]. split; [reflexivity|]. split; [split|].
  - intros (p & _ & Hp) a.
    destruct (Z_lt_le_dec 0 (slice_len (proj crop_shape a) (proj s a)
                               (proj e a))) as [Hlt|Hle]; [exact Hlt|].
    exfalso. unfold fill_slice, fill_view in Hp. cbn [data] in Hp.
    rewrite in_empty_slice in Hp by (exists a; exact Hle).
    cbn in Hp. exact (float_zero_not_one Hp).
  - exact Hnonempty.
  - intros Hbox. apply Hnonempty. intros a. destruct (Hbox a) as [H1 H2].
    rewrite slice_len_id; lia.
Qed.

Lemma regression_threshold_scenario_witness :
  exists m0 m1,
    create_mask_reg [(0.5, 0.5, 0.5)%float; tiny_center]
      [(0.5, 0.5, 0.5)%float; tiny_size] [prob_0_9; prob_0_1] (4, 4, 4)
      threshold_0_5 = Ok [m0; m1] /\
    (forall p, data m1 p = 0%float) /\
    exists p, in_bounds m0 p = true /\ data m0 p = 1%float.
Proof.
  destruct (regression_threshold_scenario (0.5, 0.5, 0.5)%float
              (0.5, 0.5, 0.5)%float tiny_center tiny_size (4, 4, 4))
    as (m0 & m1 & E & H1 & _ & _ & H0).
  - by_axes.
  - exists m0, m1. split; [exact E|]. split; [exact H1|].
    apply H0. intros a; destruct a; vm_compute; repeat split; discriminate.
Defined.

(** ** The membership test of the ellipsoid filler *)

Lemma vec3_eqb_eq (p q : vec3 Z) : vec3_eqb p q = true <-> p = q.
Proof.
  unfold vec3_eqb. rewrite all3_true_iff. split.
  - intros H. apply vec3_ext. intros a. specialize (H a).
    rewrite proj_zip3 in H. apply Z.eqb_eq. exact H.
  - intros -> a. rewrite proj_zip3. apply Z.eqb_refl.
Qed.

(** The loop over a list of visited voxels, voxel by voxel. *)
Lemma ellipse_voxels_data {V : Type} (one : V) (sh s e center radius : vec3 Z)
  (l : list (vec3 Z)) :
  shape_ok sh -> window_ok sh s e -> radius_ok radius ->
  (forall p, In p l ->
             In p (visited (scan_begin center radius)
                     (scan_end s e center radius))) ->
  forall m : ndarray V,
    shape m = sh ->
    exists m',
      for_each l (ellipse_voxel one s center radius) m = Ok m' /\
      shape m' = sh /\
      forall q,
        data m' q
        = if existsb (fun p => vec3_eqb (zip3 Z.add p s) q
                               && (quadratic_form p center radius <? 1)%float)
               l
          then one else data m q.
Proof.
  intros Hsh Hw Hr. induction l as [|p l IH]; intros Hl m Hm; cbn.
  - exists m. auto.
  - destruct (ellipse_voxel_step one m s e center radius p)
      as (m1 & -> & Hshape1 & Hother & Hset);
      try (rewrite Hm; assumption); try assumption.
    { apply Hl. left. reflexivity. }
    cbn [bind].
    destruct (IH (fun x Hx => Hl x (or_intror Hx)) m1 ltac:(congruence))
      as (m' & -> & Hshape' & Hdata).
    exists m'. split; [reflexivity|]. split; [exact Hshape'|].
    intros q. rewrite Hdata.
    destruct (existsb _ l); [rewrite orb_true_r; reflexivity|].
    rewrite orb_false_r.
    destruct (vec3_eqb (zip3 Z.add p s) q) eqn:Eq.
    + apply vec3_eqb_eq in Eq. subst q. cbn [andb]. exact Hset.
    + cbn [andb]. apply Hother. intros ->.
      assert (vec3_eqb (zip3 Z.add p s) (zip3 Z.add p s) = true)
        by (apply vec3_eqb_eq; reflexivity).
      congruence.
Qed.

Lemma existsb_visited (s e center radius q : vec3 Z) :
  existsb (fun p => vec3_eqb (zip3 Z.add p s) q
                    && (quadratic_form p center radius <? 1)%float)
    (visited (scan_begin center radius) (scan_end s e center radius))
  = ellipse_sets s e center radius q.
Proof.
  apply eq_true_iff_eq. unfold ellipse_sets.
  rewrite existsb_exists, andb_true_iff, in_window_iff. split.
  - intros (p & Hp & H). apply andb_true_iff in H. destruct H as [H1 H2].
    apply vec3_eqb_eq in H1. subst q.
    assert (E : zip3 Z.sub (zip3 Z.add p s) s = p).
    { apply vec3_ext. intros a. rewrite !proj_zip3. lia. }
    rewrite E. split; [|exact H2]. apply in_visited_iff. exact Hp.
  - intros [H1 H2]. exists (zip3 Z.sub q s). split.
    + apply in_visited_iff. exact H1.
    + apply andb_true_iff. split; [|exact H2].
      apply vec3_eqb_eq. apply vec3_ext. intros a. rewrite !proj_zip3. lia.
Qed.

(** One nodule of the ellipsoid filler, voxel by voxel. *)
Lemma ellipse_item_data {V : Type} (one : V)
  (start end_ centers radiuses : list (vec3 Z)) (i : nat)
  (m : ndarray V) (s e center radius : vec3 Z) :
  nth_error start i = Some s -> nth_error end_ i = Some e ->
  nth_error centers i = Some center -> nth_error radiuses i = Some radius ->
  shape_ok (shape m) -> window_ok (shape m) s e -> radius_ok radius ->
  exists m',
    ellipse_item one start end_ centers radiuses i m = Ok m' /\
    shape m' = shape m /\
    forall q,
      data m' q
      = if ellipse_sets s e center radius q then one else data m q.
Proof.
  intros Hs He Hc Hr Hsh Hw Hrad.
  rewrite (ellipse_item_visited one _ _ _ _ i m s e center radius)
    by assumption.
  destruct (ellipse_voxels_data one (shape m) s e center radius
              (visited (scan_begin center radius)
                 (scan_end s e center radius)) Hsh Hw Hrad
              (fun p Hp => Hp) m eq_refl) as (m' & E & Hshape & Hdata).
  exists m'. split; [exact E|]. split; [exact Hshape|].
  intros q. rewrite Hdata, existsb_visited. reflexivity.
Qed.

(** *** Binary64 facts for a voxel at one radius along one axis *)

Lemma div_eucl_self_shift (m : positive) :
  Z.div_eucl (Z.shiftl (Z.pos m) 53) (Z.pos m) = (2 ^ 53, 0).
Proof.
  pose proof (Z_div_mod (Z.shiftl (Z.pos m) 53) (Z.pos m) ltac:(lia)) as H.
  destruct (Z.div_eucl (Z.shiftl (Z.pos m) 53) (Z.pos m)) as [q r].
  rewrite Z.shiftl_mul_pow2 in H by lia.
  destruct H as [H1 H2].
  assert (q = 2 ^ 53) by nia.
  assert (r = 0) by nia.
  congruence.
Qed.

(** A finite float divided by itself, up to sign, is 1 up to sign. *)
Lemma SF64div_same (s t : bool) (m : positive) (e : Z) :
  SF64div (S754_finite s m e) (S754_finite t m e)
  = Prim2SF (if xorb s t then -1 else 1)%float.
Proof.
  unfold SF64div, SFdiv, SFdiv_core_binary. cbn [Zdigits2].
  replace (Z.pos (digits2_pos m) + e - (Z.pos (digits2_pos m) + e))
    with 0 by lia.
  replace (e - e) with 0 by lia.
  change (Z.min (fexp prec emax 0) 0) with (-53).
  change (0 - -53) with 53. cbv iota.
  change (IntDef.Z.div_eucl (IntDef.Z.shiftl (Z.pos m) 53) (Z.pos m))
    with (Z.div_eucl (Z.shiftl (Z.pos m) 53) (Z.pos m)).
  rewrite div_eucl_self_shift.
  destruct m, s, t; vm_compute; reflexivity.
Qed.

Lemma sqr_div_self (x : float) :
  F64.sqr (x / x) = 1%float \/ F64.sqr (x / x) = nan.
Proof.
  assert (H : Prim2SF (x / x) = Prim2SF 1 \/ Prim2SF (x / x) = Prim2SF nan).
  { rewrite div_spec. destruct (Prim2SF x) as [s|s| |s m e];
      try (right; reflexivity).
    left. rewrite SF64div_same. destruct s; reflexivity. }
  destruct H as [H|H]; apply Prim2SF_inj in H; rewrite H;
    [left|right]; reflexivity.
Qed.

Lemma sqr_div_opp_l (x : float) :
  F64.sqr (- x / x) = 1%float \/ F64.sqr (- x / x) = nan.
Proof.
  assert (H : Prim2SF (- x / x) = Prim2SF (-1)
              \/ Prim2SF (- x / x) = Prim2SF nan).
  { rewrite div_spec, opp_spec. destruct (Prim2SF x) as [s|s| |s m e];
      try (right; reflexivity).
    left. cbn [SFopp]. rewrite SF64div_same. destruct s; reflexivity. }
  destruct H as [H|H]; apply Prim2SF_inj in H; rewrite H;
    [left|right]; reflexivity.
Qed.

Lemma sqr_div_opp_r (x : float) :
  F64.sqr (x / - x) = 1%float \/ F64.sqr (x / - x) = nan.
Proof.
  assert (H : Prim2SF (x / - x) = Prim2SF (-1)
              \/ Prim2SF (x / - x) = Prim2SF nan).
  { rewrite div_spec, opp_spec. destruct (Prim2SF x) as [s|s| |s m e];
      try (right; reflexivity).
    left. cbn [SFopp]. rewrite SF64div_same. destruct s; reflexivity. }
  destruct H as [H|H]; apply Prim2SF_inj in H; rewrite H;
    [left|right]; reflexivity.
Qed.

Lemma sqr_zero_div (y : float) :
  F64.sqr (0 / y) = 0%float \/ F64.sqr (0 / y) = nan.
Proof.
  assert (H : Prim2SF (0 / y) = Prim2SF 0
              \/ Prim2SF (0 / y) = Prim2SF (-0)
              \/ Prim2SF (0 / y) = Prim2SF nan).
  { rewrite div_spec. change (Prim2SF 0) with (S754_zero false).
    destruct (Prim2SF y) as [s|s| |s m e]; cbn;
      try (right; right; reflexivity);
      destruct s; try (left; reflexivity); right; left; reflexivity. }
  destruct H as [H|[H|H]]; apply Prim2SF_inj in H; rewrite H;
    [left|left|right]; reflexivity.
Qed.

Lemma boundary_term (x c r : Z) :
  Int64.in_range r -> x - c = r \/ x - c = - r ->
  F64.sqr (F64.of_int64 (Int64.sub x c) / F64.of_int64 r) = 1%float \/
  F64.sqr (F64.of_int64 (Int64.sub x c) / F64.of_int64 r) = nan.
Proof.
  intros Hr Hd. unfold Int64.sub.
  destruct Hd as [->| ->].
  - rewrite wrap_small by exact Hr. apply sqr_div_self.
  - unfold Int64.in_range, Int64.min_int, Int64.max_int in Hr.
    destruct (Z.eq_dec r Int64.min_int) as [->|Hmin].
    + change (Int64.wrap (- Int64.min_int)) with Int64.min_int.
      apply sqr_div_self.
    + unfold Int64.min_int in Hmin.
      rewrite wrap_small
        by (unfold Int64.in_range, Int64.min_int, Int64.max_int; lia).
      destruct (Z.lt_trichotomy r 0) as [Hneg|[->|Hpos]].
      * unfold F64.of_int64.
        destruct (Z.eqb_spec (- r) Int64.min_int) as [E|_];
          [unfold Int64.min_int in E; lia|].
        destruct (Z.eqb_spec r Int64.min_int) as [E|_];
          [unfold Int64.min_int in E; lia|].
        destruct (Z.ltb_spec (- r) 0); [lia|].
        destruct (Z.ltb_spec r 0); [|lia].
        apply sqr_div_opp_r.
      * apply sqr_div_self.
      * unfold F64.of_int64.
        destruct (Z.eqb_spec (- r) Int64.min_int) as [E|_];
          [unfold Int64.min_int in E; lia|].
        destruct (Z.eqb_spec r Int64.min_int) as [E|_];
          [unfold Int64.min_int in E; lia|].
        destruct (Z.ltb_spec (- r) 0); [|lia].
        destruct (Z.ltb_spec r 0); [lia|].
        rewrite Z.opp_involutive. apply sqr_div_opp_l.
Qed.

Lemma center_term (x c r : Z) :
  x = c ->
  F64.sqr (F64.of_int64 (Int64.sub x c) / F64.of_int64 r) = 0%float \/
  F64.sqr (F64.of_int64 (Int64.sub x c) / F64.of_int64 r) = nan.
Proof.
  intros ->. unfold Int64.sub. rewrite Z.sub_diag.
  change (F64.of_int64 (Int64.wrap 0)) with 0%float.
  apply sqr_zero_div.
Qed.

(** At one radius from the center along one axis, and at the center along
    the two other axes, the float64 value of the form is not below 1. *)
Lemma boundary_voxel_not_inside (p center radius : vec3 Z) (a : axis) :
  int64_vec radius ->
  (proj p a - proj center a = proj radius a \/
   proj p a - proj center a = - proj radius a) ->
  (forall b, b <> a -> proj p b = proj center b) ->
  (quadratic_form p center radius <? 1)%float = false.
Proof.
  intros Hr Ha Hb. unfold quadratic_form. cbv zeta beta.
  pose proof (boundary_term (proj p a) (proj center a) (proj radius a)
                (Hr a) Ha) as Ta.
  assert (Tb : forall b, b <> a ->
            F64.sqr (F64.of_int64 (Int64.sub (proj p b) (proj center b))
                     / F64.of_int64 (proj radius b)) = 0%float \/
            F64.sqr (F64.of_int64 (Int64.sub (proj p b) (proj center b))
                     / F64.of_int64 (proj radius b)) = nan).
  { intros b Hne. apply center_term. apply Hb. exact Hne. }
  destruct a.
  - destruct Ta as [E0|E0], (Tb ax1 ltac:(discriminate)) as [E1|E1],
      (Tb ax2 ltac:(discriminate)) as [E2|E2];
      rewrite E0, E1, E2; vm_compute; reflexivity.
  - destruct Ta as [E1|E1], (Tb ax0 ltac:(discriminate)) as [E0|E0],
      (Tb ax2 ltac:(discriminate)) as [E2|E2];
      rewrite E0, E1, E2; vm_compute; reflexivity.
  - destruct Ta as [E2|E2], (Tb ax0 ltac:(discriminate)) as [E0|E0],
      (Tb ax1 ltac:(discriminate)) as [E1|E1];
      rewrite E0, E1, E2; vm_compute; reflexivity.
Qed.

(** With a single nodule the filler runs the loop body once. *)
Lemma make_ellipse_single {V : Type} (one : V) (m : ndarray V)
  (s e center radius : vec3 Z) :
  make_ellipse_mask_numba one m [s] [e] [center] [radius]
  = ellipse_item one [s] [e] [center] [radius] 0 m.
Proof.
  unfold make_ellipse_mask_numba. cbn [length seq for_each].
  destruct (ellipse_item one [s] [e] [center] [radius] 0 m); reflexivity.
Qed.

Lemma ellipsoid_membership_counterexample :
  ~ ellipsoid_membership_claim (15, 15, 15) (7, 7, 7) (7, 7, 7).
Proof.
  intros (m' & E & H).
  destruct (ellipse_item_data 1 [(0, 0, 0)] [(15, 15, 15)] [(7, 7, 7)]
              [(7, 7, 7)] 0
              {| shape := (15, 15, 15); data := fun _ => 0 |}
              (0, 0, 0) (15, 15, 15) (7, 7, 7) (7, 7, 7))
    as (m1 & E1 & Hshape & Hdata); try reflexivity; try by_axes.
  assert (E2 : Ok m1 = Ok m').
  { rewrite <- E1, <- E. symmetry. apply make_ellipse_single. }
  injection E2 as <-.
  destruct (H (13, 10, 9)) as [H1 _].
  - unfold in_bounds. rewrite Hshape. reflexivity.
  - assert (Hset : data m1 (13, 10, 9) = 1).
    { rewrite Hdata.
      replace (ellipse_sets (0, 0, 0) (15, 15, 15) (7, 7, 7) (7, 7, 7)
                 (13, 10, 9)) with true by (vm_compute; reflexivity).
      reflexivity. }
    specialize (H1 Hset). vm_compute in H1. discriminate.
Qed.

(** C5, amended: for each nodule the ellipsoid filler returns, and it sets
    a voxel to 1 exactly when the voxel, relative to the window, lies in
    the scan range and the float64 evaluation of
    ((x-cx)/rx)**2 + ((y-cy)/ry)**2 + ((z-cz)/rz)**2 is strictly less than
    1; every other voxel keeps its value. In particular a voxel at one
    radius from the center along a single axis is never set. *)
Theorem ellipse_item_membership {V : Type} (one : V)
  (start end_ centers radiuses : list (vec3 Z)) (i : nat)
  (batch_mask : ndarray V) (s e center radius : vec3 Z) :
  nth_error start i = Some s -> nth_error end_ i = Some e ->
  nth_error centers i = Some center -> nth_error radiuses i = Some radius ->
  shape_ok (shape batch_mask) -> window_ok (shape batch_mask) s e ->
  radius_ok radius -> int64_vec radius ->
  exists m',
    ellipse_item one start end_ centers radiuses i batch_mask = Ok m' /\
    shape m' = shape batch_mask /\
    (forall q,
       data m' q
       = if in_window (scan_begin center radius)
              (scan_end s e center radius) (zip3 Z.sub q s)
            && (quadratic_form (zip3 Z.sub q s) center radius <? 1)%float
         then one else data batch_mask q) /\
    (forall q a,
       (proj q a - proj s a - proj center a = proj radius a \/
        proj q a - proj s a - proj center a = - proj radius a) ->
       (forall b, b <> a -> proj q b - proj s b = proj center b) ->
       data m' q = data batch_mask q).
Proof.
  intros Hs He Hc Hr Hsh Hw Hrad Hint.
  destruct (ellipse_item_data one start end_ centers radiuses i batch_mask
              s e center radius) as (m' & E & Hshape & Hdata);
    try assumption.
  exists m'. split; [exact E|]. split; [exact Hshape|]. split.
  - exact Hdata.
  - intros q a Ha Hb. rewrite Hdata. unfold ellipse_sets.
    rewrite (boundary_voxel_not_inside (zip3 Z.sub q s) center radius a).
    + rewrite andb_false_r. reflexivity.
    + exact Hint.
    + rewrite proj_zip3. exact Ha.
    + intros b Hne. rewrite proj_zip3. apply Hb. exact Hne.
Qed.

Lemma ellipse_item_membership_witness :
  exists m',
    ellipse_item 1 [(1, 1, 1)] [(4, 4, 4)] [(1, 1, 1)] [(1, 1, 1)] 0
      example_batch = Ok m' /\
    data m' (2, 2, 2) = 1 /\ data m' (3, 2, 2) = 0.
Proof.
  destruct (ellipse_item_membership 1 [(1, 1, 1)] [(4, 4, 4)] [(1, 1, 1)]
              [(1, 1, 1)] 0 example_batch (1, 1, 1) (4, 4, 4) (1, 1, 1)
              (1, 1, 1)) as (m' & E & _ & Hdata & Hboundary);
    try reflexivity; try by_axes.
  exists m'. split; [exact E|]. split.
  - rewrite Hdata. vm_compute. reflexivity.
  - rewrite (Hboundary (3, 2, 2) ax0).
    + reflexivity.
    + left. reflexivity.
    + intros b Hb. destruct b; try reflexivity. contradiction.
Defined.

(** ** Rounding of binary64 numbers *)

Lemma rhe_spec (m n : Z) :
  0 <= m -> 0 <= n ->
  0 <= F64.round_half_even_div m n /\
  - 2 ^ n <= 2 * m - 2 * F64.round_half_even_div m n * 2 ^ n <= 2 ^ n /\
  (2 * m - 2 * F64.round_half_even_div m n * 2 ^ n = 2 ^ n ->
   Z.even (F64.round_half_even_div m n) = true) /\
  (2 * m - 2 * F64.round_half_even_div m n * 2 ^ n = - 2 ^ n ->
   Z.even (F64.round_half_even_div m n) = true).
Proof.
  intros Hm Hn. unfold F64.round_half_even_div.
  assert (HP : 0 < 2 ^ n) by (apply Z.pow_pos_nonneg; lia).
  pose proof (Z.div_mod m (2 ^ n) ltac:(lia)) as E.
  pose proof (Z.mod_pos_bound m (2 ^ n) HP) as B.
  assert (Hq : 0 <= m / 2 ^ n) by (apply Z.div_pos; lia).
  set (P := 2 ^ n) in *. set (q := m / P) in *. set (r := m mod P) in *.
  destruct (Z.compare_spec (2 * r) P) as [H|H|H].
  - destruct (Z.even q) eqn:Ev.
    + repeat split; try nia. intros _. exact Ev.
    + repeat split; try nia. intros _.
      rewrite Z.even_add, Ev. reflexivity.
  - repeat split; try nia.
  - repeat split; try nia.
Qed.

Lemma rhe_mono (m1 n1 m2 n2 : Z) :
  0 <= m1 -> 0 <= n1 -> 0 <= m2 -> 0 <= n2 ->
  m1 * 2 ^ n2 <= m2 * 2 ^ n1 ->
  F64.round_half_even_div m1 n1 <= F64.round_half_even_div m2 n2.
Proof.
  intros Hm1 Hn1 Hm2 Hn2 Hle.
  destruct (rhe_spec m1 n1 Hm1 Hn1) as (_ & B1 & T1 & U1).
  destruct (rhe_spec m2 n2 Hm2 Hn2) as (_ & B2 & T2 & U2).
  assert (HP : 0 < 2 ^ n1) by (apply Z.pow_pos_nonneg; lia).
  assert (HQ : 0 < 2 ^ n2) by (apply Z.pow_pos_nonneg; lia).
  set (P := 2 ^ n1) in *. set (Q := 2 ^ n2) in *.
  set (r1 := F64.round_half_even_div m1 n1) in *.
  set (r2 := F64.round_half_even_div m2 n2) in *.
  destruct (Z_le_gt_dec r1 r2) as [H|H]; [exact H|exfalso].
  assert (A1 : (2 * r1 - 1) * P <= 2 * m1) by lia.
  assert (A2 : 2 * m2 <= (2 * r2 + 1) * Q) by lia.
  assert (A3 : (2 * r1 - 1) * (P * Q) <= (2 * r2 + 1) * (P * Q)) by nia.
  assert (A4 : 2 * r1 - 1 <= 2 * r2 + 1) by nia.
  assert (E : r1 = r2 + 1) by lia.
  assert (E1 : 2 * m1 = (2 * r1 - 1) * P) by nia.
  assert (E2 : 2 * m2 = (2 * r2 + 1) * Q) by nia.
  assert (V1 : Z.even r1 = true) by (apply U1; lia).
  assert (V2 : Z.even r2 = true) by (apply T2; lia).
  rewrite E, Z.even_add, V2 in V1. discriminate.
Qed.

Lemma iter_pos_nat {A : Type} (f : A -> A) (p : positive) (x : A) :
  SpecFloat.iter_pos f p x = Nat.iter (Pos.to_nat p) f x.
Proof.
  revert x. induction p as [p IH|p IH|]; intros x; cbn [SpecFloat.iter_pos].
  - rewrite !IH. rewrite Pos2Nat.inj_xI.
    rewrite <- Nat.iter_add. rewrite <- Nat.iter_succ_r.
    f_equal. lia.
  - rewrite !IH. rewrite Pos2Nat.inj_xO.
    rewrite <- Nat.iter_add. f_equal. lia.
  - reflexivity.
Qed.

Lemma shr_1_nonneg (m : Z) (r s : bool) :
  0 <= m ->
  shr_1 {| shr_m := m; shr_r := r; shr_s := s |}
  = {| shr_m := m / 2; shr_r := Z.odd m; shr_s := r || s |}.
Proof.
  intros Hm. rewrite <- Z.div2_div.
  destruct m as [|[p|p|]|p]; try lia; reflexivity.
Qed.

Lemma shr_iter (m : Z) (k : nat) :
  0 <= m ->
  Nat.iter k shr_1 {| shr_m := m; shr_r := false; shr_s := false |}
  = {| shr_m := m / 2 ^ Z.of_nat k;
       shr_r := round_bit m (Z.of_nat k);
       shr_s := sticky_bit m (Z.of_nat k) |}.
Proof.
  intros Hm. induction k as [|k IH].
  - change (Nat.iter 0 shr_1 ?x) with x. unfold round_bit, sticky_bit.
    change (2 ^ Z.of_nat 0) with 1. rewrite Z.div_1_r, Z.mod_1_r.
    reflexivity.
  - rewrite Nat.iter_succ, IH.
    assert (HP : 0 < 2 ^ Z.of_nat k) by (apply Z.pow_pos_nonneg; lia).
    assert (Hq : 0 <= m / 2 ^ Z.of_nat k) by (apply Z.div_pos; lia).
    rewrite shr_1_nonneg by exact Hq.
    assert (EP : 2 ^ Z.of_nat (S k) = 2 ^ Z.of_nat k * 2).
    { rewrite Nat2Z.inj_succ, Z.pow_succ_r by lia. lia. }
    assert (Ediv : m / 2 ^ Z.of_nat (S k) = m / 2 ^ Z.of_nat k / 2).
    { rewrite EP. rewrite Z.div_div by lia. reflexivity. }
    assert (Emod : m mod 2 ^ Z.of_nat (S k)
                   = m mod 2 ^ Z.of_nat k
                     + 2 ^ Z.of_nat k * ((m / 2 ^ Z.of_nat k) mod 2)).
    { rewrite EP. apply Z.rem_mul_r; lia. }
    pose proof (Z.mod_pos_bound m (2 ^ Z.of_nat k) HP) as B.
    pose proof (Zmod_odd (m / 2 ^ Z.of_nat k)) as Hodd.
    unfold round_bit, sticky_bit. rewrite Ediv, Emod, EP.
    set (P := 2 ^ Z.of_nat k) in *. set (r := m mod P) in *.
    set (q := m / P) in *.
    f_equal.
    + destruct (Z.odd q); rewrite Hodd.
      * symmetry. apply Z.leb_le. nia.
      * symmetry. apply Z.leb_gt. nia.
    + apply eq_true_iff_eq.
      rewrite orb_true_iff, !negb_true_iff, !orb_false_iff, Z.leb_le,
        !Z.eqb_neq.
      destruct (Z.odd q); rewrite Hodd; lia.
Qed.

Lemma round_shifted (m k : Z) :
  0 <= m -> 0 <= k ->
  round_nearest_even (m / 2 ^ k)
    (loc_of_shr_record
       {| shr_m := m / 2 ^ k; shr_r := round_bit m k;
          shr_s := sticky_bit m k |})
  = F64.round_half_even_div m k.
Proof.
  intros Hm Hk. unfold F64.round_half_even_div, round_bit, sticky_bit.
  assert (HP : 0 < 2 ^ k) by (apply Z.pow_pos_nonneg; lia).
  pose proof (Z.mod_pos_bound m (2 ^ k) HP) as B.
  set (P := 2 ^ k) in *. set (r := m mod P) in *.
  destruct (Z.compare_spec (2 * r) P) as [H|H|H];
    destruct (Z.leb_spec P (2 * r)), (Z.eqb_spec (2 * r) 0),
      (Z.eqb_spec (2 * r) P); cbn; try lia; try reflexivity.
Qed.

(** Shifting an exact mantissa right and rounding it. *)
Lemma shr_round (m e n : Z) :
  0 <= m -> 0 <= n ->
  let '(mrs, e') := shr {| shr_m := m; shr_r := false; shr_s := false |} e n in
  round_nearest_even (shr_m mrs) (loc_of_shr_record mrs)
  = F64.round_half_even_div m n /\ e' = e + Z.max 0 n.
Proof.
  intros Hm Hn. unfold shr. destruct n as [|p|p]; try lia.
  - split; [|lia]. cbn. unfold F64.round_half_even_div.
    change (2 ^ 0) with 1. rewrite Z.div_1_r, Z.mod_1_r. reflexivity.
  - rewrite iter_pos_nat, shr_iter by exact Hm.
    rewrite positive_nat_Z. cbn [shr_m].
    split; [apply round_shifted; lia|lia].
Qed.

(** Powers of two *)

Lemma pow2_pos (a : Z) : 0 <= a -> 0 < 2 ^ a.
Proof. intros H. apply Z.pow_pos_nonneg; lia. Qed.

Lemma pow2_add (a b : Z) : 0 <= a -> 0 <= b -> 2 ^ (a + b) = 2 ^ a * 2 ^ b.
Proof. intros Ha Hb. apply Z.pow_add_r; assumption. Qed.

Lemma pow2_le (a b : Z) : 0 <= a <= b -> 2 ^ a <= 2 ^ b.
Proof. intros H. apply Z.pow_le_mono_r; lia. Qed.

Lemma pow2_lt (a b : Z) : 0 <= a < b -> 2 ^ a < 2 ^ b.
Proof. intros H. apply Z.pow_lt_mono_r; lia. Qed.

(** Number of binary digits *)

Lemma digits_pos (p : positive) : 1 <= Z.pos (digits2_pos p).
Proof. lia. Qed.

Lemma digits_bounds (p : positive) :
  2 ^ (Z.pos (digits2_pos p) - 1) <= Z.pos p < 2 ^ Z.pos (digits2_pos p).
Proof.
  induction p as [p IH|p IH|]; cbn [digits2_pos].
  - rewrite Pos2Z.inj_succ.
    replace (Z.succ (Z.pos (digits2_pos p)) - 1)
      with (Z.succ (Z.pos (digits2_pos p) - 1)) by lia.
    rewrite !Z.pow_succ_r by lia. lia.
  - rewrite Pos2Z.inj_succ.
    replace (Z.succ (Z.pos (digits2_pos p)) - 1)
      with (Z.succ (Z.pos (digits2_pos p) - 1)) by lia.
    rewrite !Z.pow_succ_r by lia. lia.
  - cbn. lia.
Qed.

Lemma digits_le (p : positive) (d : Z) :
  Z.pos p < 2 ^ d -> 0 <= d -> Z.pos (digits2_pos p) <= d.
Proof.
  intros H Hd. destruct (Z_le_gt_dec (Z.pos (digits2_pos p)) d) as [L|G];
    [exact L|exfalso].
  pose proof (digits_bounds p) as [B _].
  pose proof (pow2_le d (Z.pos (digits2_pos p) - 1) ltac:(lia)). lia.
Qed.

Lemma digits_ge (p : positive) (d : Z) :
  2 ^ (d - 1) <= Z.pos p -> 1 <= d -> d <= Z.pos (digits2_pos p).
Proof.
  intros H Hd. destruct (Z_le_gt_dec d (Z.pos (digits2_pos p))) as [L|G];
    [exact L|exfalso].
  pose proof (digits_bounds p) as [_ B].
  pose proof (pow2_le (Z.pos (digits2_pos p)) (d - 1) ltac:(lia)). lia.
Qed.

Lemma digits_mul (p q : positive) :
  Z.pos (digits2_pos p) + Z.pos (digits2_pos q) - 1
  <= Z.pos (digits2_pos (p * q)).
Proof.
  apply digits_ge; [|lia].
  pose proof (digits_bounds p) as [Bp _].
  pose proof (digits_bounds q) as [Bq _].
  replace (Z.pos (digits2_pos p) + Z.pos (digits2_pos q) - 1 - 1)
    with ((Z.pos (digits2_pos p) - 1) + (Z.pos (digits2_pos q) - 1)) by lia.
  rewrite pow2_add by lia. rewrite Pos2Z.inj_mul.
  pose proof (pow2_pos (Z.pos (digits2_pos p) - 1) ltac:(lia)).
  pose proof (pow2_pos (Z.pos (digits2_pos q) - 1) ltac:(lia)).
  nia.
Qed.

Lemma iter_xO (p d : positive) :
  Z.pos (Pos.iter xO p d) = Z.pos p * 2 ^ Z.pos d.
Proof.
  induction d as [|d IH] using Pos.peano_ind.
  - cbn. lia.
  - rewrite Pos.iter_succ, Pos2Z.inj_succ, Z.pow_succ_r by lia.
    rewrite Pos2Z.inj_xO, IH. lia.
Qed.

Lemma digits_iter_xO (p d : positive) :
  Z.pos (digits2_pos (Pos.iter xO p d)) = Z.pos (digits2_pos p) + Z.pos d.
Proof.
  induction d as [|d IH] using Pos.peano_ind.
  - cbn. lia.
  - rewrite Pos.iter_succ. cbn [digits2_pos].
    rewrite Pos2Z.inj_succ, IH. lia.
Qed.

(** Exact values of binary64 numbers, in units of 2^-2200 *)

Lemma fexp_eq (k : Z) : fexp prec emax k = Z.max (k - 53) (-1074).
Proof. reflexivity. Qed.

Lemma shr_nonpos (mrs : shr_record) (e n : Z) :
  n <= 0 -> shr mrs e n = (mrs, e).
Proof. intros H. destruct n; try reflexivity. lia. Qed.

Lemma inf_value_pos : 0 < inf_value.
Proof. apply pow2_pos. unfold scale. lia. Qed.

(** The rounded mantissa has at most 53 bits, or is 2^53. *)
Lemma rounded_le (m n d : Z) :
  0 <= m -> 0 <= n -> m < 2 ^ d -> 0 <= d <= n + 53 ->
  F64.round_half_even_div m n <= 2 ^ 53.
Proof.
  intros Hm Hn Hd Hdn.
  destruct (rhe_spec m n Hm Hn) as (_ & B & _ & _).
  pose proof (pow2_le d (n + 53) ltac:(lia)) as L.
  rewrite pow2_add in L by lia.
  pose proof (pow2_pos n Hn).
  set (P := 2 ^ n) in *. set (r := F64.round_half_even_div m n) in *.
  assert ((2 * r - 1) * P < 2 ^ 54 * P).
  { change (2 ^ 54) with (2 * 2 ^ 53). lia. }
  assert (2 * r - 1 < 2 ^ 54) by nia.
  change (2 ^ 54) with (2 * 2 ^ 53) in *. lia.
Qed.

(** In the normal range the rounded mantissa has at least 53 bits. *)
Lemma rounded_ge (m n : Z) :
  0 <= n -> 2 ^ (n + 52) <= m ->
  2 ^ 52 <= F64.round_half_even_div m n.
Proof.
  intros Hn Hm.
  pose proof (pow2_pos (n + 52) ltac:(lia)).
  destruct (rhe_spec m n ltac:(lia) Hn) as (_ & B & _ & _).
  rewrite pow2_add in Hm by lia.
  pose proof (pow2_pos n Hn).
  set (P := 2 ^ n) in *. set (r := F64.round_half_even_div m n) in *.
  assert (2 * (P * 2 ^ 52) <= (2 * r + 1) * P) by lia.
  assert (2 * 2 ^ 52 <= 2 * r + 1) by nia.
  lia.
Qed.

Lemma shr_fexp_exact (m e : Z) :
  0 <= m ->
  e <= fexp prec emax (Zdigits2 m + e) ->
  exists mrs,
    shr_fexp prec emax m e loc_Exact
    = (mrs, fexp prec emax (Zdigits2 m + e)) /\
    round_nearest_even (shr_m mrs) (loc_of_shr_record mrs)
    = F64.round_half_even_div m (fexp prec emax (Zdigits2 m + e) - e).
Proof.
  intros Hm Hn. unfold shr_fexp. cbn [shr_record_of_loc].
  pose proof (shr_round m e (fexp prec emax (Zdigits2 m + e) - e) Hm
                ltac:(lia)) as Hshr.
  destruct (shr {| shr_m := m; shr_r := false; shr_s := false |} e
              (fexp prec emax (Zdigits2 m + e) - e)) as [mrs e'].
  destruct Hshr as [Hr He']. exists mrs. split; [|exact Hr].
  f_equal. lia.
Qed.

Lemma round_aux_exact (s : bool) (pm : positive) (e : Z) :
  - scale <= e ->
  e <= fexp prec emax (Z.pos (digits2_pos pm) + e) ->
  has_sign s (binary_round_aux prec emax s (Z.pos pm) e loc_Exact) /\
  magnitude (binary_round_aux prec emax s (Z.pos pm) e loc_Exact)
  = Z.min
      (F64.round_half_even_div (Z.pos pm)
         (fexp prec emax (Z.pos (digits2_pos pm) + e) - e)
       * 2 ^ (fexp prec emax (Z.pos (digits2_pos pm) + e) + scale))
      inf_value.
Proof.
  intros He Hn.
  set (d := Z.pos (digits2_pos pm)) in *.
  set (t := fexp prec emax (d + e)) in *.
  assert (Ht : t = Z.max (d + e - 53) (-1074)) by apply fexp_eq.
  pose proof (digits_bounds pm) as [Dlo Dhi]. fold d in Dlo, Dhi.
  assert (Hd : 1 <= d) by (unfold d; lia).
  pose proof (rhe_spec (Z.pos pm) (t - e) ltac:(lia) ltac:(lia))
    as (Hr0 & _).
  pose proof (rounded_le (Z.pos pm) (t - e) d ltac:(lia) ltac:(lia) Dhi
                ltac:(lia)) as Hr53.
  assert (Hnormal : -1074 < t -> 2 ^ 52 <= F64.round_half_even_div
                                             (Z.pos pm) (t - e)).
  { intros Hgt. apply rounded_ge; [lia|].
    replace (t - e + 52) with (d - 1) by lia. exact Dlo. }
  pose proof inf_value_pos as Hinf.
  assert (HX : 0 < 2 ^ (t + scale)) by (apply pow2_pos; unfold scale; lia).
  destruct (shr_fexp_exact (Z.pos pm) e ltac:(lia) Hn) as (mrs' & E1 & Hr).
  cbn [Zdigits2] in E1, Hr. fold d in E1, Hr. fold t in E1, Hr.
  unfold binary_round_aux. rewrite E1. cbv beta iota. rewrite Hr.
  set (r := F64.round_half_even_div (Z.pos pm) (t - e)) in *.
  unfold shr_fexp. cbn [shr_record_of_loc].
  destruct r as [|pr|pr] eqn:Er; try lia.
  - cbn [Zdigits2]. rewrite shr_nonpos by (rewrite fexp_eq; lia).
    cbn [shr_m]. split; [reflexivity|]. cbn [magnitude]. lia.
  - cbn [Zdigits2].
    pose proof (digits_bounds pr) as [Elo Ehi].
    set (d' := Z.pos (digits2_pos pr)) in *.
    assert (Hd' : 1 <= d') by (unfold d'; lia).
    assert (Hd54 : d' <= 54).
    { apply digits_le; [|lia]. change (2 ^ 54) with (2 * 2 ^ 53). lia. }
    destruct (Z_le_gt_dec d' 53) as [Hsmall|Hbig].
    + rewrite shr_nonpos by (rewrite fexp_eq; lia).
      cbn [shr_m].
      assert (Hlt : Z.pos pr < 2 ^ 53).
      { pose proof (pow2_le d' 53 ltac:(lia)). lia. }
      destruct (Z.leb_spec t (emax - prec)) as [Hle|Hgt];
        change (emax - prec) with 971 in *.
      * split; [reflexivity|]. cbn [magnitude].
        assert (Z.pos pr * 2 ^ (t + scale) < inf_value); [|lia].
        unfold inf_value.
        replace (1024 + scale) with (53 + (971 + scale)) by lia.
        rewrite (pow2_add 53) by (unfold scale; lia).
        pose proof (pow2_le (t + scale) (971 + scale)
                      ltac:(unfold scale in *; lia)).
        nia.
      * split; [reflexivity|]. cbn [magnitude].
        assert (inf_value <= Z.pos pr * 2 ^ (t + scale)); [|lia].
        unfold inf_value.
        replace (1024 + scale) with (52 + (972 + scale)) by lia.
        rewrite (pow2_add 52) by (unfold scale; lia).
        pose proof (pow2_le (972 + scale) (t + scale)
                      ltac:(unfold scale in *; lia)).
        pose proof (pow2_pos (972 + scale) ltac:(unfold scale; lia)).
        specialize (Hnormal ltac:(lia)). nia.
    + assert (Ed' : d' = 54) by lia.
      assert (Epr : Z.pos pr = 2 ^ 53).
      { rewrite Ed' in Elo. change (54 - 1) with 53 in Elo. lia. }
      replace (fexp prec emax (d' + t) - t) with 1
        by (rewrite fexp_eq; lia).
      assert (Epos : pr = 9007199254740992%positive)
        by (apply Pos2Z.inj; rewrite Epr; reflexivity).
      subst pr. cbn [shr SpecFloat.iter_pos shr_1 shr_m].
      destruct (Z.leb_spec (t + 1) (emax - prec)) as [Hle|Hgt];
        change (emax - prec) with 971 in *.
      * split; [reflexivity|]. cbn [magnitude].
        replace (t + 1 + scale) with (1 + (t + scale))
          by lia.
        rewrite (pow2_add 1) by (unfold scale in *; lia).
        assert (9007199254740992 * 2 ^ (t + scale) < inf_value); [|lia].
        unfold inf_value.
        replace (1024 + scale) with (53 + (971 + scale)) by lia.
        rewrite (pow2_add 53) by (unfold scale; lia).
        pose proof (pow2_lt (t + scale) (971 + scale)
                      ltac:(unfold scale in *; lia)).
        change (2 ^ 53) with 9007199254740992. lia.
      * split; [reflexivity|]. cbn [magnitude].
        assert (inf_value <= 9007199254740992 * 2 ^ (t + scale)); [|lia].
        unfold inf_value.
        replace (1024 + scale) with (53 + (971 + scale)) by lia.
        rewrite (pow2_add 53) by (unfold scale; lia).
        pose proof (pow2_le (971 + scale) (t + scale)
                      ltac:(unfold scale in *; lia)).
        change (2 ^ 53) with 9007199254740992. lia.
Qed.

Lemma rounded_value_nonneg (pm : positive) (e : Z) :
  - scale <= e ->
  e <= fexp prec emax (Z.pos (digits2_pos pm) + e) ->
  0 <= rounded_value pm e.
Proof.
  intros He Hn. unfold rounded_value.
  destruct (rhe_spec (Z.pos pm)
              (fexp prec emax (Z.pos (digits2_pos pm) + e) - e)
              ltac:(lia) ltac:(lia)) as (H & _).
  pose proof (pow2_pos (fexp prec emax (Z.pos (digits2_pos pm) + e) + scale)
                ltac:(unfold scale in *; lia)).
  nia.
Qed.

(** Rounding is monotone. *)
Lemma rounded_value_mono (pm1 : positive) (e1 : Z) (pm2 : positive) (e2 : Z) :
  - scale <= e1 -> - scale <= e2 ->
  e1 <= fexp prec emax (Z.pos (digits2_pos pm1) + e1) ->
  e2 <= fexp prec emax (Z.pos (digits2_pos pm2) + e2) ->
  Z.pos pm1 * 2 ^ (e1 + scale) <= Z.pos pm2 * 2 ^ (e2 + scale) ->
  rounded_value pm1 e1 <= rounded_value pm2 e2.
Proof.
  intros He1 He2 Hn1 Hn2 Hle. unfold rounded_value.
  pose proof (digits_bounds pm1) as [Lo1 Hi1].
  pose proof (digits_bounds pm2) as [Lo2 Hi2].
  set (d1 := Z.pos (digits2_pos pm1)) in *.
  set (d2 := Z.pos (digits2_pos pm2)) in *.
  assert (Hd1 : 1 <= d1) by (unfold d1; lia).
  assert (Hd2 : 1 <= d2) by (unfold d2; lia).
  set (t1 := fexp prec emax (d1 + e1)) in *.
  set (t2 := fexp prec emax (d2 + e2)) in *.
  assert (Ht1 : t1 = Z.max (d1 + e1 - 53) (-1074)) by apply fexp_eq.
  assert (Ht2 : t2 = Z.max (d2 + e2 - 53) (-1074)) by apply fexp_eq.
  set (r1 := F64.round_half_even_div (Z.pos pm1) (t1 - e1)).
  set (r2 := F64.round_half_even_div (Z.pos pm2) (t2 - e2)).
  assert (HA1 : 0 < 2 ^ (e1 + scale)) by (apply pow2_pos; lia).
  assert (HA2 : 0 < 2 ^ (e2 + scale)) by (apply pow2_pos; lia).
  assert (HP1 : 0 < 2 ^ (t1 - e1)) by (apply pow2_pos; lia).
  assert (HP2 : 0 < 2 ^ (t2 - e2)) by (apply pow2_pos; lia).
  assert (HX1 : 2 ^ (t1 + scale) = 2 ^ (t1 - e1) * 2 ^ (e1 + scale)).
  { rewrite <- pow2_add by lia. f_equal. lia. }
  assert (HX2 : 2 ^ (t2 + scale) = 2 ^ (t2 - e2) * 2 ^ (e2 + scale)).
  { rewrite <- pow2_add by lia. f_equal. lia. }
  destruct (Z.lt_trichotomy t1 t2) as [Hlt|[Heq|Hgt]].
  - (* the second number lies in a higher binade *)
    assert (B1 : r1 <= 2 ^ 53).
    { apply (rounded_le (Z.pos pm1) (t1 - e1) d1); lia. }
    assert (B2 : 2 ^ 52 <= r2).
    { apply rounded_ge; [lia|].
      replace (t2 - e2 + 52) with (d2 - 1) by lia. exact Lo2. }
    assert (HX : 0 < 2 ^ (t1 + scale)) by (apply pow2_pos; lia).
    assert (HY : 2 * 2 ^ (t1 + scale) <= 2 ^ (t2 + scale)).
    { rewrite <- Z.pow_succ_r by lia. apply pow2_le. lia. }
    change (2 ^ 53) with (2 * 2 ^ 52) in B1.
    assert (0 < 2 ^ 52) by reflexivity.
    set (X := 2 ^ (t1 + scale)) in *. set (Y := 2 ^ (t2 + scale)) in *.
    set (c := 2 ^ 52) in *.
    assert (r1 * X <= 2 * c * X) by nia.
    assert (c * (2 * X) <= c * Y) by nia.
    assert (c * Y <= r2 * Y) by nia.
    lia.
  - (* same binade *)
    assert (Hr : r1 <= r2).
    { apply rhe_mono; try lia.
      assert (EX : 2 ^ (t1 + scale) = 2 ^ (t2 + scale))
        by (rewrite Heq; reflexivity).
      set (A1 := 2 ^ (e1 + scale)) in *. set (A2 := 2 ^ (e2 + scale)) in *.
      set (P1 := 2 ^ (t1 - e1)) in *. set (P2 := 2 ^ (t2 - e2)) in *.
      assert (E : P1 * A1 = P2 * A2) by lia.
      assert (H1 : Z.pos pm1 * A1 * (P1 * P2)
                   <= Z.pos pm2 * A2 * (P1 * P2)) by nia.
      assert (H2 : Z.pos pm1 * P2 * (P1 * A1)
                   <= Z.pos pm2 * P1 * (P1 * A1)) by nia.
      assert (0 < P1 * A1) by nia.
      nia. }
    rewrite Heq.
    assert (0 < 2 ^ (t2 + scale)) by (apply pow2_pos; lia).
    nia.
  - (* impossible: the first number would be the larger one *)
    exfalso.
    assert (Hd : d2 + e2 <= d1 - 1 + e1) by lia.
    assert (H1 : 2 ^ (d1 - 1) * 2 ^ (e1 + scale)
                 <= Z.pos pm1 * 2 ^ (e1 + scale)) by nia.
    assert (H2 : Z.pos pm2 * 2 ^ (e2 + scale)
                 < 2 ^ d2 * 2 ^ (e2 + scale)) by nia.
    rewrite <- pow2_add in H1, H2 by lia.
    pose proof (pow2_le (d2 + (e2 + scale)) (d1 - 1 + (e1 + scale))
                  ltac:(lia)).
    lia.
Qed.

Lemma value_sign (s : bool) (x : spec_float) :
  has_sign s x ->
  value x = if s then - magnitude x else magnitude x.
Proof.
  destruct x as [s'|s'| |s' m e]; cbn; try tauto; intros ->;
    destruct s; reflexivity.
Qed.

(** What validity says of a finite number. *)
Lemma bounded_inv (m : positive) (e : Z) :
  bounded prec emax m e = true ->
  -1074 <= e <= 971 /\
  Z.pos (digits2_pos m) <= 53 /\
  (-1074 < e -> Z.pos (digits2_pos m) = 53) /\
  0 < Z.pos m * 2 ^ (e + scale) < inf_value.
Proof.
  unfold bounded, canonical_mantissa. intros H.
  apply andb_true_iff in H. destruct H as [H1 H2].
  apply Z.eqb_eq in H1. apply Z.leb_le in H2.
  rewrite fexp_eq in H1. change (emax - prec) with 971 in H2.
  pose proof (digits_bounds m) as [Lo Hi].
  set (d := Z.pos (digits2_pos m)) in *.
  assert (Hd : d <= 53) by lia.
  split; [lia|]. split; [exact Hd|]. split; [lia|].
  pose proof (pow2_pos (e + scale) ltac:(unfold scale; lia)) as HX.
  split; [nia|].
  unfold inf_value.
  replace (1024 + scale) with (53 + (971 + scale)) by lia.
  rewrite (pow2_add 53) by (unfold scale; lia).
  pose proof (pow2_le d 53 ltac:(lia)).
  pose proof (pow2_le (e + scale) (971 + scale) ltac:(unfold scale; lia)).
  nia.
Qed.

(** Between canonical numbers the one with the larger exponent is the
    larger one. *)
Lemma canonical_lt (m1 : positive) (e1 : Z) (m2 : positive) (e2 : Z) :
  bounded prec emax m1 e1 = true -> bounded prec emax m2 e2 = true ->
  e1 < e2 ->
  Z.pos m1 * 2 ^ (e1 + scale) < Z.pos m2 * 2 ^ (e2 + scale).
Proof.
  intros H1 H2 Hlt.
  destruct (bounded_inv m1 e1 H1) as (B1 & D1 & _ & _).
  destruct (bounded_inv m2 e2 H2) as (B2 & _ & N2 & _).
  specialize (N2 ltac:(lia)).
  pose proof (digits_bounds m1) as [_ Hi1].
  pose proof (digits_bounds m2) as [Lo2 _].
  rewrite N2 in Lo2. change (53 - 1) with 52 in Lo2.
  pose proof (pow2_le (Z.pos (digits2_pos m1)) 53 ltac:(lia)).
  pose proof (pow2_pos (e1 + scale) ltac:(unfold scale; lia)).
  assert (HY : 2 * 2 ^ (e1 + scale) <= 2 ^ (e2 + scale)).
  { rewrite <- Z.pow_succ_r by (unfold scale; lia).
    apply pow2_le. unfold scale. lia. }
  change (2 ^ 53) with (2 * 2 ^ 52) in *.
  assert (0 < 2 ^ 52) by reflexivity.
  set (c := 2 ^ 52) in *. set (X := 2 ^ (e1 + scale)) in *.
  set (Y := 2 ^ (e2 + scale)) in *.
  assert (Z.pos m1 * X < 2 * c * X) by nia.
  assert (c * (2 * X) <= c * Y) by nia.
  assert (c * Y <= Z.pos m2 * Y) by nia.
  lia.
Qed.

Lemma compare_finite (m1 : positive) (e1 : Z) (m2 : positive) (e2 : Z) :
  bounded prec emax m1 e1 = true -> bounded prec emax m2 e2 = true ->
  match e1 ?= e2 with
  | Lt => Lt
  | Gt => Gt
  | Eq => Pos.compare_cont Eq m1 m2
  end
  = (Z.pos m1 * 2 ^ (e1 + scale) ?= Z.pos m2 * 2 ^ (e2 + scale)).
Proof.
  intros H1 H2. symmetry. destruct (Z.compare_spec e1 e2) as [E|L|G].
  - subst e2. destruct (bounded_inv m1 e1 H1) as (B1 & _).
    pose proof (pow2_pos (e1 + scale) ltac:(unfold scale; lia)).
    change (Pos.compare_cont Eq m1 m2) with (Z.pos m1 ?= Z.pos m2).
    destruct (Z.compare_spec (Z.pos m1) (Z.pos m2)) as [E|L|G].
    + rewrite E. apply Z.compare_refl.
    + apply Z.compare_lt_iff. nia.
    + apply Z.compare_gt_iff. nia.
  - apply Z.compare_lt_iff. apply canonical_lt; assumption.
  - apply Z.compare_gt_iff. apply canonical_lt; assumption.
Qed.

(** The comparison of valid numbers is the comparison of their values. *)
Lemma compare_value (x y : spec_float) :
  valid_binary x = true -> valid_binary y = true ->
  x <> S754_nan -> y <> S754_nan ->
  SFcompare x y = Some (value x ?= value y).
Proof.
  intros Vx Vy Nx Ny. pose proof inf_value_pos as Hinf.
  destruct x as [sx|sx| |sx mx ex], y as [sy|sy| |sy my ey];
    try congruence; cbn [SFcompare value]; cbn [valid_binary] in Vx, Vy;
    try (destruct (bounded_inv mx ex Vx) as (_ & _ & _ & Bx));
    try (destruct (bounded_inv my ey Vy) as (_ & _ & _ & By));
    f_equal; symmetry.
  - destruct sy; [apply Z.compare_gt_iff|apply Z.compare_lt_iff]; lia.
  - destruct sy; [apply Z.compare_gt_iff|apply Z.compare_lt_iff]; lia.
  - destruct sx; [apply Z.compare_lt_iff|apply Z.compare_gt_iff]; lia.
  - destruct sx, sy; try apply Z.compare_refl;
      [apply Z.compare_lt_iff|apply Z.compare_gt_iff]; lia.
  - destruct sx, sy;
      try (apply Z.compare_lt_iff; lia); apply Z.compare_gt_iff; lia.
  - destruct sx; [apply Z.compare_lt_iff|apply Z.compare_gt_iff]; lia.
  - destruct sx, sy;
      try (apply Z.compare_lt_iff; lia); apply Z.compare_gt_iff; lia.
  - destruct sx, sy.
    + rewrite Z.compare_opp, Z.compare_antisym.
      rewrite <- (compare_finite mx ex my ey) by assumption.
      destruct (ex ?= ey); reflexivity.
    + apply Z.compare_lt_iff; lia.
    + apply Z.compare_gt_iff; lia.
    + rewrite compare_finite by assumption. reflexivity.
Qed.

(** Alignment before rounding keeps the value and makes the shift of the
    rounding non-negative. *)
Lemma shl_align_fexp (pm : positive) (e : Z) :
  - scale <= e ->
  let '(mz, ez) :=
    shl_align pm e (fexp prec emax (Z.pos (digits2_pos pm) + e)) in
  Z.pos mz * 2 ^ (ez + scale) = Z.pos pm * 2 ^ (e + scale) /\
  - scale <= ez /\
  ez <= fexp prec emax (Z.pos (digits2_pos mz) + ez).
Proof.
  intros He. unfold shl_align.
  set (d := Z.pos (digits2_pos pm)).
  pose proof (fexp_eq (d + e)) as Ht.
  set (t := fexp prec emax (d + e)) in *.
  destruct (t - e) as [|p|p] eqn:E.
  - fold d. fold t. split; [reflexivity|]. split; lia.
  - fold d. fold t. split; [reflexivity|]. split; lia.
  - rewrite digits_iter_xO, iter_xO. fold d.
    replace (d + Z.pos p + t) with (d + e) by lia. fold t.
    split; [|split; [unfold scale in *; lia|lia]].
    replace (e + scale) with (Z.pos p + (t + scale)) by lia.
    rewrite (pow2_add (Z.pos p) (t + scale)) by (unfold scale in *; lia).
    lia.
Qed.

Lemma binary_round_exact (s : bool) (pm : positive) (e : Z) :
  - scale <= e ->
  has_sign s (binary_round prec emax s pm e) /\
  magnitude (binary_round prec emax s pm e) = round_mag pm e /\
  0 <= round_mag pm e.
Proof.
  intros He. unfold round_mag, binary_round.
  pose proof (shl_align_fexp pm e He) as H.
  destruct (shl_align pm e (fexp prec emax (Z.pos (digits2_pos pm) + e)))
    as [mz ez].
  destruct H as (_ & Hez & Hn).
  destruct (round_aux_exact s mz ez Hez Hn) as [S1 M1].
  destruct (round_aux_exact false mz ez Hez Hn) as [_ M2].
  split; [exact S1|]. split; [congruence|].
  rewrite M2. pose proof inf_value_pos.
  pose proof (rounded_value_nonneg mz ez Hez Hn). unfold rounded_value in H0.
  lia.
Qed.

Lemma round_mag_mono (pm1 : positive) (e1 : Z) (pm2 : positive) (e2 : Z) :
  - scale <= e1 -> - scale <= e2 ->
  Z.pos pm1 * 2 ^ (e1 + scale) <= Z.pos pm2 * 2 ^ (e2 + scale) ->
  round_mag pm1 e1 <= round_mag pm2 e2.
Proof.
  intros He1 He2 Hle. unfold round_mag, binary_round.
  pose proof (shl_align_fexp pm1 e1 He1) as H1.
  pose proof (shl_align_fexp pm2 e2 He2) as H2.
  destruct (shl_align pm1 e1 (fexp prec emax (Z.pos (digits2_pos pm1) + e1)))
    as [mz1 ez1].
  destruct (shl_align pm2 e2 (fexp prec emax (Z.pos (digits2_pos pm2) + e2)))
    as [mz2 ez2].
  destruct H1 as (V1 & Hez1 & Hn1). destruct H2 as (V2 & Hez2 & Hn2).
  destruct (round_aux_exact false mz1 ez1 Hez1 Hn1) as [_ ->].
  destruct (round_aux_exact false mz2 ez2 Hez2 Hn2) as [_ ->].
  pose proof (rounded_value_mono mz1 ez1 mz2 ez2 Hez1 Hez2 Hn1 Hn2
                ltac:(lia)) as Hm.
  unfold rounded_value in Hm. lia.
Qed.

(** [binary_normalize] is monotone in the integer it rounds. *)
Lemma normalize_value (M e : Z) :
  - scale <= e ->
  binary_normalize prec emax M e false <> S754_nan /\
  value (binary_normalize prec emax M e false)
  = match M with
    | 0 => 0
    | Z.pos pm => round_mag pm e
    | Z.neg pm => - round_mag pm e
    end.
Proof.
  intros He. destruct M as [|pm|pm]; cbn [binary_normalize].
  - split; [discriminate|reflexivity].
  - destruct (binary_round_exact false pm e He) as (S & Mg & _).
    split; [intros E; rewrite E in S; exact S|].
    rewrite (value_sign false _ S). exact Mg.
  - destruct (binary_round_exact true pm e He) as (S & Mg & _).
    split; [intros E; rewrite E in S; exact S|].
    rewrite (value_sign true _ S). rewrite Mg. reflexivity.
Qed.

Lemma normalize_mono (M1 M2 e : Z) :
  - scale <= e -> M1 <= M2 ->
  value (binary_normalize prec emax M1 e false)
  <= value (binary_normalize prec emax M2 e false).
Proof.
  intros He Hle.
  destruct (normalize_value M1 e He) as [_ ->].
  destruct (normalize_value M2 e He) as [_ ->].
  pose proof (pow2_pos (e + scale) ltac:(lia)) as HX.
  destruct M1 as [|p1|p1], M2 as [|p2|p2]; try lia;
    try (pose proof (binary_round_exact false p1 e He) as (_ & _ & ?));
    try (pose proof (binary_round_exact false p2 e He) as (_ & _ & ?));
    try lia.
  - pose proof (round_mag_mono p1 e p2 e He He ltac:(nia)). lia.
  - pose proof (round_mag_mono p2 e p1 e He He ltac:(nia)). lia.
Qed.

(** Rounding never produces a NaN from a non-negative mantissa. *)
Lemma shr_1_keeps_nonneg (mrs : shr_record) :
  0 <= shr_m mrs -> 0 <= shr_m (shr_1 mrs).
Proof.
  destruct mrs as [m r s]. cbn [shr_m]. intros H.
  destruct m as [|[p|p|]|p]; cbn; lia.
Qed.

Lemma shr_keeps_nonneg (mrs : shr_record) (e n : Z) :
  0 <= shr_m mrs -> 0 <= shr_m (fst (shr mrs e n)).
Proof.
  intros H. unfold shr. destruct n as [|p|p]; cbn [fst]; try exact H.
  rewrite iter_pos_nat.
  induction (Pos.to_nat p) as [|k IH]; [exact H|].
  rewrite Nat.iter_succ. apply shr_1_keeps_nonneg. exact IH.
Qed.

Lemma round_aux_sign (s : bool) (m e : Z) (l : location) :
  0 <= m -> has_sign s (binary_round_aux prec emax s m e l).
Proof.
  intros Hm. unfold binary_round_aux, shr_fexp.
  pose proof (shr_keeps_nonneg (shr_record_of_loc m l) e
                (fexp prec emax (Zdigits2 m + e) - e)) as H1.
  destruct (shr (shr_record_of_loc m l) e
              (fexp prec emax (Zdigits2 m + e) - e)) as [mrs' e'].
  cbn [fst] in H1.
  assert (Hm' : 0 <= shr_m mrs').
  { apply H1. destruct l as [|[| |]]; exact Hm. }
  set (r := round_nearest_even (shr_m mrs') (loc_of_shr_record mrs')).
  assert (Hr : 0 <= r).
  { unfold r, round_nearest_even.
    destruct (loc_of_shr_record mrs') as [|[| |]]; try lia.
    destruct (Z.even (shr_m mrs')); lia. }
  pose proof (shr_keeps_nonneg (shr_record_of_loc r loc_Exact) e'
                (fexp prec emax (Zdigits2 r + e') - e') Hr) as H2.
  destruct (shr (shr_record_of_loc r loc_Exact) e'
              (fexp prec emax (Zdigits2 r + e') - e')) as [mrs'' e''].
  cbn [fst] in H2.
  destruct (shr_m mrs'') as [|p|p]; try lia.
  - reflexivity.
  - destruct (e'' <=? emax - prec); reflexivity.
Qed.

(** *** Binary64 numbers as floats *)

Lemma ltb_value (x y : float) :
  not_nan x -> not_nan y -> (x <? y)%float = (fvalue x <? fvalue y).
Proof.
  intros Nx Ny. rewrite FloatAxioms.ltb_spec. unfold SFltb.
  rewrite (compare_value _ _ (Prim2SF_valid x) (Prim2SF_valid y) Nx Ny).
  reflexivity.
Qed.

Lemma leb_value (x y : float) :
  not_nan x -> not_nan y -> (x <=? y)%float = (fvalue x <=? fvalue y).
Proof.
  intros Nx Ny. rewrite FloatAxioms.leb_spec. unfold SFleb.
  rewrite (compare_value _ _ (Prim2SF_valid x) (Prim2SF_valid y) Nx Ny).
  unfold fvalue, Z.leb. destruct (value (Prim2SF x) ?= value (Prim2SF y));
    reflexivity.
Qed.

Lemma is_nan_false (x : float) : not_nan x -> is_nan x = false.
Proof.
  intros Nx. unfold is_nan. rewrite FloatAxioms.eqb_spec. unfold SFeqb.
  rewrite (compare_value _ _ (Prim2SF_valid x) (Prim2SF_valid x) Nx Nx).
  rewrite Z.compare_refl. reflexivity.
Qed.

Lemma is_finite_inv (x : float) :
  is_finite x = true -> finite_sf (Prim2SF x).
Proof.
  unfold is_finite, is_nan, is_infinity. rewrite !FloatAxioms.eqb_spec, abs_spec.
  destruct (Prim2SF x) as [s|s| |s m e]; cbn [finite_sf]; intros H;
    try exact I.
  - destruct s; vm_compute in H; discriminate.
  - vm_compute in H. discriminate.
Qed.

Lemma nonneg_inv (x : float) : (0 <=? x)%float = true -> nonneg_sf (Prim2SF x).
Proof.
  rewrite FloatAxioms.leb_spec. change (Prim2SF 0) with (S754_zero false).
  destruct (Prim2SF x) as [s|s| |s m e]; cbn; intros H; try exact I;
    try discriminate; destruct s; try reflexivity; discriminate.
Qed.

(** [np.clip(x, 0, 1)] in exact values. *)
Lemma maximum_zero (x : float) :
  not_nan x ->
  not_nan (F64.maximum x 0) /\ fvalue (F64.maximum x 0) = Z.max (fvalue x) 0.
Proof.
  intros Nx. unfold F64.maximum. rewrite (is_nan_false x Nx).
  change (is_nan 0) with false. cbv iota.
  assert (N0 : not_nan 0) by (unfold not_nan; discriminate).
  rewrite (ltb_value x 0 Nx N0). change (fvalue 0) with 0.
  destruct (Z.ltb_spec (fvalue x) 0).
  - split; [exact N0|]. change (fvalue 0) with 0. lia.
  - split; [exact Nx|]. lia.
Qed.

Lemma fvalue_one : fvalue 1 = 2 ^ scale.
Proof. vm_compute. reflexivity. Qed.

Lemma minimum_one (x : float) :
  not_nan x ->
  not_nan (F64.minimum x 1) /\
  fvalue (F64.minimum x 1) = Z.min (fvalue x) (2 ^ scale).
Proof.
  intros Nx. unfold F64.minimum. rewrite (is_nan_false x Nx).
  change (is_nan 1) with false. cbv iota.
  assert (N1 : not_nan 1) by (unfold not_nan; discriminate).
  rewrite (ltb_value 1 x N1 Nx). rewrite fvalue_one.
  destruct (Z.ltb_spec (2 ^ scale) (fvalue x)).
  - split; [exact N1|]. rewrite fvalue_one. lia.
  - split; [exact Nx|]. lia.
Qed.

Lemma clip_value (x : float) :
  not_nan x ->
  not_nan (F64.clip x 0 1) /\
  fvalue (F64.clip x 0 1) = Z.min (Z.max (fvalue x) 0) (2 ^ scale).
Proof.
  intros Nx. unfold F64.clip.
  destruct (maximum_zero x Nx) as [N1 E1].
  destruct (minimum_one _ N1) as [N2 E2].
  split; [exact N2|]. rewrite E2, E1. reflexivity.
Qed.

(** *** Halving, subtracting and adding *)

Lemma div_core_nonneg (m1 : positive) (e1 : Z) (m2 : positive) (e2 : Z) :
  0 <= fst (fst (SFdiv_core_binary prec emax (Z.pos m1) e1 (Z.pos m2) e2)).
Proof.
  unfold SFdiv_core_binary.
  set (s := e1 - e2
            - Z.min (fexp prec emax
                       (Zdigits2 (Z.pos m1) + e1 - (Zdigits2 (Z.pos m2) + e2)))
                (e1 - e2)).
  set (m' := match s with
             | 0 => Z.pos m1
             | Z.pos _ => Z.shiftl (Z.pos m1) s
             | Z.neg _ => 0
             end).
  assert (Hm' : 0 <= m').
  { unfold m'. destruct s as [|p|p]; try lia.
    apply Z.shiftl_nonneg. lia. }
  change (IntDef.Z.div_eucl m' (Z.pos m2)) with (Z.div_eucl m' (Z.pos m2)).
  pose proof (Z_div_mod m' (Z.pos m2) ltac:(lia)) as H.
  destruct (Z.div_eucl m' (Z.pos m2)) as [q r]. cbn [fst]. nia.
Qed.

Lemma has_sign_nonneg (x : spec_float) : has_sign false x -> nonneg_sf x.
Proof. destruct x; cbn; auto. Qed.

Lemma half_nonneg (s : float) :
  is_finite s = true -> (0 <=? s)%float = true ->
  nonneg_sf (Prim2SF (s / 2)).
Proof.
  intros Hf Hn. apply is_finite_inv in Hf. apply nonneg_inv in Hn.
  rewrite div_spec.
  change (Prim2SF 2) with (S754_finite false 4503599627370496 (-51)).
  destruct (Prim2SF s) as [sx|sx| |sx mx ex]; cbn in Hf, Hn; try tauto.
  subst sx. unfold SF64div, SFdiv.
  pose proof (div_core_nonneg mx ex 4503599627370496 (-51)) as Hq.
  destruct (SFdiv_core_binary prec emax (Z.pos mx) ex
              (Z.pos 4503599627370496) (-51)) as [[mz ez] lz].
  cbn [fst] in Hq. apply has_sign_nonneg.
  apply round_aux_sign. exact Hq.
Qed.

Lemma shl_align_value (m : positive) (e ez : Z) :
  ez <= e -> - scale <= ez ->
  Z.pos (fst (shl_align m e ez)) * 2 ^ (ez + scale)
  = Z.pos m * 2 ^ (e + scale).
Proof.
  intros H1 H2. unfold shl_align. destruct (ez - e) as [|p|p] eqn:E;
    cbn [fst]; try (replace ez with e by lia; reflexivity); try lia.
  rewrite iter_xO.
  replace (e + scale) with (Z.pos p + (ez + scale)) by lia.
  rewrite (pow2_add (Z.pos p) (ez + scale)) by lia. lia.
Qed.

(** For a finite [c] and a non-negative [h], [c - h <= c + h] after
    rounding. *)
Lemma sub_le_add (c h : spec_float) :
  valid_binary c = true -> valid_binary h = true ->
  finite_sf c -> nonneg_sf h ->
  SF64sub c h <> S754_nan /\ SF64add c h <> S754_nan /\
  value (SF64sub c h) <= value (SF64add c h).
Proof.
  intros Vc Vh Fc Nh. pose proof inf_value_pos as Hinf.
  destruct c as [sc|sc| |sc mc ec], h as [sh|sh| |sh mh eh];
    cbn in Fc, Nh; try tauto; try subst sh;
    cbn [valid_binary] in Vc, Vh.
  - (* zero, zero *)
    destruct sc, sh; cbn; repeat split; try discriminate; lia.
  - (* zero, infinity *)
    unfold SF64sub, SF64add. cbn [SFsub SFadd value negb].
    repeat split; try discriminate; lia.
  - (* zero, finite *)
    destruct (bounded_inv mh eh Vh) as (_ & _ & _ & B).
    unfold SF64sub, SF64add. cbn [SFsub SFadd value negb].
    repeat split; try discriminate; lia.
  - (* finite, zero *)
    unfold SF64sub, SF64add. cbn [SFsub SFadd value negb].
    repeat split; try discriminate; lia.
  - (* finite, infinity *)
    unfold SF64sub, SF64add. cbn [SFsub SFadd value negb].
    repeat split; try discriminate; lia.
  - (* finite, finite *)
    destruct (bounded_inv mc ec Vc) as (Bc & _).
    destruct (bounded_inv mh eh Vh) as (Bh & _).
    unfold SF64sub, SF64add, SFsub, SFadd. cbv zeta.
    assert (He : - scale <= Z.min ec eh) by (unfold scale; lia).
    destruct (normalize_value
                (cond_Zopp sc (Z.pos (fst (shl_align mc ec (Z.min ec eh))))
                 - cond_Zopp false
                     (Z.pos (fst (shl_align mh eh (Z.min ec eh)))))
                (Z.min ec eh) He) as [N1 _].
    destruct (normalize_value
                (cond_Zopp sc (Z.pos (fst (shl_align mc ec (Z.min ec eh))))
                 + cond_Zopp false
                     (Z.pos (fst (shl_align mh eh (Z.min ec eh)))))
                (Z.min ec eh) He) as [N2 _].
    split; [exact N1|]. split; [exact N2|].
    apply normalize_mono; [exact He|]. cbn [cond_Zopp]. lia.
Qed.

(** *** Scaling by the crop shape *)

Lemma mul_finite (mx : positive) (ex : Z) (mf : positive) (ef : Z) :
  bounded prec emax mx ex = true -> bounded prec emax mf ef = true ->
  has_sign false
    (SF64mul (S754_finite false mx ex) (S754_finite false mf ef)) /\
  magnitude (SF64mul (S754_finite false mx ex) (S754_finite false mf ef))
  = Z.min (rounded_value (mx * mf) (ex + ef)) inf_value /\
  - scale <= ex + ef /\
  ex + ef <= fexp prec emax (Z.pos (digits2_pos (mx * mf)) + (ex + ef)).
Proof.
  intros Vx Vf.
  destruct (bounded_inv mx ex Vx) as (Bx & Dx & Nx & _).
  destruct (bounded_inv mf ef Vf) as (Bf & Df & Nf & _).
  pose proof (digits_mul mx mf) as Dm.
  assert (He : - scale <= ex + ef) by (unfold scale; lia).
  assert (Hn : ex + ef
               <= fexp prec emax (Z.pos (digits2_pos (mx * mf)) + (ex + ef))).
  { rewrite fexp_eq.
    pose proof (digits_pos mx). pose proof (digits_pos mf). lia. }
  destruct (round_aux_exact false (mx * mf) (ex + ef) He Hn) as [S M].
  unfold SF64mul, SFmul. cbn [xorb].
  split; [exact S|]. split; [exact M|]. split; assumption.
Qed.

Lemma nonneg_finite_value (x : spec_float) :
  valid_binary x = true -> nonneg_finite x -> 0 <= value x.
Proof.
  intros V N. destruct x as [s|s| |s m e]; cbn in N; try tauto.
  - cbn. lia.
  - subst s. cbn [value]. cbn [valid_binary] in V.
    destruct (bounded_inv m e V) as (_ & _ & _ & B). lia.
Qed.

(** Multiplication by a non-negative number is monotone on non-negative
    numbers. *)
Lemma mul_mono (x1 x2 f : spec_float) :
  valid_binary x1 = true -> valid_binary x2 = true ->
  valid_binary f = true ->
  nonneg_finite x1 -> nonneg_finite x2 -> nonneg_finite f ->
  value x1 <= value x2 ->
  nonneg_sf (SF64mul x1 f) /\ nonneg_sf (SF64mul x2 f) /\
  value (SF64mul x1 f) <= value (SF64mul x2 f).
Proof.
  intros V1 V2 Vf N1 N2 Nf Hle. pose proof inf_value_pos as Hinf.
  destruct f as [sf|sf| |sf mf ef]; cbn in Nf; try tauto.
  - (* the factor is a zero *)
    destruct x1 as [s1|s1| |s1 m1 e1], x2 as [s2|s2| |s2 m2 e2];
      cbn in N1, N2; try tauto; cbn; repeat split; lia.
  - subst sf. cbn [valid_binary] in Vf.
    destruct x1 as [s1|s1| |s1 m1 e1], x2 as [s2|s2| |s2 m2 e2];
      cbn in N1, N2; try tauto; try subst s1; try subst s2;
      cbn [valid_binary] in V1, V2.
    + destruct (mul_finite m2 e2 mf ef V2 Vf) as (S2 & M2 & He2 & Hn2).
      pose proof (rounded_value_nonneg (m2 * mf) (e2 + ef) He2 Hn2).
      split; [exact I|]. split; [apply has_sign_nonneg; exact S2|].
      rewrite (value_sign false _ S2), M2.
      unfold SF64mul. cbn [SFmul value]. lia.
    + exfalso. cbn [value] in Hle.
      destruct (bounded_inv m1 e1 V1) as (_ & _ & _ & B). lia.
    + destruct (mul_finite m1 e1 mf ef V1 Vf) as (S1 & M1 & He1 & Hn1).
      destruct (mul_finite m2 e2 mf ef V2 Vf) as (S2 & M2 & He2 & Hn2).
      split; [apply has_sign_nonneg; exact S1|].
      split; [apply has_sign_nonneg; exact S2|].
      rewrite (value_sign false _ S1), (value_sign false _ S2), M1, M2.
      assert (rounded_value (m1 * mf) (e1 + ef)
              <= rounded_value (m2 * mf) (e2 + ef)); [|lia].
      apply rounded_value_mono; try assumption.
      cbn [value] in Hle.
      destruct (bounded_inv m1 e1 V1) as (B1 & _).
      destruct (bounded_inv m2 e2 V2) as (B2 & _).
      destruct (bounded_inv mf ef Vf) as (Bf & _).
      assert (E1 : 2 ^ (e1 + ef + scale) * 2 ^ 1074
                   = 2 ^ (e1 + scale) * 2 ^ (ef + 1074)).
      { rewrite <- !pow2_add by (unfold scale; lia). f_equal. lia. }
      assert (E2 : 2 ^ (e2 + ef + scale) * 2 ^ 1074
                   = 2 ^ (e2 + scale) * 2 ^ (ef + 1074)).
      { rewrite <- !pow2_add by (unfold scale; lia). f_equal. lia. }
      pose proof (pow2_pos (ef + 1074) ltac:(lia)).
      pose proof (pow2_pos 1074 ltac:(lia)).
      pose proof (pow2_pos (e1 + ef + scale) ltac:(lia)).
      pose proof (pow2_pos (e2 + ef + scale) ltac:(lia)).
      rewrite !Pos2Z.inj_mul.
      set (A1 := 2 ^ (e1 + scale)) in *. set (A2 := 2 ^ (e2 + scale)) in *.
      set (G := 2 ^ (ef + 1074)) in *. set (c := 2 ^ 1074) in *.
      set (W1 := 2 ^ (e1 + ef + scale)) in *.
      set (W2 := 2 ^ (e2 + ef + scale)) in *.
      assert (Z.pos m1 * Z.pos mf * W1 * c <= Z.pos m2 * Z.pos mf * W2 * c);
        [|nia].
      replace (Z.pos m1 * Z.pos mf * W1 * c)
        with (Z.pos m1 * A1 * (Z.pos mf * G)) by nia.
      replace (Z.pos m2 * Z.pos mf * W2 * c)
        with (Z.pos m2 * A2 * (Z.pos mf * G)) by nia.
      apply Z.mul_le_mono_nonneg_r; [nia|exact Hle].
Qed.

Lemma pixel_bound_lt_inf : pixel_bound < inf_value.
Proof. vm_compute. reflexivity. Qed.

Lemma rounded_value_bound : rounded_value 1152921504606846976 0 = pixel_bound.
Proof. vm_compute. reflexivity. Qed.

Lemma round_mag_bound : round_mag 1152921504606846976 0 = pixel_bound.
Proof. vm_compute. reflexivity. Qed.

(** A non-NaN number with a value in [0, infinity) is a zero or a positive
    finite number. *)
Lemma nonneg_finite_intro (x : spec_float) :
  valid_binary x = true -> x <> S754_nan ->
  0 <= value x < inf_value -> nonneg_finite x.
Proof.
  intros V N B. pose proof inf_value_pos.
  destruct x as [s|s| |s m e]; cbn [nonneg_finite]; try congruence.
  - exact I.
  - cbn [value] in B. destruct s; lia.
  - cbn [value valid_binary] in B, V.
    destruct (bounded_inv m e V) as (_ & _ & _ & P).
    destruct s; [lia|reflexivity].
Qed.

Lemma nonneg_sf_finite (x : spec_float) :
  nonneg_sf x -> value x < inf_value -> nonneg_finite x.
Proof.
  destruct x as [s|s| |s m e]; cbn; try tauto.
  intros -> H. lia.
Qed.

(** The crop shape as a float. *)
Lemma of_int64_value (N : Z) :
  0 <= N < 2 ^ 60 ->
  nonneg_finite (Prim2SF (F64.of_int64 N)) /\
  fvalue (F64.of_int64 N) <= pixel_bound.
Proof.
  intros HN. unfold fvalue, F64.of_int64.
  destruct (Z.eqb_spec N Int64.min_int) as [E|_];
    [unfold Int64.min_int in E; lia|].
  destruct (Z.ltb_spec N 0) as [L|_]; [lia|].
  assert (E : Prim2SF (of_uint63 (Uint63.of_Z N))
              = binary_normalize prec emax N 0 false).
  { rewrite of_uint63_spec, Uint63.of_Z_spec.
    rewrite Z.mod_small
      by (change Uint63Axioms.wB with (2 ^ 63);
          change (2 ^ 63) with (8 * 2 ^ 60); lia).
    reflexivity. }
  pose proof (Prim2SF_valid (of_uint63 (Uint63.of_Z N))) as V.
  rewrite E in V |- *.
  assert (He : - scale <= 0) by (unfold scale; lia).
  destruct (normalize_value N 0 He) as [Nn Ev].
  assert (Hv : 0 <= value (binary_normalize prec emax N 0 false)
               <= pixel_bound).
  { rewrite Ev. destruct N as [|p|p]; try lia.
    - unfold pixel_bound. pose proof (pow2_pos scale ltac:(unfold scale; lia)).
      lia.
    - destruct (binary_round_exact false p 0 He) as (_ & _ & H0).
      split; [exact H0|]. rewrite <- round_mag_bound.
      apply round_mag_mono; try exact He.
      change (Z.pos 1152921504606846976) with (2 ^ 60).
      pose proof (pow2_pos (0 + scale) ltac:(unfold scale; lia)). nia. }
  split; [|lia].
  apply nonneg_finite_intro.
  - exact V.
  - exact Nn.
  - pose proof pixel_bound_lt_inf. lia.
Qed.

(** *** Rounding to an integer *)

Lemma rhe_zero (m : Z) : F64.round_half_even_div m 0 = m.
Proof.
  unfold F64.round_half_even_div. change (2 ^ 0) with 1.
  rewrite Z.div_1_r, Z.mod_1_r. reflexivity.
Qed.

Lemma nearest_rhe (m : positive) (e : Z) :
  nearest m e
  = F64.round_half_even_div (Z.pos m * 2 ^ Z.max e 0) (Z.max (- e) 0).
Proof.
  unfold nearest. destruct (Z.leb_spec 0 e).
  - rewrite (Z.max_l e 0), (Z.max_r (- e) 0) by lia. rewrite rhe_zero.
    reflexivity.
  - rewrite (Z.max_r e 0), (Z.max_l (- e) 0) by lia.
    change (2 ^ 0) with 1. rewrite Z.mul_1_r. reflexivity.
Qed.

Lemma nearest_nonneg (m : positive) (e : Z) : 0 <= nearest m e.
Proof.
  rewrite nearest_rhe.
  pose proof (pow2_pos (Z.max e 0) ltac:(lia)).
  apply rhe_spec; nia.
Qed.

Lemma nearest_mono (m1 : positive) (e1 : Z) (m2 : positive) (e2 : Z) :
  - scale <= e1 -> - scale <= e2 ->
  Z.pos m1 * 2 ^ (e1 + scale) <= Z.pos m2 * 2 ^ (e2 + scale) ->
  nearest m1 e1 <= nearest m2 e2.
Proof.
  intros He1 He2 Hle. rewrite !nearest_rhe.
  pose proof (pow2_pos (Z.max e1 0) ltac:(lia)) as Ha1.
  pose proof (pow2_pos (Z.max e2 0) ltac:(lia)) as Ha2.
  pose proof (pow2_pos (Z.max (- e1) 0) ltac:(lia)) as Hb1.
  pose proof (pow2_pos (Z.max (- e2) 0) ltac:(lia)) as Hb2.
  pose proof (pow2_pos scale ltac:(unfold scale; lia)) as HK.
  apply rhe_mono; try lia; try nia.
  assert (E1 : 2 ^ (e1 + scale) * 2 ^ Z.max (- e1) 0
               = 2 ^ Z.max e1 0 * 2 ^ scale).
  { rewrite <- !pow2_add by (unfold scale in *; lia). f_equal. lia. }
  assert (E2 : 2 ^ (e2 + scale) * 2 ^ Z.max (- e2) 0
               = 2 ^ Z.max e2 0 * 2 ^ scale).
  { rewrite <- !pow2_add by (unfold scale in *; lia). f_equal. lia. }
  set (a1 := 2 ^ Z.max e1 0) in *. set (a2 := 2 ^ Z.max e2 0) in *.
  set (b1 := 2 ^ Z.max (- e1) 0) in *. set (b2 := 2 ^ Z.max (- e2) 0) in *.
  set (X1 := 2 ^ (e1 + scale)) in *. set (X2 := 2 ^ (e2 + scale)) in *.
  set (k := 2 ^ scale) in *.
  assert (H : Z.pos m1 * X1 * (b1 * b2) <= Z.pos m2 * X2 * (b1 * b2)).
  { apply Z.mul_le_mono_nonneg_r; [nia|exact Hle]. }
  replace (Z.pos m1 * X1 * (b1 * b2)) with (Z.pos m1 * a1 * b2 * k) in H
    by nia.
  replace (Z.pos m2 * X2 * (b1 * b2)) with (Z.pos m2 * a2 * b1 * k) in H
    by nia.
  nia.
Qed.

Lemma nearest_bound : nearest 1152921504606846976 0 = 2 ^ 60.
Proof. reflexivity. Qed.

(** On non-negative numbers below the bound, [rint_int] is the nearest
    integer and is monotone. *)
Lemma rint_int_mono (x y : float) :
  nonneg_finite (Prim2SF x) -> nonneg_finite (Prim2SF y) ->
  fvalue x <= fvalue y -> fvalue y <= pixel_bound ->
  0 <= F64.rint_int x <= F64.rint_int y.
Proof.
  intros Nx Ny Hle Hb. unfold fvalue in *. unfold F64.rint_int.
  pose proof (Prim2SF_valid x) as Vx. pose proof (Prim2SF_valid y) as Vy.
  assert (G : forall m e,
             bounded prec emax m e = true ->
             Z.pos m * 2 ^ (e + scale) <= pixel_bound ->
             (let r := if 0 <=? e then Z.pos m * 2 ^ e
                       else F64.round_half_even_div (Z.pos m) (- e) in
              if (Int64.min_int <=? r) && (r <=? Int64.max_int) then r
              else Int64.min_int) = nearest m e /\
             0 <= nearest m e <= 2 ^ 60).
  { intros m e V B. destruct (bounded_inv m e V) as (Be & _).
    fold (nearest m e). cbv zeta.
    pose proof (nearest_nonneg m e) as H0.
    assert (H1 : nearest m e <= 2 ^ 60).
    { rewrite <- nearest_bound. apply nearest_mono; try (unfold scale; lia).
      exact B. }
    split; [|lia].
    destruct (Z.leb_spec Int64.min_int (nearest m e)) as [_|L];
      [|unfold Int64.min_int in L; lia].
    destruct (Z.leb_spec (nearest m e) Int64.max_int) as [_|L];
      [reflexivity|].
    unfold Int64.max_int in L. change (2 ^ 63) with (8 * 2 ^ 60) in L. lia. }
  destruct (Prim2SF x) as [sx|sx| |sx mx ex], (Prim2SF y) as [sy|sy| |sy my ey];
    cbn in Nx, Ny; try tauto; try subst sx; try subst sy;
    cbn [valid_binary value] in *.
  - destruct (G my ey Vy Hb) as [-> B]. lia.
  - destruct (bounded_inv mx ex Vx) as (_ & _ & _ & P). lia.
  - destruct (G my ey Vy Hb) as [-> By].
    destruct (G mx ex Vx ltac:(lia)) as [-> Bx].
    split; [lia|].
    destruct (bounded_inv mx ex Vx) as (Bex & _).
    destruct (bounded_inv my ey Vy) as (Bey & _).
    apply nearest_mono; try (unfold scale; lia). exact Hle.
Qed.

(** The product of a clipped value and the crop extent stays below the
    bound. *)
Lemma one_mul_bound (f : spec_float) :
  valid_binary f = true -> nonneg_finite f -> value f <= pixel_bound ->
  value (SF64mul (Prim2SF 1) f) <= pixel_bound.
Proof.
  intros V N B.
  change (Prim2SF 1) with (S754_finite false 4503599627370496 (-52)).
  assert (P0 : 0 <= pixel_bound) by (vm_compute; discriminate).
  destruct f as [s|s| |s m e]; cbn [nonneg_finite] in N; try contradiction.
  - unfold SF64mul. cbn [SFmul value]. exact P0.
  - subst s. cbn [valid_binary value] in V, B.
    destruct (mul_finite 4503599627370496 (-52) m e eq_refl V)
      as (S & M & He & Hn).
    rewrite (value_sign false _ S), M.
    assert (rounded_value (4503599627370496 * m) (-52 + e) <= pixel_bound);
      [|lia].
    rewrite <- rounded_value_bound.
    apply rounded_value_mono; try assumption; try (unfold scale; lia).
    destruct (bounded_inv m e V) as (Be & _).
    rewrite Pos2Z.inj_mul.
    change (Z.pos 4503599627370496) with (2 ^ 52).
    change (Z.pos 1152921504606846976 * 2 ^ (0 + scale)) with pixel_bound.
    replace (2 ^ 52 * Z.pos m * 2 ^ (-52 + e + scale))
      with (Z.pos m * (2 ^ 52 * 2 ^ (-52 + e + scale))) by lia.
    rewrite <- pow2_add by (unfold scale; lia).
    replace (52 + (-52 + e + scale)) with (e + scale) by lia.
    exact B.
Qed.

Lemma scale_pos : 0 < 2 ^ scale.
Proof. apply pow2_pos. unfold scale. lia. Qed.

Lemma one_lt_inf : 2 ^ scale < inf_value.
Proof. vm_compute. reflexivity. Qed.

(** The heart of the ordering of the pixel coordinates, on one axis. *)
Lemma pixel_order (c s : float) (N : Z) :
  is_finite c = true -> is_finite s = true -> (0 <=? s)%float = true ->
  0 <= N < 2 ^ 60 ->
  0 <= F64.rint_int (F64.clip (c - s / 2) 0 1 * F64.of_int64 N)
    <= F64.rint_int (F64.clip (c + s / 2) 0 1 * F64.of_int64 N).
Proof.
  intros Fc Fs Ns HN.
  pose proof (is_finite_inv c Fc) as Hc.
  pose proof (half_nonneg s Fs Ns) as Hh.
  destruct (sub_le_add (Prim2SF c) (Prim2SF (s / 2)) (Prim2SF_valid _)
              (Prim2SF_valid _) Hc Hh) as (Nlo & Nhi & Hle).
  rewrite <- sub_spec in Nlo, Hle. rewrite <- add_spec in Nhi, Hle.
  destruct (clip_value (c - s / 2) Nlo) as [Nclo Eclo].
  destruct (clip_value (c + s / 2) Nhi) as [Nchi Echi].
  fold (fvalue (c - s / 2)) in Hle. fold (fvalue (c + s / 2)) in Hle.
  pose proof scale_pos as HK. pose proof one_lt_inf as H1.
  assert (Flo : nonneg_finite (Prim2SF (F64.clip (c - s / 2) 0 1))).
  { apply nonneg_finite_intro; [apply Prim2SF_valid|exact Nclo|].
    fold (fvalue (F64.clip (c - s / 2) 0 1)). lia. }
  assert (Fhi : nonneg_finite (Prim2SF (F64.clip (c + s / 2) 0 1))).
  { apply nonneg_finite_intro; [apply Prim2SF_valid|exact Nchi|].
    fold (fvalue (F64.clip (c + s / 2) 0 1)). lia. }
  destruct (of_int64_value N HN) as [FN BN].
  assert (F1 : nonneg_finite (Prim2SF 1)) by reflexivity.
  destruct (mul_mono _ _ _ (Prim2SF_valid _) (Prim2SF_valid _)
              (Prim2SF_valid (F64.of_int64 N)) Flo Fhi FN
              ltac:(fold (fvalue (F64.clip (c - s / 2) 0 1));
                    fold (fvalue (F64.clip (c + s / 2) 0 1)); lia))
    as (Plo & Phi & Hmul).
  destruct (mul_mono _ _ _ (Prim2SF_valid _) (Prim2SF_valid 1)
              (Prim2SF_valid (F64.of_int64 N)) Fhi F1 FN
              ltac:(fold (fvalue (F64.clip (c + s / 2) 0 1));
                    fold (fvalue 1); rewrite fvalue_one; lia))
    as (_ & _ & Hone).
  pose proof (one_mul_bound _ (Prim2SF_valid (F64.of_int64 N)) FN BN)
    as Hbound.
  pose proof pixel_bound_lt_inf as Hpb.
  apply rint_int_mono; unfold fvalue; rewrite ?mul_spec.
  - apply nonneg_sf_finite; [exact Plo|]. lia.
  - apply nonneg_sf_finite; [exact Phi|]. lia.
  - exact Hmul.
  - lia.
Qed.

(** *** Numbers that need no rounding *)

Lemma rhe_exact (m n : Z) :
  0 <= n -> F64.round_half_even_div (m * 2 ^ n) n = m.
Proof.
  intros Hn. unfold F64.round_half_even_div.
  pose proof (pow2_pos n Hn) as HP.
  rewrite Z.div_mul, Z.mod_mul by lia.
  destruct (Z.compare_spec (2 * 0) (2 ^ n)); lia.
Qed.

Lemma rounded_value_exact (pm : positive) (e : Z) :
  fexp prec emax (Z.pos (digits2_pos pm) + e) = e ->
  rounded_value pm e = Z.pos pm * 2 ^ (e + scale).
Proof.
  intros H. unfold rounded_value. rewrite H, Z.sub_diag, rhe_zero.
  reflexivity.
Qed.

(** A number whose target exponent is not above its exponent is rounded
    to itself. *)
Lemma round_mag_exact (pm : positive) (e : Z) :
  - scale <= e ->
  fexp prec emax (Z.pos (digits2_pos pm) + e) <= e ->
  Z.pos pm * 2 ^ (e + scale) < inf_value ->
  round_mag pm e = Z.pos pm * 2 ^ (e + scale).
Proof.
  intros He Ht Hv. unfold round_mag, binary_round.
  pose proof (shl_align_fexp pm e He) as H.
  assert (Hz : let '(mz, ez) :=
                 shl_align pm e (fexp prec emax (Z.pos (digits2_pos pm) + e))
               in fexp prec emax (Z.pos (digits2_pos mz) + ez) = ez).
  { unfold shl_align.
    set (t := fexp prec emax (Z.pos (digits2_pos pm) + e)) in *.
    destruct (t - e) as [|p|p] eqn:E; try lia.
    unfold shift_pos. rewrite digits_iter_xO.
    replace (Z.pos (digits2_pos pm) + Z.pos p + t)
      with (Z.pos (digits2_pos pm) + e) by lia.
    reflexivity. }
  destruct (shl_align pm e (fexp prec emax (Z.pos (digits2_pos pm) + e)))
    as [mz ez].
  destruct H as (V & Hez & Hn).
  destruct (round_aux_exact false mz ez Hez Hn) as [_ ->].
  fold (rounded_value mz ez). rewrite (rounded_value_exact mz ez Hz). lia.
Qed.

(** An extent below 2^53 is converted exactly. *)
Lemma of_int64_exact (N : Z) :
  0 <= N < 2 ^ 53 ->
  nonneg_finite (Prim2SF (F64.of_int64 N)) /\
  fvalue (F64.of_int64 N) = N * 2 ^ scale.
Proof.
  intros HN.
  assert (H60 : 0 <= N < 2 ^ 60).
  { change (2 ^ 60) with (128 * 2 ^ 53). lia. }
  destruct (of_int64_value N H60) as [F _]. split; [exact F|].
  unfold fvalue, F64.of_int64.
  destruct (Z.eqb_spec N Int64.min_int) as [E|_];
    [unfold Int64.min_int in E; lia|].
  destruct (Z.ltb_spec N 0) as [L|_]; [lia|].
  rewrite of_uint63_spec, Uint63.of_Z_spec.
  rewrite Z.mod_small
    by (change Uint63Axioms.wB with (2 ^ 63);
        change (2 ^ 63) with (1024 * 2 ^ 53); lia).
  assert (He : - scale <= 0) by (unfold scale; lia).
  destruct (normalize_value N 0 He) as [_ ->].
  destruct N as [|p|p]; try lia.
  pose proof (digits_le p 53 ltac:(lia) ltac:(lia)) as Hd.
  pose proof (digits_pos p) as Hd1.
  rewrite round_mag_exact; try exact He.
  - change (0 + scale) with scale. reflexivity.
  - rewrite fexp_eq. lia.
  - change (0 + scale) with scale.
    assert (Z.pos p * 2 ^ scale < 2 ^ 53 * 2 ^ scale).
    { pose proof scale_pos. nia. }
    assert (2 ^ 53 * 2 ^ scale < inf_value) by (vm_compute; reflexivity).
    lia.
Qed.

Lemma digits_shift_52 (m : positive) :
  Z.pos (digits2_pos (4503599627370496 * m)) = 52 + Z.pos (digits2_pos m).
Proof.
  pose proof (digits_bounds m) as [Lo Hi].
  pose proof (digits_pos m) as Hd.
  apply Z.le_antisymm.
  - apply digits_le; [|lia]. rewrite Pos2Z.inj_mul.
    change (Z.pos 4503599627370496) with (2 ^ 52).
    rewrite pow2_add by lia. assert (0 < 2 ^ 52) by reflexivity. nia.
  - apply digits_ge; [|lia]. rewrite Pos2Z.inj_mul.
    change (Z.pos 4503599627370496) with (2 ^ 52).
    replace (52 + Z.pos (digits2_pos m) - 1)
      with (52 + (Z.pos (digits2_pos m) - 1)) by lia.
    rewrite pow2_add by lia. assert (0 < 2 ^ 52) by reflexivity. nia.
Qed.

(** Multiplying 1 by a non-negative number gives the number. *)
Lemma one_mul_value (f : spec_float) :
  valid_binary f = true -> nonneg_finite f ->
  value (SF64mul (Prim2SF 1) f) = value f.
Proof.
  intros V N.
  change (Prim2SF 1) with (S754_finite false 4503599627370496 (-52)).
  destruct f as [s|s| |s m e]; cbn [nonneg_finite] in N; try contradiction.
  - unfold SF64mul. cbn [SFmul value]. reflexivity.
  - subst s. cbn [valid_binary] in V.
    destruct (mul_finite 4503599627370496 (-52) m e eq_refl V)
      as (S & M & He & Hn).
    rewrite (value_sign false _ S), M. cbn [value].
    destruct (bounded_inv m e V) as (Be & Bd & Bn & Bv).
    assert (Hc : fexp prec emax (Z.pos (digits2_pos m) + e) = e).
    { unfold bounded, canonical_mantissa in V.
      apply andb_true_iff in V. destruct V as [V _].
      apply Z.eqb_eq in V. exact V. }
    assert (E : rounded_value (4503599627370496 * m) (-52 + e)
                = Z.pos m * 2 ^ (e + scale)).
    { unfold rounded_value. rewrite digits_shift_52.
      replace (52 + Z.pos (digits2_pos m) + (-52 + e))
        with (Z.pos (digits2_pos m) + e) by lia.
      rewrite Hc. replace (e - (-52 + e)) with 52 by lia.
      rewrite Pos2Z.inj_mul, (Z.mul_comm (Z.pos 4503599627370496)).
      change (Z.pos 4503599627370496) with (2 ^ 52).
      rewrite rhe_exact by lia. reflexivity. }
    rewrite E. lia.
Qed.

(** The nearest integer of a number that is an integer. *)
Lemma nearest_integer (m : positive) (e N : Z) :
  - scale <= e -> 0 < N ->
  Z.pos m * 2 ^ (e + scale) = N * 2 ^ scale ->
  nearest m e = N.
Proof.
  intros He HN E. destruct N as [|p|p]; try lia.
  assert (H0 : nearest p 0 = Z.pos p).
  { unfold nearest. cbn [Z.leb Z.compare]. change (2 ^ 0) with 1. lia. }
  assert (Hs : - scale <= 0) by (unfold scale; lia).
  change (0 + scale) with scale in *.
  pose proof (nearest_mono m e p 0 He Hs) as L1.
  pose proof (nearest_mono p 0 m e Hs He) as L2.
  change (0 + scale) with scale in L1, L2.
  specialize (L1 ltac:(lia)). specialize (L2 ltac:(lia)). lia.
Qed.

Lemma rint_int_of_int64 (N : Z) :
  0 <= N < 2 ^ 53 -> F64.rint_int (F64.of_int64 N) = N.
Proof.
  intros HN. destruct (of_int64_exact N HN) as [F E].
  unfold fvalue in E. unfold F64.rint_int.
  pose proof (Prim2SF_valid (F64.of_int64 N)) as V.
  destruct (Prim2SF (F64.of_int64 N)) as [s|s| |s m e];
    cbn [nonneg_finite] in F; try contradiction.
  - cbn [value] in E. pose proof scale_pos. nia.
  - subst s. cbn [value valid_binary] in E, V.
    destruct (bounded_inv m e V) as (Be & _ & _ & Bv).
    assert (HNpos : 0 < N) by (pose proof scale_pos; nia).
    fold (nearest m e).
    rewrite (nearest_integer m e N ltac:(unfold scale; lia) HNpos E).
    cbv zeta.
    destruct (Z.leb_spec Int64.min_int N) as [_|L];
      [|unfold Int64.min_int in L; lia].
    destruct (Z.leb_spec N Int64.max_int) as [_|L]; [reflexivity|].
    unfold Int64.max_int in L. change (2 ^ 63) with (1024 * 2 ^ 53) in L.
    lia.
Qed.

(** The pixel coordinates lie between 0 and the crop extent. *)
Lemma pixel_range (x : float) (N : Z) :
  not_nan x -> 0 <= N < 2 ^ 53 ->
  0 <= F64.rint_int (F64.clip x 0 1 * F64.of_int64 N) <= N.
Proof.
  intros Nx HN.
  destruct (clip_value x Nx) as [Nc Ec].
  pose proof scale_pos as HK. pose proof one_lt_inf as H1.
  assert (Fc : nonneg_finite (Prim2SF (F64.clip x 0 1))).
  { apply nonneg_finite_intro; [apply Prim2SF_valid|exact Nc|].
    fold (fvalue (F64.clip x 0 1)). lia. }
  destruct (of_int64_exact N HN) as [FN EN].
  assert (F1 : nonneg_finite (Prim2SF 1)) by reflexivity.
  destruct (mul_mono _ _ _ (Prim2SF_valid _) (Prim2SF_valid 1)
              (Prim2SF_valid (F64.of_int64 N)) Fc F1 FN
              ltac:(fold (fvalue (F64.clip x 0 1)); fold (fvalue 1);
                    rewrite fvalue_one; lia))
    as (Pc & _ & Hone).
  rewrite (one_mul_value _ (Prim2SF_valid (F64.of_int64 N)) FN) in Hone.
  fold (fvalue (F64.of_int64 N)) in Hone. rewrite EN in Hone.
  assert (HB : N * 2 ^ scale <= pixel_bound).
  { unfold pixel_bound. change (2 ^ 60) with (128 * 2 ^ 53). nia. }
  pose proof pixel_bound_lt_inf as Hpb.
  assert (G : 0 <= F64.rint_int (F64.clip x 0 1 * F64.of_int64 N)
              <= F64.rint_int (F64.of_int64 N)).
  { apply rint_int_mono; unfold fvalue; rewrite ?mul_spec.
    - apply nonneg_sf_finite; [exact Pc|]. lia.
    - exact FN.
    - fold (fvalue (F64.of_int64 N)). rewrite EN. exact Hone.
    - fold (fvalue (F64.of_int64 N)). rewrite EN. exact HB. }
  rewrite (rint_int_of_int64 N HN) in G. exact G.
Qed.

(** ** The pixel coordinates of the regression path *)

Lemma leb_true_not_nan (x y : float) :
  (x <=? y)%float = true -> not_nan x /\ not_nan y.
Proof.
  intros H. rewrite FloatAxioms.leb_spec in H. unfold not_nan.
  split; intros E; rewrite E in H.
  - discriminate H.
  - destruct (Prim2SF x); discriminate H.
Qed.

Lemma sum_not_nan (c s : float) :
  is_finite c = true -> is_finite s = true -> (0 <=? s)%float = true ->
  not_nan (c - s / 2) /\ not_nan (c + s / 2).
Proof.
  intros Fc Fs Ns.
  pose proof (is_finite_inv c Fc) as Hc.
  pose proof (half_nonneg s Fs Ns) as Hh.
  destruct (sub_le_add (Prim2SF c) (Prim2SF (s / 2)) (Prim2SF_valid _)
              (Prim2SF_valid _) Hc Hh) as (Nlo & Nhi & _).
  rewrite <- sub_spec in Nlo. rewrite <- add_spec in Nhi.
  split; assumption.
Qed.

(** A float whose value is an integer below 2^53 is converted to that
    integer. *)
Lemma rint_int_exact (y : float) (N : Z) :
  0 <= N < 2 ^ 53 -> nonneg_finite (Prim2SF y) ->
  fvalue y = N * 2 ^ scale -> F64.rint_int y = N.
Proof.
  intros HN Fy Ey. destruct (of_int64_exact N HN) as [FN EN].
  assert (HB : N * 2 ^ scale <= pixel_bound).
  { pose proof scale_pos. unfold pixel_bound.
    change (2 ^ 60) with (128 * 2 ^ 53). nia. }
  pose proof (rint_int_mono y (F64.of_int64 N) Fy FN ltac:(lia) ltac:(lia))
    as L1.
  pose proof (rint_int_mono (F64.of_int64 N) y FN Fy ltac:(lia) ltac:(lia))
    as L2.
  rewrite (rint_int_of_int64 N HN) in L1, L2. lia.
Qed.

Lemma clipped_finite (x : float) :
  not_nan x ->
  nonneg_finite (Prim2SF (F64.clip x 0 1)) /\
  0 <= fvalue (F64.clip x 0 1) <= 2 ^ scale.
Proof.
  intros Nx. destruct (clip_value x Nx) as [Nc Ec].
  pose proof scale_pos as HK. pose proof one_lt_inf as H1.
  split; [|lia].
  apply nonneg_finite_intro; [apply Prim2SF_valid|exact Nc|].
  fold (fvalue (F64.clip x 0 1)). lia.
Qed.

(** A coordinate at or below 0 is clipped to pixel 0. *)
Lemma pixel_low (x : float) (N : Z) :
  (x <=? 0)%float = true -> 0 <= N < 2 ^ 60 ->
  F64.rint_int (F64.clip x 0 1 * F64.of_int64 N) = 0.
Proof.
  intros Hx HN. destruct (leb_true_not_nan x 0 Hx) as [Nx N0].
  rewrite (leb_value x 0 Nx N0) in Hx. apply Z.leb_le in Hx.
  change (fvalue 0) with 0 in Hx.
  destruct (clip_value x Nx) as [Nc Ec].
  destruct (clipped_finite x Nx) as [Fc Bc].
  pose proof scale_pos as HK.
  destruct (of_int64_value N HN) as [FN BN].
  assert (F0 : nonneg_finite (Prim2SF 0)) by exact I.
  destruct (mul_mono _ _ _ (Prim2SF_valid _) (Prim2SF_valid 0)
              (Prim2SF_valid (F64.of_int64 N)) Fc F0 FN
              ltac:(fold (fvalue (F64.clip x 0 1)); change (value (Prim2SF 0))
                      with 0; lia))
    as (Pc & _ & Hz).
  assert (Z0 : value (SF64mul (Prim2SF 0) (Prim2SF (F64.of_int64 N))) = 0).
  { change (Prim2SF 0) with (S754_zero false).
    destruct (Prim2SF (F64.of_int64 N)) as [s|s| |s m e];
      cbn [nonneg_finite] in FN; try contradiction; reflexivity. }
  rewrite Z0 in Hz.
  pose proof inf_value_pos as Hinf.
  assert (P0 : 0 <= pixel_bound) by (vm_compute; discriminate).
  pose proof (rint_int_mono (F64.clip x 0 1 * F64.of_int64 N) 0) as L.
  unfold fvalue in L. rewrite mul_spec in L.
  change (F64.rint_int 0) with 0 in L. change (value (Prim2SF 0)) with 0 in L.
  specialize (L ltac:(apply nonneg_sf_finite; [exact Pc|lia]) F0 Hz P0).
  lia.
Qed.

(** A coordinate at or above 1 is clipped to the last pixel bound. *)
Lemma pixel_high (x : float) (N : Z) :
  (1 <=? x)%float = true -> 0 <= N < 2 ^ 53 ->
  F64.rint_int (F64.clip x 0 1 * F64.of_int64 N) = N.
Proof.
  intros Hx HN. destruct (leb_true_not_nan 1 x Hx) as [N1 Nx].
  rewrite (leb_value 1 x N1 Nx) in Hx. apply Z.leb_le in Hx.
  rewrite fvalue_one in Hx.
  destruct (clip_value x Nx) as [Nc Ec].
  destruct (clipped_finite x Nx) as [Fc Bc].
  pose proof scale_pos as HK.
  destruct (of_int64_exact N HN) as [FN EN].
  assert (F1 : nonneg_finite (Prim2SF 1)) by reflexivity.
  assert (E1 : value (Prim2SF (F64.clip x 0 1)) = value (Prim2SF 1)).
  { fold (fvalue (F64.clip x 0 1)). fold (fvalue 1). rewrite fvalue_one.
    lia. }
  destruct (mul_mono _ _ _ (Prim2SF_valid _) (Prim2SF_valid 1)
              (Prim2SF_valid (F64.of_int64 N)) Fc F1 FN ltac:(lia))
    as (Pc & _ & Hle).
  destruct (mul_mono _ _ _ (Prim2SF_valid 1) (Prim2SF_valid _)
              (Prim2SF_valid (F64.of_int64 N)) F1 Fc FN ltac:(lia))
    as (_ & _ & Hge).
  rewrite (one_mul_value _ (Prim2SF_valid (F64.of_int64 N)) FN) in Hle, Hge.
  fold (fvalue (F64.of_int64 N)) in Hle, Hge. rewrite EN in Hle, Hge.
  assert (HB : N * 2 ^ scale < inf_value).
  { pose proof pixel_bound_lt_inf. unfold pixel_bound in *.
    change (2 ^ 60) with (128 * 2 ^ 53) in *. nia. }
  apply rint_int_exact; [exact HN| |].
  - rewrite mul_spec. apply nonneg_sf_finite; [exact Pc|lia].
  - unfold fvalue. rewrite mul_spec. lia.
Qed.

(** The pixel window of one axis lies in the crop. *)
Lemma pixel_window (c s : float) (N : Z) :
  is_finite c = true -> is_finite s = true -> (0 <=? s)%float = true ->
  0 <= N < 2 ^ 53 ->
  0 <= F64.rint_int (F64.clip (c - s / 2) 0 1 * F64.of_int64 N)
    <= F64.rint_int (F64.clip (c + s / 2) 0 1 * F64.of_int64 N) /\
  F64.rint_int (F64.clip (c + s / 2) 0 1 * F64.of_int64 N) <= N.
Proof.
  intros Fc Fs Ns HN.
  assert (H60 : 0 <= N < 2 ^ 60).
  { change (2 ^ 60) with (128 * 2 ^ 53). lia. }
  split; [apply (pixel_order c s N Fc Fs Ns H60)|].
  destruct (sum_not_nan c s Fc Fs Ns) as [_ Nhi].
  apply (pixel_range _ N Nhi HN).
Qed.

Lemma proj_start_pixel (crop_shape : vec3 Z) (center size : vec3 float)
  (a : axis) :
  proj (start_pixel crop_shape center size) a
  = F64.rint_int (F64.clip (proj center a - proj size a / 2) 0 1
                  * F64.of_int64 (proj crop_shape a)).
Proof.
  unfold start_pixel, to_pixels, half.
  rewrite !proj_map3, !proj_zip3, !proj_map3, !proj_zip3, !proj_map3.
  reflexivity.
Qed.

Lemma proj_end_pixel (crop_shape : vec3 Z) (center size : vec3 float)
  (a : axis) :
  proj (end_pixel crop_shape center size) a
  = F64.rint_int (F64.clip (proj center a + proj size a / 2) 0 1
                  * F64.of_int64 (proj crop_shape a)).
Proof.
  unfold end_pixel, to_pixels, half.
  rewrite !proj_map3, !proj_zip3, !proj_map3, !proj_zip3, !proj_map3.
  reflexivity.
Qed.

Lemma pixels_window_ok (crop_shape : vec3 Z) (center size : vec3 float) :
  (forall a, 0 <= proj crop_shape a < 2 ^ 53) ->
  finite3 center -> finite3 size -> nonneg3 size ->
  window_ok crop_shape (start_pixel crop_shape center size)
    (end_pixel crop_shape center size).
Proof.
  intros HN Fc Fs Ns a. rewrite proj_start_pixel, proj_end_pixel.
  apply pixel_window; auto.
Qed.

(** ** The voxels written by [insert_cropped] and by the fillers *)

Lemma proj_zero (a : axis) : proj (0, 0, 0) a = 0.
Proof. destruct a; reflexivity. Qed.

(** The region written by [insert_cropped] is the part of the destination
    that the source, put at [origin], covers. *)
Lemma write_region_covers {V : Type} (base : ndarray V) (where_ : view)
  (what : ndarray V) (origin q : vec3 Z) :
  view_ok base where_ -> shape_ok (shape what) -> int64_vec origin ->
  extents_fit (v_shape where_) (shape what) ->
  nothing_to_insert (v_shape where_) (shape what) origin = false ->
  in_view (write_region where_ what origin) q
  = in_view where_ q
    && in_bounds what (zip3 Z.sub (zip3 Z.sub q (v_off where_)) origin).
Proof.
  intros Hw Hs Ho Hf Hg. apply eq_true_iff_eq.
  rewrite andb_true_iff. unfold in_view, in_bounds.
  rewrite !in_box_iff. split.
  - intros H. split; intros a; specialize (H a);
      destruct (write_region_eq base where_ what origin Hw Hs Ho Hf a Hg)
        as [E1 E2]; rewrite E1, E2 in H;
      destruct (crop_bounds base where_ what origin Hw Hs Ho Hf a Hg)
        as (_ & _ & E3 & E4 & _); rewrite E3, E4 in H;
      rewrite ?proj_zip3, ?proj_zero; lia.
  - intros [H1 H2] a. specialize (H1 a). specialize (H2 a).
    destruct (write_region_eq base where_ what origin Hw Hs Ho Hf a Hg)
      as [-> ->].
    destruct (crop_bounds base where_ what origin Hw Hs Ho Hf a Hg)
      as (_ & _ & -> & -> & _).
    rewrite ?proj_zip3, ?proj_zero in H2. lia.
Qed.

(** The voxel of the source that is copied to the voxel [q] of the
    destination array. *)
Lemma read_index {V : Type} (base : ndarray V) (where_ : view)
  (what : ndarray V) (origin q : vec3 Z) :
  view_ok base where_ -> shape_ok (shape what) -> int64_vec origin ->
  extents_fit (v_shape where_) (shape what) ->
  nothing_to_insert (v_shape where_) (shape what) origin = false ->
  in_view (write_region where_ what origin) q = true ->
  zip3 Z.add (v_off (read_region where_ what origin))
    (bcast_index (v_shape (read_region where_ what origin))
       (zip3 Z.sub q (v_off (write_region where_ what origin))))
  = zip3 Z.sub (zip3 Z.sub q (v_off where_)) origin.
Proof.
  intros Hw Hs Ho Hf Hg Hin. apply vec3_ext. intros a.
  unfold in_view in Hin. rewrite in_box_iff in Hin. specialize (Hin a).
  unfold bcast_index. rewrite !proj_zip3.
  destruct (read_region_eq base where_ what origin Hw Hs Ho Hf a Hg)
    as [E1 E2].
  destruct (write_region_eq base where_ what origin Hw Hs Ho Hf a Hg)
    as [E3 E4].
  destruct (crop_regions base where_ what origin Hw Hs Ho Hf a Hg)
    as (_ & _ & E').
  destruct (crop_bounds base where_ what origin Hw Hs Ho Hf a Hg)
    as (B1 & B2 & B3 & B4 & _).
  rewrite E3, E4 in Hin. rewrite E1, E3.
  destruct (Z.eqb_spec
              (proj (v_shape (read_region where_ what origin)) a) 1); lia.
Qed.

Lemma insert_cropped_pointwise {V : Type} (base : ndarray V)
  (where_ : view) (what : ndarray V) (origin : vec3 Z) :
  view_ok base where_ -> shape_ok (shape what) -> int64_vec origin ->
  extents_fit (v_shape where_) (shape what) ->
  exists base',
    insert_cropped base where_ what origin = Ok base' /\
    shape base' = shape base /\
    forall q,
      data base' q
      = if in_view where_ q
           && in_bounds what (zip3 Z.sub (zip3 Z.sub q (v_off where_)) origin)
        then data what (zip3 Z.sub (zip3 Z.sub q (v_off where_)) origin)
        else data base q.
Proof.
  intros Hw Hs Ho Hf. unfold insert_cropped.
  destruct (nothing_to_insert (v_shape where_) (shape what) origin) eqn:Hg.
  - exists base. split; [reflexivity|]. split; [reflexivity|]. intros q.
    destruct (in_view where_ q
              && in_bounds what
                   (zip3 Z.sub (zip3 Z.sub q (v_off where_)) origin))
      eqn:Hc; [exfalso|reflexivity].
    apply andb_true_iff in Hc. destruct Hc as [H1 H2].
    unfold in_view, in_bounds in *. rewrite in_box_iff in H1, H2.
    apply nothing_to_insert_true_iff in Hg. destruct Hg as [a Ha].
    specialize (H1 a). specialize (H2 a).
    rewrite !proj_zip3, proj_zero in H2.
    pose proof (Hs a) as Hsa. pose proof (Ho a) as Hoa.
    pose proof (Hf a) as Hfa. pose proof (Hw a) as Hwa.
    destruct Ha as [Ha|Ha].
    + apply add_extent_nonpos in Ha; [|exact Hsa|exact Hoa]. lia.
    + rewrite Z.geb_leb in Ha. apply Z.leb_le in Ha. lia.
  - unfold assign_view.
    rewrite (regions_broadcastable base where_ what origin Hw Hs Ho Hf Hg).
    eexists. split; [reflexivity|]. split; [reflexivity|]. intros q.
    cbn [data].
    rewrite <- (write_region_covers base where_ what origin q Hw Hs Ho Hf Hg).
    destruct (in_view (write_region where_ what origin) q) eqn:Hin;
      [|reflexivity].
    rewrite (read_index base where_ what origin q Hw Hs Ho Hf Hg Hin).
    reflexivity.
Qed.

Lemma rect_item_data {V : Type} (one : V)
  (start end_ nodules_start nodules_size : list (vec3 Z)) (i : nat)
  (m : ndarray V) (s e origin size : vec3 Z) :
  nth_error start i = Some s -> nth_error end_ i = Some e ->
  nth_error nodules_start i = Some origin ->
  nth_error nodules_size i = Some size ->
  window_ok (shape m) s e -> box_ok s e origin size ->
  exists m',
    rect_item one start end_ nodules_start nodules_size i m = Ok m' /\
    shape m' = shape m /\
    forall q,
      data m' q = if rect_sets s e origin size q then one else data m q.
Proof.
  intros Hs He Ho Hz Hw (Hsize & Horigin & Hfit).
  rewrite (rect_item_insert one _ _ _ _ i m s e origin size)
    by assumption.
  destruct (insert_cropped_pointwise m
              {| v_off := s; v_shape := zip3 Z.sub e s |}
              {| shape := size; data := fun _ => one |} origin)
    as (m' & E & Eshape & Hdata); try assumption.
  { apply window_view_ok. exact Hw. }
  exists m'. split; [exact E|]. split; [exact Eshape|]. intros q.
  rewrite Hdata. cbn [data v_off].
  replace (in_view {| v_off := s; v_shape := zip3 Z.sub e s |} q
           && in_bounds {| shape := size; data := fun _ : vec3 Z => one |}
                (zip3 Z.sub (zip3 Z.sub q s) origin))
    with (rect_sets s e origin size q); [reflexivity|].
  unfold rect_sets, in_window, in_view, in_bounds. cbn [v_off v_shape shape].
  f_equal. apply eq_true_iff_eq. rewrite !in_box_iff.
  split; intros H a; specialize (H a);
    rewrite ?proj_zip3, ?proj_zero in *; lia.
Qed.

Lemma seq_snoc (k : nat) : seq 0 (S k) = seq 0 k ++ [k].
Proof. rewrite seq_S. reflexivity. Qed.

Lemma existsb_snoc (g : nat -> bool) (k : nat) :
  existsb g (seq 0 (S k)) = existsb g (seq 0 k) || g k.
Proof.
  rewrite seq_snoc, existsb_app. cbn [existsb]. rewrite orb_false_r.
  reflexivity.
Qed.

(** What a loop over the items does to a voxel, when item [k] sets the
    voxels that [sets k] selects. *)
Lemma for_each_union {V : Type} (one : V) (n : nat)
  (body : nat -> ndarray V -> result (ndarray V))
  (sets : nat -> vec3 Z -> bool) (m : ndarray V) :
  (forall k t, (k < n)%nat -> shape t = shape m ->
     exists t', body k t = Ok t' /\ shape t' = shape t /\
       forall q, data t' q = if sets k q then one else data t q) ->
  exists m',
    for_each (seq 0 n) body m = Ok m' /\
    shape m' = shape m /\
    forall q,
      data m' q
      = if existsb (fun k => sets k q) (seq 0 n) then one else data m q.
Proof.
  intros Hstep.
  destruct (for_each_seq_inv
              (fun k t => shape t = shape m /\
                 forall q, data t q
                           = if existsb (fun j => sets j q) (seq 0 k)
                             then one else data m q)
              n body m) as (m' & E & Hshape & Hdata).
  - split; [reflexivity|]. intros q. reflexivity.
  - intros k t Hk [Et Ht].
    destruct (Hstep k t Hk Et) as (t' & E' & Et' & Ht').
    exists t'. split; [exact E'|]. split; [congruence|]. intros q.
    rewrite Ht', existsb_snoc, Ht.
    destruct (existsb (fun j => sets j q) (seq 0 k)), (sets k q);
      reflexivity.
  - exists m'. auto.
Qed.

Lemma make_rect_mask_data {V : Type} (one : V) (batch_mask : ndarray V)
  (start end_ nodules_start nodules_size : list (vec3 Z)) :
  windows_ok (shape batch_mask) start end_ ->
  boxes_ok start end_ nodules_start nodules_size ->
  exists m',
    make_rect_mask_numba one batch_mask start end_ nodules_start
      nodules_size = Ok m' /\
    shape m' = shape batch_mask /\
    forall q,
      data m' q
      = if rect_covers start end_ nodules_start nodules_size q
        then one else data batch_mask q.
Proof.
  intros [Hlen Hwin] (Hl1 & Hl2 & Hbox).
  unfold make_rect_mask_numba, rect_covers.
  apply (for_each_union one (length nodules_start)
           (rect_item one start end_ nodules_start nodules_size)
           (fun i q =>
              match nth_error start i, nth_error end_ i,
                    nth_error nodules_start i, nth_error nodules_size i with
              | Some s, Some e, Some origin, Some size =>
                  rect_sets s e origin size q
              | _, _, _, _ => false
              end)).
  intros i t Hi Et.
  destruct (row_lt start i) as (s & Es & _); [lia|].
  destruct (row_lt end_ i) as (e & Ee & _); [lia|].
  destruct (row_lt nodules_start i) as (o & Eo & _); [lia|].
  destruct (row_lt nodules_size i) as (z & Ez & _); [lia|].
  rewrite Es, Ee, Eo, Ez.
  apply rect_item_data; try assumption.
  - rewrite Et. apply (Hwin i); assumption.
  - apply (Hbox i); assumption.
Qed.

Lemma make_ellipse_mask_data {V : Type} (one : V) (batch_mask : ndarray V)
  (start end_ centers radiuses : list (vec3 Z)) :
  shape_ok (shape batch_mask) ->
  windows_ok (shape batch_mask) start end_ ->
  ellipsoids_ok start centers radiuses ->
  exists m',
    make_ellipse_mask_numba one batch_mask start end_ centers radiuses
    = Ok m' /\
    shape m' = shape batch_mask /\
    forall q,
      data m' q
      = if ellipse_covers start end_ centers radiuses q
        then one else data batch_mask q.
Proof.
  intros Hsh [Hlen Hwin] (Hl1 & Hl2 & Hrad).
  unfold make_ellipse_mask_numba, ellipse_covers.
  apply (for_each_union one (length centers)
           (ellipse_item one start end_ centers radiuses)
           (fun i q =>
              match nth_error start i, nth_error end_ i,
                    nth_error centers i, nth_error radiuses i with
              | Some s, Some e, Some center, Some radius =>
                  ellipse_sets s e center radius q
              | _, _, _, _ => false
              end)).
  intros i t Hi Et.
  destruct (row_lt start i) as (s & Es & _); [lia|].
  destruct (row_lt end_ i) as (e & Ee & _); [lia|].
  destruct (row_lt centers i) as (c & Ec & _); [lia|].
  destruct (row_lt radiuses i) as (r & Er & _); [lia|].
  rewrite Es, Ee, Ec, Er.
  apply ellipse_item_data; try assumption.
  - rewrite Et. exact Hsh.
  - rewrite Et. apply (Hwin i); assumption.
  - apply (Hrad i); assumption.
Qed.

Lemma rect_covers_iff (start end_ nodules_start nodules_size
  : list (vec3 Z)) (q : vec3 Z) :
  rect_covers start end_ nodules_start nodules_size q = true <->
  exists i s e origin size,
    nth_error start i = Some s /\ nth_error end_ i = Some e /\
    nth_error nodules_start i = Some origin /\
    nth_error nodules_size i = Some size /\
    rect_sets s e origin size q = true.
Proof.
  unfold rect_covers. rewrite existsb_exists. split.
  - intros (i & _ & H).
    destruct (nth_error start i) as [s|] eqn:Es; [|discriminate].
    destruct (nth_error end_ i) as [e|] eqn:Ee; [|discriminate].
    destruct (nth_error nodules_start i) as [o|] eqn:Eo; [|discriminate].
    destruct (nth_error nodules_size i) as [z|] eqn:Ez; [|discriminate].
    exists i, s, e, o, z. repeat split; assumption.
  - intros (i & s & e & o & z & Es & Ee & Eo & Ez & H). exists i. split.
    + apply in_seq. split; [lia|]. cbn. apply nth_error_Some. congruence.
    + rewrite Es, Ee, Eo, Ez. exact H.
Qed.

Lemma ellipse_covers_iff (start end_ centers radiuses : list (vec3 Z))
  (q : vec3 Z) :
  ellipse_covers start end_ centers radiuses q = true <->
  exists i s e center radius,
    nth_error start i = Some s /\ nth_error end_ i = Some e /\
    nth_error centers i = Some center /\
    nth_error radiuses i = Some radius /\
    ellipse_sets s e center radius q = true.
Proof.
  unfold ellipse_covers. rewrite existsb_exists. split.
  - intros (i & _ & H).
    destruct (nth_error start i) as [s|] eqn:Es; [|discriminate].
    destruct (nth_error end_ i) as [e|] eqn:Ee; [|discriminate].
    destruct (nth_error centers i) as [c|] eqn:Ec; [|discriminate].
    destruct (nth_error radiuses i) as [r|] eqn:Er; [|discriminate].
    exists i, s, e, c, r. repeat split; assumption.
  - intros (i & s & e & c & r & Es & Ee & Ec & Er & H). exists i. split.
    + apply in_seq. split; [lia|]. cbn. apply nth_error_Some. congruence.
    + rewrite Es, Ee, Ec, Er. exact H.
Qed.

(** The four parallel arrays of a list of nodules. *)
Lemma nth_error_nodule (nodules : list nodule) (i : nat)
  (s e p x : vec3 Z) :
  nth_error (map win_start nodules) i = Some s ->
  nth_error (map win_end nodules) i = Some e ->
  nth_error (map nod_place nodules) i = Some p ->
  nth_error (map nod_extent nodules) i = Some x ->
  nth_error nodules i = Some (s, e, p, x).
Proof.
  rewrite !nth_error_map.
  destruct (nth_error nodules i) as [[[[s' e'] p'] x']|]; cbn;
    [|discriminate].
  unfold win_start, win_end, nod_place, nod_extent. cbn.
  intros Es Ee Ep Ex. injection Es as <-. injection Ee as <-.
  injection Ep as <-. injection Ex as <-. reflexivity.
Qed.

Lemma covers_nodules (sets : vec3 Z -> vec3 Z -> vec3 Z -> vec3 Z ->
                             vec3 Z -> bool)
  (nodules : list nodule) (q : vec3 Z) :
  existsb (fun i =>
    match nth_error (map win_start nodules) i,
          nth_error (map win_end nodules) i,
          nth_error (map nod_place nodules) i,
          nth_error (map nod_extent nodules) i with
    | Some s, Some e, Some p, Some x => sets s e p x q
    | _, _, _, _ => false
    end) (seq 0 (length nodules))
  = existsb (fun n => sets (win_start n) (win_end n) (nod_place n)
                        (nod_extent n) q) nodules.
Proof.
  apply eq_true_iff_eq. rewrite !existsb_exists. split.
  - intros (i & _ & H). rewrite !nth_error_map in H.
    destruct (nth_error nodules i) as [n|] eqn:E; cbn in H; [|discriminate].
    exists n. split; [|exact H]. apply (nth_error_In _ _ E).
  - intros (n & Hin & H). apply In_nth_error in Hin.
    destruct Hin as [i Hi]. exists i. split.
    + apply in_seq. split; [lia|]. cbn. apply nth_error_Some. congruence.
    + rewrite !nth_error_map, Hi. cbn. exact H.
Qed.

Lemma existsb_permutation {A : Type} (f : A -> bool) (l l' : list A) :
  Permutation l l' -> existsb f l = existsb f l'.
Proof.
  intros P. apply eq_true_iff_eq. rewrite !existsb_exists.
  split; intros (x & Hin & H); exists x; split; try exact H.
  - apply (Permutation_in _ P Hin).
  - apply (Permutation_in _ (Permutation_sym P) Hin).
Qed.

Lemma box_nodules_ok (sh : vec3 Z) (nodules : list nodule) :
  Forall (box_nodule_ok sh) nodules ->
  windows_ok sh (map win_start nodules) (map win_end nodules) /\
  boxes_ok (map win_start nodules) (map win_end nodules)
    (map nod_place nodules) (map nod_extent nodules).
Proof.
  intros H. rewrite Forall_forall in H. split.
  - split; [rewrite !length_map; reflexivity|].
    intros i s e Es Ee. rewrite nth_error_map in Es, Ee.
    destruct (nth_error nodules i) as [n|] eqn:E; [|discriminate].
    cbn in Es, Ee. injection Es as <-. injection Ee as <-.
    apply (H n (nth_error_In _ _ E)).
  - split; [rewrite !length_map; reflexivity|].
    split; [rewrite !length_map; reflexivity|].
    intros i s e o z Es Ee Eo Ez.
    pose proof (nth_error_nodule nodules i s e o z Es Ee Eo Ez) as E.
    apply (H _ (nth_error_In _ _ E)).
Qed.

Lemma ellipsoid_nodules_ok (sh : vec3 Z) (nodules : list nodule) :
  Forall (ellipsoid_nodule_ok sh) nodules ->
  windows_ok sh (map win_start nodules) (map win_end nodules) /\
  ellipsoids_ok (map win_start nodules) (map nod_place nodules)
    (map nod_extent nodules).
Proof.
  intros H. rewrite Forall_forall in H. split.
  - split; [rewrite !length_map; reflexivity|].
    intros i s e Es Ee. rewrite nth_error_map in Es, Ee.
    destruct (nth_error nodules i) as [n|] eqn:E; [|discriminate].
    cbn in Es, Ee. injection Es as <-. injection Ee as <-.
    apply (H n (nth_error_In _ _ E)).
  - split; [rewrite !length_map; reflexivity|].
    split; [rewrite !length_map; reflexivity|].
    intros i r Er. rewrite nth_error_map in Er.
    destruct (nth_error nodules i) as [n|] eqn:E; [|discriminate].
    cbn in Er. injection Er as <-.
    apply (H n (nth_error_In _ _ E)).
Qed.

Lemma fill_boxes_data {V : Type} (one : V) (m : ndarray V)
  (nodules : list nodule) :
  Forall (box_nodule_ok (shape m)) nodules ->
  exists m',
    fill_boxes one m nodules = Ok m' /\ shape m' = shape m /\
    forall q,
      data m' q
      = if existsb (fun n => rect_sets (win_start n) (win_end n)
                               (nod_place n) (nod_extent n) q) nodules
        then one else data m q.
Proof.
  intros H. destruct (box_nodules_ok _ _ H) as [Hw Hb].
  destruct (make_rect_mask_data one m _ _ _ _ Hw Hb)
    as (m' & E & Es & Hd).
  exists m'. split; [exact E|]. split; [exact Es|]. intros q.
  rewrite Hd. unfold rect_covers. rewrite length_map.
  rewrite (covers_nodules rect_sets). reflexivity.
Qed.

Lemma fill_ellipsoids_data {V : Type} (one : V) (m : ndarray V)
  (nodules : list nodule) :
  shape_ok (shape m) ->
  Forall (ellipsoid_nodule_ok (shape m)) nodules ->
  exists m',
    fill_ellipsoids one m nodules = Ok m' /\ shape m' = shape m /\
    forall q,
      data m' q
      = if existsb (fun n => ellipse_sets (win_start n) (win_end n)
                               (nod_place n) (nod_extent n) q) nodules
        then one else data m q.
Proof.
  intros Hsh H. destruct (ellipsoid_nodules_ok _ _ H) as [Hw Hb].
  destruct (make_ellipse_mask_data one m _ _ _ _ Hsh Hw Hb)
    as (m' & E & Es & Hd).
  exists m'. split; [exact E|]. split; [exact Es|]. intros q.
  rewrite Hd. unfold ellipse_covers. rewrite length_map.
  rewrite (covers_nodules ellipse_sets). reflexivity.
Qed.

(** ** Further properties of the mask functions *)

(** X1 ([create_mask_reg], the two [np.rint] lines): for a finite center
    and a finite size that is not negative, and crop extents below 2^60,
    the start pixel is at least 0 and at most the end pixel on every
    axis. *)
Theorem pixels_ordered (crop_shape : vec3 Z) (center size : vec3 float) :
  (forall a, 0 <= proj crop_shape a < 2 ^ 60) ->
  finite3 center -> finite3 size -> nonneg3 size ->
  forall a,
    0 <= proj (start_pixel crop_shape center size) a
      <= proj (end_pixel crop_shape center size) a.
Proof.
  intros HN Fc Fs Ns a. rewrite proj_start_pixel, proj_end_pixel.
  apply pixel_order; auto.
Qed.

Lemma pixels_ordered_witness :
  0 <= proj (start_pixel (10, 10, 10) tiny_center tiny_size) ax0
    <= proj (end_pixel (10, 10, 10) tiny_center tiny_size) ax0.
Proof.
  apply pixels_ordered.
  - intros a; destruct a; cbn; lia.
  - intros a; destruct a; reflexivity.
  - intros a; destruct a; reflexivity.
  - intros a; destruct a; reflexivity.
Defined.

(** X2 ([create_mask_reg]): for crop extents below 2^53, which float64
    holds exactly, the start and end pixels of a finite center and a
    finite non-negative size form a window of the crop: no slice bound of
    [create_mask_reg_jit] is negative or beyond the crop. *)
Theorem pixels_in_crop (crop_shape : vec3 Z) (center size : vec3 float) :
  (forall a, 0 <= proj crop_shape a < 2 ^ 53) ->
  finite3 center -> finite3 size -> nonneg3 size ->
  window_ok crop_shape (start_pixel crop_shape center size)
    (end_pixel crop_shape center size) /\
  slice_view (whole (zeros_array crop_shape))
    (start_pixel crop_shape center size) (end_pixel crop_shape center size)
  = {| v_off := start_pixel crop_shape center size;
       v_shape := zip3 Z.sub (end_pixel crop_shape center size)
                    (start_pixel crop_shape center size) |}.
Proof.
  intros HN Fc Fs Ns.
  pose proof (pixels_window_ok crop_shape center size HN Fc Fs Ns) as W.
  split; [exact W|]. apply window_view. exact W.
Qed.

Lemma pixels_in_crop_witness :
  window_ok (4, 4, 4)
    (start_pixel (4, 4, 4) tiny_center (0.5, 0.5, 0.5)%float)
    (end_pixel (4, 4, 4) tiny_center (0.5, 0.5, 0.5)%float).
Proof.
  apply pixels_in_crop.
  - intros a; destruct a; cbn; lia.
  - intros a; destruct a; reflexivity.
  - intros a; destruct a; reflexivity.
  - intros a; destruct a; reflexivity.
Defined.

(** X3 ([create_mask_reg], clipping): on an axis whose crop extent is
    below 2^53, a box that starts at or below coordinate 0 starts at
    pixel 0, and a box that ends at or beyond coordinate 1 ends at the
    crop extent. *)
Theorem pixels_clipped (crop_shape : vec3 Z) (center size : vec3 float)
  (a : axis) :
  0 <= proj crop_shape a < 2 ^ 53 ->
  ((proj center a - proj size a / 2 <=? 0)%float = true ->
   proj (start_pixel crop_shape center size) a = 0) /\
  ((1 <=? proj center a + proj size a / 2)%float = true ->
   proj (end_pixel crop_shape center size) a = proj crop_shape a).
Proof.
  intros HN. rewrite proj_start_pixel, proj_end_pixel. split; intros H.
  - apply pixel_low; [exact H|].
    change (2 ^ 60) with (128 * 2 ^ 53). lia.
  - apply pixel_high; assumption.
Qed.

Lemma pixels_clipped_witness :
  proj (start_pixel (10, 10, 10) tiny_center (2, 2, 2)%float) ax0 = 0 /\
  proj (end_pixel (10, 10, 10) tiny_center (2, 2, 2)%float) ax0 = 10.
Proof.
  destruct (pixels_clipped (10, 10, 10) tiny_center (2, 2, 2)%float ax0)
    as [L H]; [cbn; lia|].
  split; [apply L|apply H]; reflexivity.
Defined.





(** X6 ([insert_cropped]): the call sets exactly the voxels of the
    destination that the source covers when its first voxel is put at
    [origin], each to the source voxel that lies on it, and changes no
    other voxel of the array; this includes the calls that insert
    nothing. *)
Theorem insert_cropped_voxels {V : Type} (base : ndarray V)
  (where_ : view) (what : ndarray V) (origin : vec3 Z) :
  view_ok base where_ -> shape_ok (shape what) -> int64_vec origin ->
  extents_fit (v_shape where_) (shape what) ->
  exists base',
    insert_cropped base where_ what origin = Ok base' /\
    shape base' = shape base /\
    forall q,
      (in_view where_ q = true ->
       in_bounds what (zip3 Z.sub (zip3 Z.sub q (v_off where_)) origin)
       = true ->
       data base' q
       = data what (zip3 Z.sub (zip3 Z.sub q (v_off where_)) origin)) /\
      (in_view where_ q = false \/
       in_bounds what (zip3 Z.sub (zip3 Z.sub q (v_off where_)) origin)
       = false ->
       data base' q = data base q).
Proof.
  intros Hw Hs Ho Hf.
  destruct (insert_cropped_pointwise base where_ what origin Hw Hs Ho Hf)
    as (base' & E & Es & Hd).
  exists base'. split; [exact E|]. split; [exact Es|]. intros q.
  rewrite Hd. split.
  - intros -> ->. reflexivity.
  - intros [-> | ->]; rewrite ?andb_false_r; reflexivity.
Qed.

Lemma insert_cropped_voxels_witness :
  exists base',
    insert_cropped example_where (whole example_where) example_what
      (2, -1, 1) = Ok base' /\
    data base' (2, 0, 2) = 1 /\ data base' (2, 1, 2) = 0.
Proof.
  destruct (insert_cropped_voxels example_where (whole example_where)
              example_what (2, -1, 1)) as (base' & E & _ & Hd);
    try by_axes.
  exists base'. split; [exact E|]. split.
  - destruct (Hd (2, 0, 2)) as [H1 _]. apply H1; reflexivity.
  - destruct (Hd (2, 1, 2)) as [_ H2]. apply H2. right. reflexivity.
Defined.

(** X7 ([insert_cropped]): inserting the same source at the same origin a
    second time changes nothing. *)
Theorem insert_cropped_idempotent {V : Type} (base : ndarray V)
  (where_ : view) (what : ndarray V) (origin : vec3 Z) :
  view_ok base where_ -> shape_ok (shape what) -> int64_vec origin ->
  extents_fit (v_shape where_) (shape what) ->
  exists once twice,
    insert_cropped base where_ what origin = Ok once /\
    insert_cropped once where_ what origin = Ok twice /\
    shape twice = shape once /\
    forall q, data twice q = data once q.
Proof.
  intros Hw Hs Ho Hf.
  destruct (insert_cropped_pointwise base where_ what origin Hw Hs Ho Hf)
    as (once & E1 & Es1 & Hd1).
  assert (Hw1 : view_ok once where_).
  { intros a. rewrite Es1. apply (Hw a). }
  destruct (insert_cropped_pointwise once where_ what origin Hw1 Hs Ho Hf)
    as (twice & E2 & Es2 & Hd2).
  exists once, twice. split; [exact E1|]. split; [exact E2|].
  split; [exact Es2|]. intros q. rewrite Hd2, Hd1.
  destruct (in_view where_ q
            && in_bounds what
                 (zip3 Z.sub (zip3 Z.sub q (v_off where_)) origin));
    reflexivity.
Qed.

Lemma insert_cropped_idempotent_witness :
  exists once twice,
    insert_cropped example_where (whole example_where) example_what
      (2, -1, 1) = Ok once /\
    insert_cropped once (whole example_where) example_what (2, -1, 1)
    = Ok twice /\
    shape twice = shape once /\
    data twice (2, 0, 2) = data once (2, 0, 2).
Proof.
  destruct (insert_cropped_idempotent example_where (whole example_where)
              example_what (2, -1, 1)) as (once & twice & E1 & E2 & Es & Hd);
    try by_axes.
  exists once, twice. split; [exact E1|]. split; [exact E2|].
  split; [exact Es|]. apply Hd.
Defined.

(** X8 ([make_rect_mask_numba]): the box filler sets to 1 exactly the
    voxels that lie in the window of some nodule and in its box placed in
    that window; every other voxel keeps its value, so no voxel that is 1
    is cleared. *)
Theorem make_rect_mask_voxels {V : Type} (one : V) (batch_mask : ndarray V)
  (start end_ nodules_start nodules_size : list (vec3 Z)) :
  windows_ok (shape batch_mask) start end_ ->
  boxes_ok start end_ nodules_start nodules_size ->
  exists m',
    make_rect_mask_numba one batch_mask start end_ nodules_start
      nodules_size = Ok m' /\
    shape m' = shape batch_mask /\
    forall q,
      ((exists i s e origin size,
          nth_error start i = Some s /\ nth_error end_ i = Some e /\
          nth_error nodules_start i = Some origin /\
          nth_error nodules_size i = Some size /\
          rect_sets s e origin size q = true) ->
       data m' q = one) /\
      ((forall i s e origin size,
          nth_error start i = Some s -> nth_error end_ i = Some e ->
          nth_error nodules_start i = Some origin ->
          nth_error nodules_size i = Some size ->
          rect_sets s e origin size q = false) ->
       data m' q = data batch_mask q) /\
      (data batch_mask q = one -> data m' q = one).
Proof.
  intros Hw Hb.
  destruct (make_rect_mask_data one batch_mask _ _ _ _ Hw Hb)
    as (m' & E & Es & Hd).
  exists m'. split; [exact E|]. split; [exact Es|]. intros q.
  rewrite Hd.
  destruct (rect_covers start end_ nodules_start nodules_size q) eqn:C.
  - split; [reflexivity|]. split; [|reflexivity]. intros H.
    apply rect_covers_iff in C.
    destruct C as (i & s & e & o & z & Hs & He & Ho & Hz & C).
    rewrite (H i s e o z Hs He Ho Hz) in C. discriminate C.
  - split; [|split; auto]. intros H.
    apply rect_covers_iff in H. congruence.
Qed.

Lemma make_rect_mask_voxels_witness :
  exists m',
    make_rect_mask_numba 1 example_batch [(1, 1, 1)] [(4, 4, 4)]
      [(2, -1, 1)] [(2, 2, 5)] = Ok m' /\
    data m' (3, 1, 2) = 1.
Proof.
  destruct (make_rect_mask_voxels 1 example_batch [(1, 1, 1)] [(4, 4, 4)]
              [(2, -1, 1)] [(2, 2, 5)]) as (m' & E & _ & Hd).
  - split; [reflexivity|]. intros i s e Hs He.
    apply nth_error_singleton in Hs, He. subst. by_axes.
  - split; [reflexivity|]. split; [reflexivity|].
    intros i s e o z Hs He Ho Hz.
    apply nth_error_singleton in Hs, He, Ho, Hz. subst.
    split; [by_axes|split; by_axes].
  - exists m'. split; [exact E|].
    destruct (Hd (3, 1, 2)) as [H1 _]. apply H1.
    exists 0%nat, (1, 1, 1), (4, 4, 4), (2, -1, 1), (2, 2, 5).
    repeat split; reflexivity.
Defined.

(** X9 ([make_ellipse_mask_numba]): the ellipsoid filler sets to 1
    exactly the voxels that some nodule scans and accepts with its float64
    test; every other voxel keeps its value, so no voxel that is 1 is
    cleared. *)
Theorem make_ellipse_mask_voxels {V : Type} (one : V)
  (batch_mask : ndarray V) (start end_ centers radiuses : list (vec3 Z)) :
  shape_ok (shape batch_mask) ->
  windows_ok (shape batch_mask) start end_ ->
  ellipsoids_ok start centers radiuses ->
  exists m',
    make_ellipse_mask_numba one batch_mask start end_ centers radiuses
    = Ok m' /\
    shape m' = shape batch_mask /\
    forall q,
      ((exists i s e center radius,
          nth_error start i = Some s /\ nth_error end_ i = Some e /\
          nth_error centers i = Some center /\
          nth_error radiuses i = Some radius /\
          ellipse_sets s e center radius q = true) ->
       data m' q = one) /\
      ((forall i s e center radius,
          nth_error start i = Some s -> nth_error end_ i = Some e ->
          nth_error centers i = Some center ->
          nth_error radiuses i = Some radius ->
          ellipse_sets s e center radius q = false) ->
       data m' q = data batch_mask q) /\
      (data batch_mask q = one -> data m' q = one).
Proof.
  intros Hsh Hw Hb.
  destruct (make_ellipse_mask_data one batch_mask _ _ _ _ Hsh Hw Hb)
    as (m' & E & Es & Hd).
  exists m'. split; [exact E|]. split; [exact Es|]. intros q.
  rewrite Hd.
  destruct (ellipse_covers start end_ centers radiuses q) eqn:C.
  - split; [reflexivity|]. split; [|reflexivity]. intros H.
    apply ellipse_covers_iff in C.
    destruct C as (i & s & e & c & r & Hs & He & Hc & Hr & C).
    rewrite (H i s e c r Hs He Hc Hr) in C. discriminate C.
  - split; [|split; auto]. intros H.
    apply ellipse_covers_iff in H. congruence.
Qed.

Lemma make_ellipse_mask_voxels_witness :
  exists m',
    make_ellipse_mask_numba 1 example_batch [(1, 1, 1)] [(4, 4, 4)]
      [(1, 1, 1)] [(1, 1, 1)] = Ok m' /\
    data m' (2, 2, 2) = 1.
Proof.
  destruct (make_ellipse_mask_voxels 1 example_batch [(1, 1, 1)]
              [(4, 4, 4)] [(1, 1, 1)] [(1, 1, 1)]) as (m' & E & _ & Hd).
  - by_axes.
  - split; [reflexivity|]. intros i s e Hs He.
    apply nth_error_singleton in Hs, He. subst. by_axes.
  - split; [reflexivity|]. split; [reflexivity|].
    intros i r Hr. apply nth_error_singleton in Hr. subst.
    intros a; destruct a; cbn; lia.
  - exists m'. split; [exact E|].
    destruct (Hd (2, 2, 2)) as [H1 _]. apply H1.
    exists 0%nat, (1, 1, 1), (4, 4, 4), (1, 1, 1), (1, 1, 1).
    repeat split; reflexivity.
Defined.

(** X10 ([make_rect_mask_numba]): the mask that the box filler produces
    does not depend on the order in which the nodules are listed. *)
Theorem fill_boxes_order {V : Type} (one : V) (batch_mask : ndarray V)
  (nodules nodules' : list nodule) :
  Forall (box_nodule_ok (shape batch_mask)) nodules ->
  Permutation nodules nodules' ->
  exists m1 m2,
    fill_boxes one batch_mask nodules = Ok m1 /\
    fill_boxes one batch_mask nodules' = Ok m2 /\
    shape m1 = shape m2 /\
    forall q, data m1 q = data m2 q.
Proof.
  intros H P.
  assert (H' : Forall (box_nodule_ok (shape batch_mask)) nodules')
    by (apply (Permutation_Forall P H)).
  destruct (fill_boxes_data one batch_mask nodules H)
    as (m1 & E1 & Es1 & Hd1).
  destruct (fill_boxes_data one batch_mask nodules' H')
    as (m2 & E2 & Es2 & Hd2).
  exists m1, m2. split; [exact E1|]. split; [exact E2|].
  split; [congruence|]. intros q.
  rewrite Hd1, Hd2, (existsb_permutation _ _ _ P). reflexivity.
Qed.

Lemma fill_boxes_order_witness :
  exists m1 m2,
    fill_boxes 1 example_batch
      [((1, 1, 1), (4, 4, 4), (2, -1, 1), (2, 2, 5));
       ((0, 0, 0), (2, 2, 2), (0, 0, 0), (1, 1, 1))] = Ok m1 /\
    fill_boxes 1 example_batch
      [((0, 0, 0), (2, 2, 2), (0, 0, 0), (1, 1, 1));
       ((1, 1, 1), (4, 4, 4), (2, -1, 1), (2, 2, 5))] = Ok m2 /\
    shape m1 = shape m2 /\
    data m1 (3, 1, 2) = data m2 (3, 1, 2).
Proof.
  destruct (fill_boxes_order 1 example_batch
              [((1, 1, 1), (4, 4, 4), (2, -1, 1), (2, 2, 5));
               ((0, 0, 0), (2, 2, 2), (0, 0, 0), (1, 1, 1))]
              [((0, 0, 0), (2, 2, 2), (0, 0, 0), (1, 1, 1));
               ((1, 1, 1), (4, 4, 4), (2, -1, 1), (2, 2, 5))])
    as (m1 & m2 & E1 & E2 & Es & Hd).
  - apply Forall_cons; [|apply Forall_cons; [|apply Forall_nil]];
      (split; [by_axes|split; [by_axes|split; by_axes]]).
  - apply perm_swap.
  - exists m1, m2. split; [exact E1|]. split; [exact E2|].
    split; [exact Es|]. apply Hd.
Defined.

(** X11 ([make_ellipse_mask_numba]): the mask that the ellipsoid filler
    produces does not depend on the order in which the nodules are
    listed. *)
Theorem fill_ellipsoids_order {V : Type} (one : V) (batch_mask : ndarray V)
  (nodules nodules' : list nodule) :
  shape_ok (shape batch_mask) ->
  Forall (ellipsoid_nodule_ok (shape batch_mask)) nodules ->
  Permutation nodules nodules' ->
  exists m1 m2,
    fill_ellipsoids one batch_mask nodules = Ok m1 /\
    fill_ellipsoids one batch_mask nodules' = Ok m2 /\
    shape m1 = shape m2 /\
    forall q, data m1 q = data m2 q.
Proof.
  intros Hsh H P.
  assert (H' : Forall (ellipsoid_nodule_ok (shape batch_mask)) nodules')
    by (apply (Permutation_Forall P H)).
  destruct (fill_ellipsoids_data one batch_mask nodules Hsh H)
    as (m1 & E1 & Es1 & Hd1).
  destruct (fill_ellipsoids_data one batch_mask nodules' Hsh H')
    as (m2 & E2 & Es2 & Hd2).
  exists m1, m2. split; [exact E1|]. split; [exact E2|].
  split; [congruence|]. intros q.
  rewrite Hd1, Hd2, (existsb_permutation _ _ _ P). reflexivity.
Qed.

Lemma fill_ellipsoids_order_witness :
  exists m1 m2,
    fill_ellipsoids 1 example_batch
      [((1, 1, 1), (4, 4, 4), (1, 1, 1), (1, 1, 1));
       ((0, 0, 0), (2, 2, 2), (0, 0, 0), (2, 2, 2))] = Ok m1 /\
    fill_ellipsoids 1 example_batch
      [((0, 0, 0), (2, 2, 2), (0, 0, 0), (2, 2, 2));
       ((1, 1, 1), (4, 4, 4), (1, 1, 1), (1, 1, 1))] = Ok m2 /\
    shape m1 = shape m2 /\
    data m1 (2, 2, 2) = data m2 (2, 2, 2).
Proof.
  destruct (fill_ellipsoids_order 1 example_batch
              [((1, 1, 1), (4, 4, 4), (1, 1, 1), (1, 1, 1));
               ((0, 0, 0), (2, 2, 2), (0, 0, 0), (2, 2, 2))]
              [((0, 0, 0), (2, 2, 2), (0, 0, 0), (2, 2, 2));
               ((1, 1, 1), (4, 4, 4), (1, 1, 1), (1, 1, 1))])
    as (m1 & m2 & E1 & E2 & Es & Hd).
  - by_axes.
  - apply Forall_cons; [|apply Forall_cons; [|apply Forall_nil]];
      (split; [by_axes|intros a; destruct a; cbn; lia]).
  - apply perm_swap.
  - exists m1, m2. split; [exact E1|]. split; [exact E2|].
    split; [exact Es|]. apply Hd.
Defined.

(** ** Exceptions of the fillers *)

(** A loop whose first [i] items succeed and whose item [i] raises. *)
Lemma for_each_seq_raise {S : Type} (I : S -> Prop) (n i : nat)
  (body : nat -> S -> result S) (s : S) (ex : exn) :
  (i < n)%nat -> I s ->
  (forall k t, (k < i)%nat -> I t -> exists t', body k t = Ok t' /\ I t') ->
  (forall t, I t -> body i t = Raise ex) ->
  for_each (seq 0 n) body s = Raise ex.
Proof.
  intros Hi Hs Hstep Hraise.
  replace n with (i + Datatypes.S (n - i - 1))%nat by lia.
  rewrite seq_app, for_each_app.
  destruct (for_each_seq_inv (fun _ t => I t) i body s Hs)
    as (t & -> & Ht).
  { intros k t Hk Ht. apply (Hstep k t Hk Ht). }
  cbn [bind seq for_each Nat.add]. rewrite (Hraise t Ht). reflexivity.
Qed.

Lemma np_ones_negative {V : Type} (one : V) (size : vec3 Z) :
  (exists a, proj size a < 0) -> np_ones one size = Raise ValueError.
Proof.
  intros [a Ha]. unfold np_ones.
  replace (any3 (map3 (fun n => n <? 0) size)) with true; [reflexivity|].
  symmetry. apply any3_true_iff. exists a. rewrite proj_map3.
  apply Z.ltb_lt. exact Ha.
Qed.

Lemma inside_ellipse_zero_radius (p center radius : vec3 Z) :
  (exists a, proj radius a = 0) ->
  inside_ellipse p center radius = Raise ZeroDivisionError.
Proof.
  intros [a Ha]. destruct p as [[x y] z]. unfold inside_ellipse, true_div.
  destruct (Z.eqb_spec (proj radius ax0) 0) as [E0|N0]; [reflexivity|].
  destruct (Z.eqb_spec (proj radius ax1) 0) as [E1|N1]; [reflexivity|].
  destruct (Z.eqb_spec (proj radius ax2) 0) as [E2|N2]; [reflexivity|].
  destruct a; contradiction.
Qed.

Lemma ellipse_item_zero_radius {V : Type} (one : V)
  (start end_ centers radiuses : list (vec3 Z)) (i : nat)
  (m : ndarray V) (s e center radius : vec3 Z) :
  nth_error start i = Some s -> nth_error end_ i = Some e ->
  nth_error centers i = Some center -> nth_error radiuses i = Some radius ->
  (exists a, proj radius a = 0) ->
  (forall a, proj (scan_begin center radius) a
             < proj (scan_end s e center radius) a) ->
  ellipse_item one start end_ centers radiuses i m
  = Raise ZeroDivisionError.
Proof.
  intros Hs He Hc Hr Hz Hne.
  rewrite (ellipse_item_visited one _ _ _ _ i m s e center radius)
    by assumption.
  assert (Hin : In (scan_begin center radius)
                  (visited (scan_begin center radius)
                     (scan_end s e center radius))).
  { apply in_visited_iff. intros a. specialize (Hne a). lia. }
  destruct (visited (scan_begin center radius) (scan_end s e center radius))
    as [|p l]; [contradiction|].
  cbn [for_each]. unfold ellipse_voxel.
  rewrite (inside_ellipse_zero_radius p center radius Hz). reflexivity.
Qed.

(** X12 ([make_rect_mask_numba]): a nodule with a negative extent stops
    the box filler with [ValueError], raised by [np.ones], once the
    nodules before it have been inserted. *)
Theorem make_rect_mask_negative_size {V : Type} (one : V)
  (batch_mask : ndarray V)
  (start end_ nodules_start nodules_size : list (vec3 Z)) (i : nat)
  (size : vec3 Z) :
  windows_ok (shape batch_mask) start end_ ->
  length nodules_start = length start ->
  length nodules_size = length start ->
  (forall j s e origin sz,
     (j < i)%nat ->
     nth_error start j = Some s -> nth_error end_ j = Some e ->
     nth_error nodules_start j = Some origin ->
     nth_error nodules_size j = Some sz ->
     box_ok s e origin sz) ->
  nth_error nodules_size i = Some size ->
  (exists a, proj size a < 0) ->
  make_rect_mask_numba one batch_mask start end_ nodules_start nodules_size
  = Raise ValueError.
Proof.
  intros [Hlen Hwin] Hl1 Hl2 Hbox Hi Hneg. unfold make_rect_mask_numba.
  assert (Hlt : (i < length nodules_start)%nat).
  { rewrite Hl1, <- Hl2. apply nth_error_Some. congruence. }
  apply (for_each_seq_raise (fun t => shape t = shape batch_mask)
           (length nodules_start) i); [exact Hlt|reflexivity| |].
  - intros k t Hk Et.
    destruct (row_lt start k) as (s & Es & _); [lia|].
    destruct (row_lt end_ k) as (e & Ee & _); [lia|].
    destruct (row_lt nodules_start k) as (o & Eo & _); [lia|].
    destruct (row_lt nodules_size k) as (z & Ez & _); [lia|].
    destruct (rect_item_frame one start end_ nodules_start nodules_size
                k t s e o z) as (t' & E & Eshape & _); try assumption.
    + rewrite Et. apply (Hwin k); assumption.
    + apply (Hbox k); assumption.
    + exists t'. split; [exact E|congruence].
  - intros t _. unfold rect_item. rewrite (row_some _ _ _ Hi). cbn [bind].
    rewrite (np_ones_negative one size Hneg). reflexivity.
Qed.

Lemma make_rect_mask_negative_size_witness :
  make_rect_mask_numba 1 example_batch [(1, 1, 1)] [(4, 4, 4)]
    [(0, 0, 0)] [(2, -2, 2)] = Raise ValueError.
Proof.
  apply (make_rect_mask_negative_size 1 example_batch [(1, 1, 1)]
           [(4, 4, 4)] [(0, 0, 0)] [(2, -2, 2)] 0 (2, -2, 2)).
  - split; [reflexivity|]. intros i s e Hs He.
    apply nth_error_singleton in Hs, He. subst. by_axes.
  - reflexivity.
  - reflexivity.
  - intros j s e origin sz Hj. lia.
  - reflexivity.
  - exists ax1. cbn. lia.
Defined.

(** X13 ([make_ellipse_mask_numba]): a nodule with a zero radius whose
    scan range is not empty stops the ellipsoid filler with
    [ZeroDivisionError] at its first voxel, once the nodules before it
    have been scanned. *)
Theorem make_ellipse_mask_zero_radius {V : Type} (one : V)
  (batch_mask : ndarray V) (start end_ centers radiuses : list (vec3 Z))
  (i : nat) (s e center radius : vec3 Z) :
  shape_ok (shape batch_mask) ->
  windows_ok (shape batch_mask) start end_ ->
  length centers = length start -> length radiuses = length start ->
  (forall j r, (j < i)%nat -> nth_error radiuses j = Some r -> radius_ok r) ->
  nth_error start i = Some s -> nth_error end_ i = Some e ->
  nth_error centers i = Some center -> nth_error radiuses i = Some radius ->
  (exists a, proj radius a = 0) ->
  (forall a, proj (scan_begin center radius) a
             < proj (scan_end s e center radius) a) ->
  make_ellipse_mask_numba one batch_mask start end_ centers radiuses
  = Raise ZeroDivisionError.
Proof.
  intros Hsh [Hlen Hwin] Hl1 Hl2 Hrad Hs He Hc Hr Hz Hne.
  unfold make_ellipse_mask_numba.
  assert (Hlt : (i < length centers)%nat).
  { apply nth_error_Some. congruence. }
  apply (for_each_seq_raise (fun t => shape t = shape batch_mask)
           (length centers) i); [exact Hlt|reflexivity| |].
  - intros k t Hk Et.
    destruct (row_lt start k) as (s' & Es & _); [lia|].
    destruct (row_lt end_ k) as (e' & Ee & _); [lia|].
    destruct (row_lt centers k) as (c' & Ec & _); [lia|].
    destruct (row_lt radiuses k) as (r' & Er & _); [lia|].
    destruct (ellipse_item_frame one start end_ centers radiuses
                k t s' e' c' r') as (t' & E & Eshape & _); try assumption.
    + rewrite Et. exact Hsh.
    + rewrite Et. apply (Hwin k); assumption.
    + apply (Hrad k r' Hk Er).
    + exists t'. split; [exact E|congruence].
  - intros t _.
    apply (ellipse_item_zero_radius one start end_ centers radiuses i t
             s e center radius); assumption.
Qed.

Lemma make_ellipse_mask_zero_radius_witness :
  make_ellipse_mask_numba 1 example_batch [(1, 1, 1)] [(4, 4, 4)]
    [(1, 1, 1)] [(1, 0, 1)] = Raise ZeroDivisionError.
Proof.
  apply (make_ellipse_mask_zero_radius 1 example_batch [(1, 1, 1)]
           [(4, 4, 4)] [(1, 1, 1)] [(1, 0, 1)] 0 (1, 1, 1) (4, 4, 4)
           (1, 1, 1) (1, 0, 1)); try reflexivity.
  - by_axes.
  - split; [reflexivity|]. intros i s e Hs He.
    apply nth_error_singleton in Hs, He. subst. by_axes.
  - intros j r Hj. lia.
  - exists ax1. reflexivity.
  - intros a; destruct a; vm_compute; reflexivity.
Defined.

(** ** The membership test of the ellipsoid filler *)

(** The sign of the rounded result is the sign that is passed in. *)
Lemma round_aux_opp (s : bool) (m e : Z) (l : location) :
  binary_round_aux prec emax (negb s) m e l
  = SFopp (binary_round_aux prec emax s m e l).
Proof.
  unfold binary_round_aux.
  destruct (shr_fexp prec emax m e l) as [mrs e'].
  destruct (shr_fexp prec emax
              (round_nearest_even (shr_m mrs) (loc_of_shr_record mrs)) e'
              loc_Exact) as [mrs' e''].
  destruct (shr_m mrs') as [|p|p]; try reflexivity.
  destruct (e'' <=? emax - prec); reflexivity.
Qed.

Lemma SFdiv_opp_l (x y : spec_float) :
  SF64div (SFopp x) y = SFopp (SF64div x y).
Proof.
  unfold SF64div, SFdiv, SFopp.
  destruct x as [sx|sx| |sx mx ex], y as [sy|sy| |sy my ey];
    try reflexivity;
    try (destruct sx, sy; reflexivity).
  destruct (SFdiv_core_binary prec emax (Z.pos mx) ex (Z.pos my) ey)
    as [[mz ez] lz].
  replace (xorb (negb sx) sy) with (negb (xorb sx sy))
    by (destruct sx, sy; reflexivity).
  apply round_aux_opp.
Qed.

Lemma SFmul_opp_opp (x : spec_float) :
  SF64mul (SFopp x) (SFopp x) = SF64mul x x.
Proof.
  unfold SF64mul, SFmul, SFopp.
  destruct x as [s|s| |s m e]; try reflexivity;
    replace (xorb (negb s) (negb s)) with (xorb s s)
      by (destruct s; reflexivity);
    reflexivity.
Qed.

(** The square of a quotient does not change when the dividend changes
    sign. *)
Lemma sqr_div_opp (x y : float) :
  F64.sqr (- x / y) = F64.sqr (x / y).
Proof.
  unfold F64.sqr. apply Prim2SF_inj.
  rewrite !mul_spec, !div_spec, opp_spec, SFdiv_opp_l, SFmul_opp_opp.
  reflexivity.
Qed.

Lemma opp_involutive (x : float) : (- - x)%float = x.
Proof.
  apply Prim2SF_inj. rewrite !opp_spec.
  destruct (Prim2SF x) as [s|s| |s m e]; cbn [SFopp];
    rewrite ?negb_involutive; reflexivity.
Qed.

(** Conversion to float64 commutes with negation, except at 0, whose
    negation is the float -0. *)
Lemma of_int64_opp (d : Z) :
  d <> 0 -> Int64.in_range d -> Int64.in_range (- d) ->
  F64.of_int64 (- d) = (- F64.of_int64 d)%float.
Proof.
  intros Hd [L1 U1] [L2 U2]. unfold Int64.min_int, Int64.max_int in *.
  unfold F64.of_int64.
  destruct (Z.eqb_spec (- d) Int64.min_int) as [E|_];
    [unfold Int64.min_int in E; lia|].
  destruct (Z.eqb_spec d Int64.min_int) as [E|_];
    [unfold Int64.min_int in E; lia|].
  destruct (Z.ltb_spec (- d) 0), (Z.ltb_spec d 0); try lia.
  - rewrite Z.opp_involutive. reflexivity.
  - rewrite opp_involutive. reflexivity.
Qed.

Lemma sqr_term_symmetric (d r : Z) :
  Int64.in_range d -> Int64.in_range (- d) ->
  F64.sqr (F64.of_int64 (- d) / F64.of_int64 r)
  = F64.sqr (F64.of_int64 d / F64.of_int64 r).
Proof.
  intros H1 H2. destruct (Z.eq_dec d 0) as [->|Hd]; [reflexivity|].
  rewrite (of_int64_opp d Hd H1 H2). apply sqr_div_opp.
Qed.

(** X15 ([make_ellipse_mask_numba], the test of the innermost loop): the
    float64 membership test gives the same answer, or the same exception,
    at a voxel and at its mirror image through the center. *)
Theorem inside_ellipse_symmetric (center radius d : vec3 Z) :
  (forall a, Int64.in_range (proj d a) /\ Int64.in_range (- proj d a)) ->
  inside_ellipse (zip3 Z.sub center d) center radius
  = inside_ellipse (zip3 Z.add center d) center radius.
Proof.
  intros Hd.
  assert (T : forall a,
            F64.sqr (F64.of_int64
                       (Int64.sub (proj center a - proj d a) (proj center a))
                     / F64.of_int64 (proj radius a))
            = F64.sqr (F64.of_int64
                         (Int64.sub (proj center a + proj d a)
                            (proj center a))
                       / F64.of_int64 (proj radius a))).
  { intros a. destruct (Hd a) as [H1 H2]. unfold Int64.sub.
    replace (proj center a - proj d a - proj center a) with (- proj d a)
      by lia.
    replace (proj center a + proj d a - proj center a) with (proj d a)
      by lia.
    rewrite !wrap_small by assumption.
    apply sqr_term_symmetric; assumption. }
  pose proof (T ax0) as T0. pose proof (T ax1) as T1.
  pose proof (T ax2) as T2.
  destruct center as [[c0 c1] c2], d as [[d0 d1] d2],
    radius as [[r0 r1] r2].
  cbn [proj] in T0, T1, T2.
  unfold inside_ellipse, true_div, zip3. cbn [proj].
  destruct (r0 =? 0); [reflexivity|]. cbn [bind].
  destruct (r1 =? 0); [reflexivity|]. cbn [bind].
  destruct (r2 =? 0); [reflexivity|]. cbn [bind].
  rewrite T0, T1, T2. reflexivity.
Qed.

Lemma inside_ellipse_symmetric_witness :
  inside_ellipse (zip3 Z.sub (7, 7, 7) (6, 3, 2)) (7, 7, 7) (7, 7, 7)
  = inside_ellipse (zip3 Z.add (7, 7, 7) (6, 3, 2)) (7, 7, 7) (7, 7, 7).
Proof.
  apply inside_ellipse_symmetric. by_axes.
Defined.

Lemma round_mag_one : round_mag 1 0 = 2 ^ scale.
Proof.
  rewrite round_mag_exact.
  - change (0 + scale) with scale. lia.
  - unfold scale. lia.
  - rewrite fexp_eq. cbn. lia.
  - change (0 + scale) with scale. pose proof one_lt_inf. lia.
Qed.

(** A non-zero int64 is converted to a float that is not zero. *)
Lemma of_int64_nonzero (r : Z) :
  Int64.in_range r -> r <> 0 -> nonzero_sf (Prim2SF (F64.of_int64 r)).
Proof.
  assert (P : forall z, 0 < z <= Int64.max_int ->
            nonzero_sf (Prim2SF (of_uint63 (Uint63.of_Z z)))).
  { intros z [Hz Hmax]. unfold Int64.max_int in Hmax.
    rewrite of_uint63_spec, Uint63.of_Z_spec.
    rewrite Z.mod_small by (change Uint63Axioms.wB with (2 ^ 63); lia).
    assert (He : - scale <= 0) by (unfold scale; lia).
    destruct (normalize_value z 0 He) as [Nn Ev].
    destruct z as [|p|p]; try lia.
    pose proof (round_mag_mono 1 0 p 0 He He) as Hm.
    change (0 + scale) with scale in Hm. pose proof scale_pos as HK.
    specialize (Hm ltac:(nia)). rewrite round_mag_one in Hm.
    destruct (binary_normalize prec emax (Z.pos p) 0 false)
      as [s|s| |s m e]; cbn [value nonzero_sf] in *;
      try exact I; lia. }
  intros [Lo Hi] Hr. unfold F64.of_int64.
  destruct (Z.eqb_spec r Int64.min_int) as [_|Hmin]; [exact I|].
  destruct (Z.ltb_spec r 0) as [Hneg|Hpos].
  - rewrite opp_spec.
    assert (H : nonzero_sf (Prim2SF (of_uint63 (Uint63.of_Z (- r))))).
    { apply P. unfold Int64.min_int, Int64.max_int in *. lia. }
    destruct (Prim2SF (of_uint63 (Uint63.of_Z (- r)))); cbn in *;
      try contradiction; exact I.
  - apply P. lia.
Qed.

Lemma sqr_zero_div_nonzero (y : float) :
  nonzero_sf (Prim2SF y) -> F64.sqr (0 / y) = 0%float.
Proof.
  intros Hy.
  assert (H : Prim2SF (0 / y) = Prim2SF 0
              \/ Prim2SF (0 / y) = Prim2SF (-0)).
  { rewrite div_spec. change (Prim2SF 0) with (S754_zero false).
    destruct (Prim2SF y) as [s|s| |s m e]; cbn [nonzero_sf] in Hy;
      try contradiction;
      destruct s; try (left; reflexivity); right; reflexivity. }
  destruct H as [H|H]; apply Prim2SF_inj in H; rewrite H; reflexivity.
Qed.

(** The center passes the membership test. *)
Lemma quadratic_form_center (center radius : vec3 Z) :
  radius_ok radius -> int64_vec radius ->
  (quadratic_form center center radius <? 1)%float = true.
Proof.
  intros Hr Hi. unfold quadratic_form. cbv zeta beta.
  assert (T : forall a,
            F64.sqr (F64.of_int64 (Int64.sub (proj center a) (proj center a))
                     / F64.of_int64 (proj radius a)) = 0%float).
  { intros a. unfold Int64.sub. rewrite Z.sub_diag.
    change (F64.of_int64 (Int64.wrap 0)) with 0%float.
    apply sqr_zero_div_nonzero. apply of_int64_nonzero; [apply Hi|apply Hr]. }
  rewrite !T. reflexivity.
Qed.

(** X14 ([make_ellipse_mask_numba]): the voxel at the center of a nodule
    with positive radii is set to 1 whenever the center lies in the
    window of the patient. *)
Theorem ellipse_center_set {V : Type} (one : V)
  (start end_ centers radiuses : list (vec3 Z)) (i : nat)
  (batch_mask : ndarray V) (s e center radius : vec3 Z) :
  nth_error start i = Some s -> nth_error end_ i = Some e ->
  nth_error centers i = Some center -> nth_error radiuses i = Some radius ->
  shape_ok (shape batch_mask) -> window_ok (shape batch_mask) s e ->
  (forall a, 0 < proj radius a /\
             proj center a + proj radius a < Int64.max_int) ->
  (forall a, 0 <= proj center a < proj e a - proj s a) ->
  exists m',
    ellipse_item one start end_ centers radiuses i batch_mask = Ok m' /\
    data m' (zip3 Z.add center s) = one.
Proof.
  intros Hs He Hc Hr Hsh Hw Hrad Hcen.
  assert (Rok : radius_ok radius) by (intros a; specialize (Hrad a); lia).
  assert (Rint : int64_vec radius).
  { intros a. specialize (Hrad a). specialize (Hcen a).
    unfold Int64.in_range, Int64.min_int, Int64.max_int in *. lia. }
  destruct (ellipse_item_data one start end_ centers radiuses i batch_mask
              s e center radius Hs He Hc Hr Hsh Hw Rok)
    as (m' & E & _ & Hd).
  exists m'. split; [exact E|]. rewrite Hd.
  replace (ellipse_sets s e center radius (zip3 Z.add center s)) with true;
    [reflexivity|].
  symmetry. unfold ellipse_sets.
  replace (zip3 Z.sub (zip3 Z.add center s) s) with center
    by (apply vec3_ext; intros a; rewrite !proj_zip3; lia).
  rewrite (quadratic_form_center center radius Rok Rint), andb_true_r.
  apply in_window_iff. intros a.
  rewrite proj_scan_begin, (proj_scan_end (shape batch_mask)) by assumption.
  specialize (Hrad a). specialize (Hcen a).
  pose proof (Hw a) as Hwa. pose proof (Hsh a) as Hsa.
  unfold Int64.sub, Int64.add.
  rewrite (wrap_small (proj center a - proj radius a))
    by (unfold Int64.in_range, Int64.min_int, Int64.max_int in *; lia).
  rewrite (wrap_small (proj center a + proj radius a))
    by (unfold Int64.in_range, Int64.min_int, Int64.max_int in *; lia).
  rewrite (wrap_small (proj center a + proj radius a + 1))
    by (unfold Int64.in_range, Int64.min_int, Int64.max_int in *; lia).
  lia.
Qed.

Lemma ellipse_center_set_witness :
  exists m',
    ellipse_item 1 [(1, 1, 1)] [(4, 4, 4)] [(0, 2, 1)] [(1, 3, 2)] 0
      example_batch = Ok m' /\
    data m' (zip3 Z.add (0, 2, 1) (1, 1, 1)) = 1.
Proof.
  apply (ellipse_center_set 1 [(1, 1, 1)] [(4, 4, 4)] [(0, 2, 1)]
           [(1, 3, 2)] 0 example_batch (1, 1, 1) (4, 4, 4) (0, 2, 1)
           (1, 3, 2)); try reflexivity; by_axes.
Defined.

(** X16 ([create_mask_reg_jit]): for parallel arrays whose bounds are
    windows of the masks, item [i] of the result is item [i] of the input
    with the voxels [start[i] <= p < end[i]] set to 1; the other voxels of
    the item and the shapes are unchanged. *)
Theorem create_mask_reg_jit_voxels (masks : list (ndarray float))
  (start end_ : list (vec3 Z)) :
  length masks = length start -> length end_ = length start ->
  (forall i m s e,
     nth_error masks i = Some m -> nth_error start i = Some s ->
     nth_error end_ i = Some e -> window_ok (shape m) s e) ->
  exists ms,
    create_mask_reg_jit masks start end_ = Ok ms /\
    length ms = length masks /\
    forall i m s e,
      nth_error masks i = Some m -> nth_error start i = Some s ->
      nth_error end_ i = Some e ->
      exists m',
        nth_error ms i = Some m' /\
        shape m' = shape m /\
        forall p,
          data m' p = if in_window s e p then 1%float else data m p.
Proof.
  intros Hl1 Hl2 Hwin.
  destruct (create_mask_reg_jit_rows masks start end_ Hl1 Hl2)
    as (ms & E & L & Hrows).
  exists ms. split; [exact E|]. split; [exact L|].
  intros i m s e Hm Hs He.
  exists (fill_slice m s e). split; [apply (Hrows i m s e Hm Hs He)|].
  split; [reflexivity|]. intros p.
  unfold fill_slice, fill_view. cbn [data].
  rewrite (window_view m s e (Hwin i m s e Hm Hs He)). reflexivity.
Qed.

Lemma create_mask_reg_jit_voxels_witness :
  exists ms,
    create_mask_reg_jit [zeros_array (4, 4, 4)] [(1, 0, 2)] [(3, 4, 3)]
    = Ok ms /\
    exists m',
      nth_error ms 0 = Some m' /\
      data m' (2, 3, 2) = 1%float /\ data m' (3, 3, 2) = 0%float.
Proof.
  destruct (create_mask_reg_jit_voxels [zeros_array (4, 4, 4)] [(1, 0, 2)]
              [(3, 4, 3)]) as (ms & E & _ & H); try reflexivity.
  - intros i m s e Hm Hs He.
    apply nth_error_singleton in Hm, Hs, He. subst. by_axes.
  - exists ms. split; [exact E|].
    destruct (H 0%nat (zeros_array (4, 4, 4)) (1, 0, 2) (3, 4, 3)
                eq_refl eq_refl eq_refl) as (m' & Em & _ & Hd).
    exists m'. split; [exact Em|]. rewrite !Hd. split; reflexivity.
Defined.
